(** * YouTranser / EyerLib: the transcode core, embedded and checked

    The development follows the C++ sources:
    - [EyerAVReader::Read]            (packet reading and pts normalisation),
    - [EyerAVEncoder::Init]           (per-codec encoder set-up),
    - [EyerAVTranscode::Transcode]    (interleaved audio/video transcode run),
    - [YouTransMainWindow::StartTranscodeClickListenerInternal]
                                      (bounded start of prepared tasks),
    - [YouTranscoderParams::ParseJson], [ToJson]
                                      (the configuration as JSON),
    - [EyerTime::Milliseconds_to_time] (a time of day as text).

    Conventions.  C++ [int], [long] and [int64_t] values are integers in [Z];
    the only place where 64-bit wrap-around can occur on well-formed input
    (subtracting a start time) writes it out with [wrap64].  The [double]s
    of the video clock (the duration of the video stream, the frame rate,
    the time of a frame and its time stamp) are IEEE 754 binary64 numbers,
    [spec_float] with the operations of the Standard Library at precision 53
    and exponent bound 1024, rounding to nearest even.  The limit of a burst
    is a multiple of 0.5, which a [double] holds exactly; it is kept as the
    rational in [Q], and so is the audio clock [audioOffset / 44100], whose
    comparison with the limit comes out the same.  The codec library (FFmpeg)
    and the classes whose sources are not available are collaborators: their
    answers are fields of a record that every definition takes as an
    argument.

    Part I holds the definitions, Part II the lemmas and theorems. *)

From Stdlib Require Import String Ascii DecimalString SpecFloat ZArith QArith
  Qround Qpower List Bool Lia Lqa.
Import ListNotations.

Local Open Scope Z_scope.

(* ===================================================================== *)
(** * Part I: definitions                                                 *)
(* ===================================================================== *)

(** ** Values shared with the codec library *)

Module AV.

(** [AV_NOPTS_VALUE] is [((int64_t)UINT64_C(0x8000000000000000))]. *)
Definition AV_NOPTS_VALUE : Z := - 2 ^ 63.

(** Two's complement reduction of an integer to [int64_t]. *)
Definition wrap64 (z : Z) : Z := (z + 2 ^ 63) mod 2 ^ 64 - 2 ^ 63.

Record AVRational := mkRational { num : Z; den : Z }.

Record AVPacket := mkPacket {
  pts : Z;
  dts : Z;
  duration : Z;
  stream_index : Z
}.

Definition set_pts (v : Z) (p : AVPacket) : AVPacket :=
  {| pts := v; dts := dts p; duration := duration p;
     stream_index := stream_index p |}.

(** [EyerAVPacket::SetStreamIndex]. *)
Definition SetStreamIndex (streamIndex : Z) (p : AVPacket) : AVPacket :=
  {| pts := pts p; dts := dts p; duration := duration p;
     stream_index := streamIndex |}.

(** [av_q2d]: the rational as a real number. *)
Definition av_q2d (a : AVRational) : Q := inject_Z (num a) / inject_Z (den a).

(** Modelled from the spec: time stamps are rescaled between time bases
    with symmetric rounding (section 4.3, step 2).  The library routine
    behind [EyerAVPacket::RescaleTs], [av_rescale_q], is not part of the
    sources; this is its round-to-nearest, halves away from zero, form,
    with the library's answer [INT64_MIN] for an unusable time base. *)
Definition av_rescale_q (a : Z) (bq cq : AVRational) : Z :=
  let b := num bq * den cq in
  let c := num cq * den bq in
  if (c <=? 0) || (b <? 0) then - 2 ^ 63
  else if 0 <=? a then (a * b + c / 2) / c
  else - ((- a * b + c / 2) / c).

(** [EyerAVPacket::RescaleTs], that is [av_packet_rescale_ts]: [pts] and
    [dts] are rescaled unless unset, [duration] when positive.  The
    rescaling of one value is the argument [rescale]. *)
Definition RescaleTs (rescale : Z -> AVRational -> AVRational -> Z)
    (codecTimebase streamTimebase : AVRational) (p : AVPacket) : AVPacket :=
  {| pts := if pts p =? AV_NOPTS_VALUE then pts p
            else rescale (pts p) codecTimebase streamTimebase;
     dts := if dts p =? AV_NOPTS_VALUE then dts p
            else rescale (dts p) codecTimebase streamTimebase;
     duration := if 0 <? duration p
                 then rescale (duration p) codecTimebase streamTimebase
                 else duration p;
     stream_index := stream_index p |}.

End AV.

(** ** EyerAVReader: reading packets *)

Module Reader.
Import AV.

Record AVStream := mkStream {
  start_time : Z;
  time_base : AVRational
}.

(** [piml->formatCtx]: the streams of the container and the packets that
    [av_read_frame] has not returned yet. *)
Record AVFormatContext := mkFormatCtx {
  streams : list AVStream;
  unread : list AVPacket
}.

(** [EyerAVPacket]: the library packet and the cached time in seconds. *)
Record EyerAVPacket := mkEyerPacket {
  packet : AVPacket;
  secPTS : Q
}.

Definition AVERROR_EOF : Z := -541478725.

(** [av_read_frame]: 0 and the next packet, or a negative code. *)
Definition av_read_frame (ctx : AVFormatContext)
    : Z * AVFormatContext * option AVPacket :=
  match unread ctx with
  | [] => (AVERROR_EOF, ctx, None)
  | p :: rest => (0, {| streams := streams ctx; unread := rest |}, Some p)
  end.

(** [streams[streamIndex]]; indexing outside the array is undefined. *)
Definition stream_at (ctx : AVFormatContext) (streamIndex : Z)
    : option AVStream :=
  if streamIndex <? 0 then None
  else nth_error (streams ctx) (Z.to_nat streamIndex).

(** [int EyerAVReader::Read(EyerAVPacket * packet)].
    The result is the return code, the reader and the caller's packet;
    [None] stands for undefined behaviour (stream index out of range). *)
Definition Read_ptr (ctx : AVFormatContext) (pkt : EyerAVPacket)
    : option (Z * AVFormatContext * EyerAVPacket) :=
  match av_read_frame ctx with
  | (ret, ctx', Some p) =>
      let streamIndex := stream_index p in
      match stream_at ctx' streamIndex with
      | None => None
      | Some st =>
          let start_time := start_time st in
          let p' := set_pts (wrap64 (pts p - start_time)) p in
          let pts := pts p' in
          Some (ret, ctx',
                {| packet := p';
                   secPTS := inject_Z pts * av_q2d (time_base st) |})
      end
  | (ret, ctx', None) => Some (ret, ctx', pkt)
  end.

(** [int EyerAVReader::Read(EyerAVPacket & packet)]. *)
Definition Read_ref (ctx : AVFormatContext) (pkt : EyerAVPacket)
    : option (Z * AVFormatContext * EyerAVPacket) :=
  match av_read_frame ctx with
  | (ret, ctx', Some p) =>
      let streamIndex := stream_index p in
      match stream_at ctx' streamIndex with
      | None => None
      | Some st =>
          let start_time := start_time st in
          let p' := if negb (start_time =? AV_NOPTS_VALUE)
                    then set_pts (wrap64 (pts p - start_time)) p
                    else p in
          let pts := pts p' in
          Some (ret, ctx',
                {| packet := p';
                   secPTS := if negb (pts =? AV_NOPTS_VALUE)
                             then inject_Z pts * av_q2d (time_base st)
                             else secPTS pkt |})
      end
  | (ret, ctx', None) => Some (ret, ctx', pkt)
  end.

(** [EyerSmartPtr<EyerAVPacket> EyerAVReader::Read(int & ret)]: a fresh
    packet handed to the pointer variant. *)
Definition Read_smart (ctx : AVFormatContext) (fresh : EyerAVPacket)
    : option (Z * AVFormatContext * EyerAVPacket) :=
  Read_ptr ctx fresh.

(** The three variants of [Read]. *)
Inductive ReadVariant := ByReference | ByPointer | BySmartPtr.

Definition Read (v : ReadVariant) :=
  match v with
  | ByReference => Read_ref
  | ByPointer => Read_ptr
  | BySmartPtr => Read_smart
  end.

(** What section 4.1 asks of a packet that was read: start time taken
    off when the stream defines one, [pts] untouched otherwise. *)
Definition normalised_pts (st : AVStream) (raw : Z) : Z :=
  if start_time st =? AV_NOPTS_VALUE then raw
  else wrap64 (raw - start_time st).

(** A one-stream file without a start time, holding one packet. *)
Definition file_without_start_time : AVFormatContext :=
  {| streams := [ {| start_time := AV_NOPTS_VALUE;
                     time_base := mkRational 1 1000 |} ];
     unread := [ mkPacket 1000 1000 40 0 ] |}.

Definition blank_packet : EyerAVPacket :=
  {| packet := mkPacket AV_NOPTS_VALUE AV_NOPTS_VALUE 0 0; secPTS := 0%Q |}.



(** [AV_TIME_BASE], the time stamps per second of [formatCtx->duration]. *)
Definition AV_TIME_BASE : Z := 1000000.

(** [double EyerAVReader::GetDuration()]: [formatCtx->duration /
    AV_TIME_BASE], a division of integers, converted to [double]. *)
Definition GetDuration (duration : Z) : Q :=
  inject_Z (Z.quot duration AV_TIME_BASE).

(** A file of two streams, the first starting at 900 (in 1/1000), the
    second without a start time (in 1/44100), and three packets. *)
Definition two_stream_file : AVFormatContext :=
  {| streams := [ {| start_time := 900; time_base := mkRational 1 1000 |};
                  {| start_time := AV_NOPTS_VALUE;
                     time_base := mkRational 1 44100 |} ];
     unread := [ mkPacket 900 900 40 0; mkPacket 0 0 1024 1;
                 mkPacket 940 940 40 0 ] |}.

End Reader.

(** ** EyerAVEncoder: opening an encoder *)

Module Encoder.
Import AV.

(** The codec ids [EyerAVEncoder::Init] has a branch for; any other id
    is [CODEC_ID_UNKNOWN]. *)
Inductive EyerAVCodecID :=
| CODEC_ID_H264 | CODEC_ID_H265 | CODEC_ID_VP8 | CODEC_ID_VP9
| CODEC_ID_MJPEG | CODEC_ID_PNG | CODEC_ID_AAC | CODEC_ID_LIB_OPUS
| CODEC_ID_MP3 | CODEC_ID_FLAC | CODEC_ID_PCM_S16LE | CODEC_ID_PCM_S32LE
| CODEC_ID_PRORES | CODEC_ID_SRT | CODEC_ID_UNKNOWN.

Definition has_branch (id : EyerAVCodecID) : bool :=
  match id with CODEC_ID_UNKNOWN => false | _ => true end.

Inductive AVMediaType :=
| AVMEDIA_TYPE_UNKNOWN | AVMEDIA_TYPE_VIDEO | AVMEDIA_TYPE_AUDIO
| AVMEDIA_TYPE_SUBTITLE.

Record EyerAVEncoderParam := mkParam {
  codecId : EyerAVCodecID;
  width : Z;
  height : Z;
  pixelFormat : Z;
  threadnum : Z;
  timebase : AVRational;
  crf : Z;
  sampleFormat : Z;
  sample_rate : Z;
  channelLayout : Z
}.

Record AVCodecContext := mkCtx {
  codec_type : AVMediaType;
  pix_fmt : Z;
  ctx_width : Z;
  ctx_height : Z;
  thread_count : Z;
  time_base : AVRational;
  global_quality : Z;
  flags : Z;
  codec_tag : Z;
  sample_fmt : Z;
  ctx_sample_rate : Z;
  channel_layout : Z;
  channels : Z;
  frame_size : Z;
  is_open : bool
}.

(** Assignments to single fields of the context. *)
Definition set_codec_type v c :=
  mkCtx v (pix_fmt c) (ctx_width c) (ctx_height c) (thread_count c)
    (time_base c) (global_quality c) (flags c) (codec_tag c) (sample_fmt c)
    (ctx_sample_rate c) (channel_layout c) (channels c) (frame_size c)
    (is_open c).
Definition set_pix_fmt v c :=
  mkCtx (codec_type c) v (ctx_width c) (ctx_height c) (thread_count c)
    (time_base c) (global_quality c) (flags c) (codec_tag c) (sample_fmt c)
    (ctx_sample_rate c) (channel_layout c) (channels c) (frame_size c)
    (is_open c).
Definition set_width v c :=
  mkCtx (codec_type c) (pix_fmt c) v (ctx_height c) (thread_count c)
    (time_base c) (global_quality c) (flags c) (codec_tag c) (sample_fmt c)
    (ctx_sample_rate c) (channel_layout c) (channels c) (frame_size c)
    (is_open c).
Definition set_height v c :=
  mkCtx (codec_type c) (pix_fmt c) (ctx_width c) v (thread_count c)
    (time_base c) (global_quality c) (flags c) (codec_tag c) (sample_fmt c)
    (ctx_sample_rate c) (channel_layout c) (channels c) (frame_size c)
    (is_open c).
Definition set_thread_count v c :=
  mkCtx (codec_type c) (pix_fmt c) (ctx_width c) (ctx_height c) v
    (time_base c) (global_quality c) (flags c) (codec_tag c) (sample_fmt c)
    (ctx_sample_rate c) (channel_layout c) (channels c) (frame_size c)
    (is_open c).
Definition set_time_base_den v c :=
  mkCtx (codec_type c) (pix_fmt c) (ctx_width c) (ctx_height c)
    (thread_count c) (mkRational (num (time_base c)) v) (global_quality c)
    (flags c) (codec_tag c) (sample_fmt c) (ctx_sample_rate c)
    (channel_layout c) (channels c) (frame_size c) (is_open c).
Definition set_time_base_num v c :=
  mkCtx (codec_type c) (pix_fmt c) (ctx_width c) (ctx_height c)
    (thread_count c) (mkRational v (den (time_base c))) (global_quality c)
    (flags c) (codec_tag c) (sample_fmt c) (ctx_sample_rate c)
    (channel_layout c) (channels c) (frame_size c) (is_open c).
Definition set_global_quality v c :=
  mkCtx (codec_type c) (pix_fmt c) (ctx_width c) (ctx_height c)
    (thread_count c) (time_base c) v (flags c) (codec_tag c) (sample_fmt c)
    (ctx_sample_rate c) (channel_layout c) (channels c) (frame_size c)
    (is_open c).
Definition set_flags v c :=
  mkCtx (codec_type c) (pix_fmt c) (ctx_width c) (ctx_height c)
    (thread_count c) (time_base c) (global_quality c) v (codec_tag c)
    (sample_fmt c) (ctx_sample_rate c) (channel_layout c) (channels c)
    (frame_size c) (is_open c).
Definition set_codec_tag v c :=
  mkCtx (codec_type c) (pix_fmt c) (ctx_width c) (ctx_height c)
    (thread_count c) (time_base c) (global_quality c) (flags c) v
    (sample_fmt c) (ctx_sample_rate c) (channel_layout c) (channels c)
    (frame_size c) (is_open c).
Definition set_sample_fmt v c :=
  mkCtx (codec_type c) (pix_fmt c) (ctx_width c) (ctx_height c)
    (thread_count c) (time_base c) (global_quality c) (flags c)
    (codec_tag c) v (ctx_sample_rate c) (channel_layout c) (channels c)
    (frame_size c) (is_open c).
Definition set_sample_rate v c :=
  mkCtx (codec_type c) (pix_fmt c) (ctx_width c) (ctx_height c)
    (thread_count c) (time_base c) (global_quality c) (flags c)
    (codec_tag c) (sample_fmt c) v (channel_layout c) (channels c)
    (frame_size c) (is_open c).
Definition set_channel_layout v c :=
  mkCtx (codec_type c) (pix_fmt c) (ctx_width c) (ctx_height c)
    (thread_count c) (time_base c) (global_quality c) (flags c)
    (codec_tag c) (sample_fmt c) (ctx_sample_rate c) v (channels c)
    (frame_size c) (is_open c).
Definition set_channels v c :=
  mkCtx (codec_type c) (pix_fmt c) (ctx_width c) (ctx_height c)
    (thread_count c) (time_base c) (global_quality c) (flags c)
    (codec_tag c) (sample_fmt c) (ctx_sample_rate c) (channel_layout c) v
    (frame_size c) (is_open c).

(** Constants of the codec library. *)
Definition FF_QP2LAMBDA : Z := 118.
Definition AV_CODEC_FLAG_QSCALE : Z := Z.shiftl 1 1.
Definition MKTAG (a b c d : Z) : Z :=
  Z.lor a (Z.lor (Z.shiftl b 8) (Z.lor (Z.shiftl c 16) (Z.shiftl d 24))).
Definition AV_PIX_FMT_YUVJ420P : Z := 12.

(** The codec library as [Init] uses it.  [avcodec_find_encoder] stands
    for both the look-up by id and the look-up by name; the options
    dictionary handed to [avcodec_open2] holds at most the [crf] entry. *)
Record Library := mkLibrary {
  avcodec_find_encoder : EyerAVCodecID -> option EyerAVCodecID;
  avcodec_alloc_context3 : option EyerAVCodecID -> AVCodecContext;
  avcodec_open2 :
    AVCodecContext -> option EyerAVCodecID -> option Z -> Z * AVCodecContext;
  av_get_channel_layout_nb_channels : Z -> Z
}.

(** [EyerAVEncoder]: [piml->codecContext], null or allocated. *)
Record EyerAVEncoder := mkEncoder { codecContext : option AVCodecContext }.

(** A freshly constructed encoder. *)
Definition new_encoder : EyerAVEncoder := {| codecContext := None |}.

(** The field assignments of each branch of [Init], applied to the newly
    allocated context, in the order of the source. *)
Definition video_fields (param : EyerAVEncoderParam) (c : AVCodecContext) :=
  set_height (height param)
    (set_width (width param)
      (set_pix_fmt (pixelFormat param)
        (set_codec_type AVMEDIA_TYPE_VIDEO c))).

Definition copy_timebase (param : EyerAVEncoderParam) (c : AVCodecContext) :=
  set_time_base_num (num (timebase param))
    (set_time_base_den (den (timebase param)) c).

Definition audio_fields (lib : Library) (param : EyerAVEncoderParam)
    (c : AVCodecContext) :=
  let c1 := set_channel_layout (channelLayout param)
              (set_sample_rate (sample_rate param)
                (set_sample_fmt (sampleFormat param)
                  (set_codec_type AVMEDIA_TYPE_AUDIO c))) in
  set_channels (av_get_channel_layout_nb_channels lib (channel_layout c1)) c1.

Definition configure (lib : Library) (param : EyerAVEncoderParam)
    (c : AVCodecContext) : AVCodecContext :=
  match codecId param with
  | CODEC_ID_H264 =>
      copy_timebase param
        (set_thread_count (threadnum param) (video_fields param c))
  | CODEC_ID_H265 =>
      copy_timebase param
        (set_thread_count (threadnum param)
          (set_height (height param)
            (set_width (width param)
              (set_pix_fmt (pixelFormat param)
                (set_codec_tag (MKTAG 104 118 99 49)
                  (set_codec_type AVMEDIA_TYPE_VIDEO
                    (set_flags (Z.lor (flags c) AV_CODEC_FLAG_QSCALE)
                      (set_global_quality (FF_QP2LAMBDA * 75) c))))))))
  | CODEC_ID_VP8 => copy_timebase param (video_fields param c)
  | CODEC_ID_VP9 =>
      copy_timebase param (set_thread_count 32 (video_fields param c))
  | CODEC_ID_MJPEG =>
      copy_timebase param
        (set_height (height param)
          (set_width (width param)
            (set_pix_fmt AV_PIX_FMT_YUVJ420P
              (set_codec_type AVMEDIA_TYPE_VIDEO c))))
  | CODEC_ID_PNG => copy_timebase param (video_fields param c)
  | CODEC_ID_AAC =>
      set_time_base_num 1
        (set_time_base_den (sample_rate param) (audio_fields lib param c))
  | CODEC_ID_LIB_OPUS =>
      set_time_base_num 1
        (set_time_base_den (sample_rate param) (audio_fields lib param c))
  | CODEC_ID_MP3 => audio_fields lib param c
  | CODEC_ID_FLAC => audio_fields lib param c
  | CODEC_ID_PCM_S16LE => audio_fields lib param c
  | CODEC_ID_PCM_S32LE => audio_fields lib param c
  | CODEC_ID_PRORES =>
      copy_timebase param
        (set_thread_count (threadnum param) (video_fields param c))
  | CODEC_ID_SRT =>
      copy_timebase param (set_codec_type AVMEDIA_TYPE_SUBTITLE c)
  | CODEC_ID_UNKNOWN => c
  end.

(** The [crf] entry of the options dictionary: set for H.264 and H.265. *)
Definition dict_of (param : EyerAVEncoderParam) : option Z :=
  match codecId param with
  | CODEC_ID_H264 | CODEC_ID_H265 => Some (crf param)
  | _ => None
  end.

(** [int EyerAVEncoder::Init(const EyerAVEncoderParam & param)].
    Every branch first tests [piml->codecContext != nullptr]: it then
    closes and frees the context, nulls the pointer and returns -1.
    Otherwise the context is allocated, filled in and opened, and the
    result of [avcodec_open2] is returned.  With an id that has no
    branch, [avcodec_open2] receives the current context and a null
    codec; [None] stands for the undefined call on a null context. *)
Definition Init (lib : Library) (e : EyerAVEncoder)
    (param : EyerAVEncoderParam) : option (Z * EyerAVEncoder) :=
  if has_branch (codecId param) then
    let codec := avcodec_find_encoder lib (codecId param) in
    match codecContext e with
    | Some _ => Some (-1, {| codecContext := None |})
    | None =>
        let c := configure lib param (avcodec_alloc_context3 lib codec) in
        let '(ret, c') := avcodec_open2 lib c codec (dict_of param) in
        Some (ret, {| codecContext := Some c' |})
    end
  else
    match codecContext e with
    | None => None
    | Some c =>
        let '(ret, c') := avcodec_open2 lib c None None in
        Some (ret, {| codecContext := Some c' |})
    end.


(** [int EyerAVEncoder::GetFrameSize()]. *)
Definition GetFrameSize (e : EyerAVEncoder) : option Z :=
  match codecContext e with
  | Some c => Some (frame_size c)
  | None => None
  end.

(** Calling [Init] repeatedly on one encoder object: the return codes.
    A call whose behaviour is undefined ends the run. *)
Fixpoint init_codes (lib : Library) (e : EyerAVEncoder)
    (params : list EyerAVEncoderParam) : list Z :=
  match params with
  | [] => []
  | param :: rest =>
      match Init lib e param with
      | Some (ret, e') => ret :: init_codes lib e' rest
      | None => []
      end
  end.

(** Number of successful calls among the return codes. *)
Definition successes (codes : list Z) : nat :=
  length (filter (fun ret => ret =? 0) codes).


(** Modelled from the spec: [EyerAVEncoderParam::SetTimebase], not part of
    the sources, sets the [time_base] of the parameters. *)
Definition SetTimebase (tb : AVRational) (p : EyerAVEncoderParam) :=
  mkParam (codecId p) (width p) (height p) (pixelFormat p) (threadnum p)
    tb (crf p) (sampleFormat p) (sample_rate p) (channelLayout p).

(** Modelled from the spec: [EyerAVEncoderParam::SetWH], not part of the
    sources, sets [width] and [height] of the parameters. *)
Definition SetWH (w h : Z) (p : EyerAVEncoderParam) :=
  mkParam (codecId p) w h (pixelFormat p) (threadnum p)
    (timebase p) (crf p) (sampleFormat p) (sample_rate p) (channelLayout p).


Definition InitEncoder_videoParams (fromStream : EyerAVEncoderParam)
    (targetWidth targetHeight : Z) : EyerAVEncoderParam :=
  SetWH targetWidth targetHeight (SetTimebase (mkRational 1 1000) fromStream).


(** A library whose allocator returns the documented defaults (time base
    0/1) and whose [avcodec_open2] succeeds and does no more than mark the
    context open and, for audio, fix the frame size at 1152. *)
Definition default_context : AVCodecContext :=
  mkCtx AVMEDIA_TYPE_UNKNOWN (-1) 0 0 1 (mkRational 0 1) 0 0 0 (-1) 0 0 0 0
    false.

Definition open_ok (c : AVCodecContext) : AVCodecContext :=
  mkCtx (codec_type c) (pix_fmt c) (ctx_width c) (ctx_height c)
    (thread_count c) (time_base c) (global_quality c) (flags c)
    (codec_tag c) (sample_fmt c) (ctx_sample_rate c) (channel_layout c)
    (channels c)
    (match codec_type c with AVMEDIA_TYPE_AUDIO => 1152 | _ => 0 end)
    true.

Definition plain_library : Library :=
  {| avcodec_find_encoder := fun id => Some id;
     avcodec_alloc_context3 := fun _ => default_context;
     avcodec_open2 := fun c _ _ => (0, open_ok c);
     av_get_channel_layout_nb_channels := fun l => if l =? 3 then 2 else 1 |}.


Definition h264_params : EyerAVEncoderParam :=
  {| codecId := CODEC_ID_H264; width := 1280; height := 720;
     pixelFormat := 0; threadnum := 4; timebase := mkRational 1 1000;
     crf := 23; sampleFormat := 0; sample_rate := 0; channelLayout := 0 |}.

(** The fields of the parameters. *)
Inductive ParamField :=
| F_width | F_height | F_pixelFormat | F_threadnum | F_timebase | F_crf
| F_sampleFormat | F_sample_rate | F_channelLayout.

Definition field_equal (f : ParamField) (p q : EyerAVEncoderParam) : Prop :=
  match f with
  | F_width => width p = width q
  | F_height => height p = height q
  | F_pixelFormat => pixelFormat p = pixelFormat q
  | F_threadnum => threadnum p = threadnum q
  | F_timebase => timebase p = timebase q
  | F_crf => crf p = crf q
  | F_sampleFormat => sampleFormat p = sampleFormat q
  | F_sample_rate => sample_rate p = sample_rate q
  | F_channelLayout => channelLayout p = channelLayout q
  end.

(** The fields that the branch of a codec id hands on to the context or
    to the options of [avcodec_open2] (the log lines apart). *)
Definition codec_uses (id : EyerAVCodecID) (f : ParamField) : bool :=
  match id with
  | CODEC_ID_H264 | CODEC_ID_H265 =>
      match f with
      | F_width | F_height | F_pixelFormat | F_threadnum | F_timebase
      | F_crf => true
      | _ => false
      end
  | CODEC_ID_PRORES =>
      match f with
      | F_width | F_height | F_pixelFormat | F_threadnum | F_timebase => true
      | _ => false
      end
  | CODEC_ID_VP8 | CODEC_ID_VP9 | CODEC_ID_PNG =>
      match f with
      | F_width | F_height | F_pixelFormat | F_timebase => true
      | _ => false
      end
  | CODEC_ID_MJPEG =>
      match f with
      | F_width | F_height | F_timebase => true
      | _ => false
      end
  | CODEC_ID_AAC | CODEC_ID_LIB_OPUS | CODEC_ID_MP3 | CODEC_ID_FLAC
  | CODEC_ID_PCM_S16LE | CODEC_ID_PCM_S32LE =>
      match f with
      | F_sampleFormat | F_sample_rate | F_channelLayout => true
      | _ => false
      end
  | CODEC_ID_SRT =>
      match f with
      | F_timebase => true
      | _ => false
      end
  | CODEC_ID_UNKNOWN => false
  end.

(** The parameters with one field changed (by one; the time base in its
    numerator). *)
Definition bump (f : ParamField) (p : EyerAVEncoderParam) : EyerAVEncoderParam :=
  let b (g : bool) := if g then 1 else 0 in
  mkParam (codecId p)
    (width p + b match f with F_width => true | _ => false end)
    (height p + b match f with F_height => true | _ => false end)
    (pixelFormat p + b match f with F_pixelFormat => true | _ => false end)
    (threadnum p + b match f with F_threadnum => true | _ => false end)
    (mkRational
       (num (timebase p) + b match f with F_timebase => true | _ => false end)
       (den (timebase p)))
    (crf p + b match f with F_crf => true | _ => false end)
    (sampleFormat p + b match f with F_sampleFormat => true | _ => false end)
    (sample_rate p + b match f with F_sample_rate => true | _ => false end)
    (channelLayout p + b match f with F_channelLayout => true | _ => false end).

(** A library that shows what it is given: [avcodec_open2] returns the
    [crf] option as its code and marks the context open. *)
Definition probe_library : Library :=
  {| avcodec_find_encoder := fun id => Some id;
     avcodec_alloc_context3 := fun _ => default_context;
     avcodec_open2 := fun c _ dict =>
       (match dict with Some v => v | None => 0 end, open_ok c);
     av_get_channel_layout_nb_channels := fun l => l |}.

(** A library whose [avcodec_open2] fails. *)
Definition failing_library : Library :=
  {| avcodec_find_encoder := fun id => Some id;
     avcodec_alloc_context3 := fun _ => default_context;
     avcodec_open2 := fun c _ _ => (-22, c);
     av_get_channel_layout_nb_channels := fun l => l |}.

End Encoder.

(** ** YouTransMainWindow: starting prepared tasks under a cap *)

Module MainWindow.

(** [Eyer::EyerAVTranscoderStatus]. *)
Inductive EyerAVTranscoderStatus := PREPARE | ING | SUCC | FAIL.

Definition status_eqb (a b : EyerAVTranscoderStatus) : bool :=
  match a, b with
  | PREPARE, PREPARE | ING, ING | SUCC, SUCC | FAIL, FAIL => true
  | _, _ => false
  end.

(** One [TaskItem] of the task list.  [start_checks] holds the outcomes
    of the checks the coming calls of [StartTask] will make (the input
    can be opened, no file exists at the output path), first call first;
    once the list is used up the checks pass. *)
Record TaskItem := mkTask {
  status : EyerAVTranscoderStatus;
  start_checks : list bool
}.

Definition SetStatus (st : EyerAVTranscoderStatus) (t : TaskItem) : TaskItem :=
  {| status := st; start_checks := start_checks t |}.

(** [int TaskItem::StartTask()]: on a failed check the status becomes
    [FAIL] and nothing is started; otherwise the status becomes [ING] and
    the thread is started. *)
Definition StartTask (t : TaskItem) : TaskItem :=
  match start_checks t with
  | false :: rest => {| status := FAIL; start_checks := rest |}
  | true :: rest => {| status := ING; start_checks := rest |}
  | [] => {| status := ING; start_checks := [] |}
  end.

(** The counting loops: the number of tasks whose status is [st]. *)
Fixpoint count_status (st : EyerAVTranscoderStatus) (tasks : list TaskItem)
    : Z :=
  match tasks with
  | [] => 0
  | t :: rest =>
      (if status_eqb (status t) st then 1 else 0) + count_status st rest
  end.

(** The last loop of the body: start the first task found in state
    [PREPARE], then [break]. *)
Fixpoint start_first_prepared (tasks : list TaskItem) : list TaskItem :=
  match tasks with
  | [] => []
  | t :: rest =>
      if status_eqb (status t) PREPARE then StartTask t :: rest
      else t :: start_first_prepared rest
  end.

(** One pass through the body of [while(1)]: [None] when the loop is left
    ([prepareCount <= 0] or [ingCount >= params.GetTransNumSametime()]).  *)
Definition schedule_pass (cap : Z) (tasks : list TaskItem)
    : option (list TaskItem) :=
  let ingCount := count_status ING tasks in
  let prepareCount := count_status PREPARE tasks in
  if prepareCount <=? 0 then None
  else if cap <=? ingCount then None
  else Some (start_first_prepared tasks).

(** The scheduling loop; [fuel] bounds the number of passes. *)
Fixpoint schedule (fuel : nat) (cap : Z) (tasks : list TaskItem)
    : list TaskItem :=
  match fuel with
  | O => tasks
  | S fuel' =>
      match schedule_pass cap tasks with
      | None => tasks
      | Some tasks' => schedule fuel' cap tasks'
      end
  end.

(** The main window as far as scheduling reads it: the task list in
    layout order, [params.GetTransNumSametime()], and whether
    [params.GetOutputDir()] is empty. *)
Record Window := mkWindow {
  tasks : list TaskItem;
  transNumSametime : Z;
  outputDirEmpty : bool
}.

Definition with_tasks (w : Window) (l : list TaskItem) : Window :=
  {| tasks := l; transNumSametime := transNumSametime w;
     outputDirEmpty := outputDirEmpty w |}.

(** [void YouTransMainWindow::StartTranscodeClickListenerInternal()].
    Every pass that does not leave the loop takes one task out of state
    [PREPARE], so [length tasks] passes are enough
    (lemma [schedule_settles]). *)
Definition StartTranscodeClickListenerInternal (w : Window) : Window :=
  if outputDirEmpty w then w
  else if Z.of_nat (length (tasks w)) <=? 0 then w
  else with_tasks w
         (schedule (length (tasks w)) (transNumSametime w) (tasks w)).

(** [void YouTransMainWindow::StartTranscodeClickListener()]: failed
    tasks go back to [PREPARE], then the scheduler runs. *)
Definition reset_failed (t : TaskItem) : TaskItem :=
  if status_eqb (status t) FAIL then SetStatus PREPARE t else t.

Definition StartTranscodeClickListener (w : Window) : Window :=
  StartTranscodeClickListenerInternal (with_tasks w (map reset_failed (tasks w))).

(** The worker of the [i]-th task ends: its status goes from [ING] to
    [final], and the slot [TaskItem_OnTaskSuccess] / [TaskItem_OnTaskFail]
    runs the scheduler. *)
Fixpoint finish_task (i : nat) (final : EyerAVTranscoderStatus)
    (tasks : list TaskItem) : list TaskItem :=
  match tasks, i with
  | [], _ => []
  | t :: rest, O =>
      (if status_eqb (status t) ING then SetStatus final t else t) :: rest
  | t :: rest, S i' => t :: finish_task i' final rest
  end.

Definition TaskItem_OnTaskSuccess (i : nat) (w : Window) : Window :=
  StartTranscodeClickListenerInternal
    (with_tasks w (finish_task i SUCC (tasks w))).

Definition TaskItem_OnTaskFail (i : nat) (w : Window) : Window :=
  StartTranscodeClickListenerInternal
    (with_tasks w (finish_task i FAIL (tasks w))).

(** [SetInputPathClickListener] appends a task in state [PREPARE];
    [TaskItem_OnRemove] takes the [i]-th task out of the layout;
    [SetOutputPathClickListener] sets the output directory. *)
Definition add_task (checks : list bool) (w : Window) : Window :=
  with_tasks w (tasks w ++ [ {| status := PREPARE; start_checks := checks |} ]).

Fixpoint remove_nth (i : nat) (tasks : list TaskItem) : list TaskItem :=
  match tasks, i with
  | [], _ => []
  | _ :: rest, O => rest
  | t :: rest, S i' => t :: remove_nth i' rest
  end.

Definition TaskItem_OnRemove (i : nat) (w : Window) : Window :=
  with_tasks w (remove_nth i (tasks w)).

Definition set_output_dir (w : Window) : Window :=
  {| tasks := tasks w; transNumSametime := transNumSametime w;
     outputDirEmpty := false |}.

(** The steps of the window while the cap stays as configured.  The end
    of a worker changes the status of its task before the slot of the main
    window runs; [step_worker_ends] and [step_schedule] are these two
    halves taken apart, so that other steps may come between them. *)
Inductive step : Window -> Window -> Prop :=
| step_add : forall w checks, step w (add_task checks w)
| step_output_dir : forall w, step w (set_output_dir w)
| step_start : forall w, step w (StartTranscodeClickListener w)
| step_success : forall w i, step w (TaskItem_OnTaskSuccess i w)
| step_fail : forall w i, step w (TaskItem_OnTaskFail i w)
| step_worker_ends : forall w i final,
    final = SUCC \/ final = FAIL ->
    step w (with_tasks w (finish_task i final (tasks w)))
| step_schedule : forall w, step w (StartTranscodeClickListenerInternal w)
| step_remove : forall w i, step w (TaskItem_OnRemove i w).




(** Five tasks, cap two (scenario S6). *)
Definition five_prepared : Window :=
  {| tasks := repeat {| status := PREPARE; start_checks := [] |} 5;
     transNumSametime := 2; outputDirEmpty := false |}.

(** [int YouTransMainWindow::UpdateSystemLabel()]: the three numbers put
    on the status label (tasks, succeeded, failed). *)
Definition UpdateSystemLabel (w : Window) : Z * Z * Z :=
  let taskOunt := Z.of_nat (length (tasks w)) in
  let failCount := count_status FAIL (tasks w) in
  let succCount := count_status SUCC (tasks w) in
  (taskOunt, succCount, failCount).

(** The checks of a waiting task pass at its next [StartTask]. *)
Definition start_will_pass (t : TaskItem) : Prop :=
  status t = PREPARE -> hd true (start_checks t) = true.

(** What a scheduling run may do to a task: nothing, or start it if it is
    waiting. *)
Definition left_or_started (t t' : TaskItem) : Prop :=
  t' = t \/ status t = PREPARE /\ t' = StartTask t.

(** A window without output directory: one task failed, one running, one
    waiting, one done. *)
Definition no_output_dir_window : Window :=
  {| tasks := [ {| status := FAIL; start_checks := [] |};
                {| status := ING; start_checks := [] |};
                {| status := PREPARE; start_checks := [] |};
                {| status := SUCC; start_checks := [] |} ];
     transNumSametime := 2; outputDirEmpty := true |}.

End MainWindow.

(** ** EyerAVTranscode: the transcode run *)

Module Transcode.
Import AV.

Local Open Scope Q_scope.

(** Conversion of a [double] to an integer type: toward zero. *)
Definition Qtruncate (x : Q) : Z := Z.quot (Qnum x) (Zpos (Qden x)).

(** [a > b] on exact values. *)
Definition Qgtb (a b : Q) : bool := negb (Qle_bool a b).

(** *** IEEE 754 binary64 *)

Definition double : Type := spec_float.

Definition prec : Z := 53%Z.
Definition emax : Z := 1024%Z.

(** Conversion of an integer to [double] ([frameOffset * 1.0], the literal
    [1000]): the nearest [double]. *)
Definition double_of_long (z : Z) : double :=
  binary_normalize prec emax z 0%Z false.

Definition double_mul (x y : double) : double := SFmul prec emax x y.

Definition double_div (x y : double) : double := SFdiv prec emax x y.

(** [x <= y]; false when either is not a number. *)
Definition double_leb (x y : double) : bool := SFleb x y.

Definition double_zero : double := S754_zero false.

(** The number a [double] stands for, 0 for infinities and NaN. *)
Definition double_value (x : double) : Q :=
  match x with
  | S754_finite s m e =>
      let v := inject_Z (Zpos m) * Qpower 2 e in
      if s then - v else v
  | _ => 0
  end.

(** [x > limit] for a limit that is a [double] exactly: false for NaN. *)
Definition double_gtb (x : double) (limit : Q) : bool :=
  match x with
  | S754_nan => false
  | S754_infinity s => negb s
  | _ => Qgtb (double_value x) limit
  end.

(** Whether the conversion of [x] to a 64-bit integer is defined. *)
Definition double_fits_long (x : double) : bool :=
  match x with
  | S754_nan | S754_infinity _ => false
  | _ => ((- 2 ^ 63 <=? Qtruncate (double_value x))
          && (Qtruncate (double_value x) <? 2 ^ 63))%Z
  end.

(** Conversion of a [double] to a 64-bit integer: the fraction is cut off.
    For NaN, the infinities and values out of range the conversion is
    undefined; it is given the answer of the x86-64 conversion instruction,
    [INT64_MIN]. *)
Definition double_to_long (x : double) : Z :=
  if double_fits_long x then Qtruncate (double_value x) else (- 2 ^ 63)%Z.

Local Open Scope Z_scope.

(** [EyerAVTranscodeParams]. *)
Record EyerAVTranscodeParams := mkParams {
  targetWidth : Z;
  targetHeight : Z;
  fps : double;
  careVideo : bool;
  careAudio : bool
}.

Inductive Pipeline := Video | Audio.

(** What the run does to its collaborators, in order.  [Mux who received
    written] is one pass of a packet loop: [RecvPacket] of encoder [who]
    returned [received]; after [SetStreamIndex] and [RescaleTs] it went to
    [writer.WritePacket] as [written]. *)
Inductive Event :=
| WriterOpen (ret : Z)
| EncoderInit (who : Pipeline) (ret : Z)
| WriterAddStream (who : Pipeline) (index : Z)
| WriterWriteHand (ret : Z)
| Mux (who : Pipeline) (received written : AVPacket)
| WriterWriteTrailer
| WriterClose
| ReadersOpen
| ReadersClose
| ResampleInit
| Sleep
| DecoderBoxGetFrame (pts : double) (ret : Z)
| EncoderSendFrame (who : Pipeline) (pts : Z)
| EncoderSendFrameNull (who : Pipeline)
| DecoderSendPacketNull
| ResamplePutAVFrame (samples : Z)
| ResamplePutAVFrameNULL
| ResampleGetFrame (ret : Z)
| ResampleGetLastFrame (ret : Z)
| FrameSetPTS (pts : Z).

(** A packet of the source file as the audio reader returns it: its
    stream, and for every frame the audio decoder returns once the packet
    is sent, the number of samples the resampler gains from the frame. *)
Record SourcePacket := mkSourcePacket {
  source_stream : Z;
  decoded : list Z
}.

(** The collaborators of one run: parameters, the members as the
    constructor leaves them (the class declaration is not part of the
    sources), the source file, and the answers of decoder box, decoders,
    resampler, encoders and writer.  An encoder answers a [SendFrame] with
    the packets the following [RecvPacket] calls return; it is given the
    time stamps of all frames sent so far. *)
Record World := mkWorld {
  params : EyerAVTranscodeParams;
  frameCount0 : Z;
  audioOffset0 : Z;
  encoderVideoStreamIndex0 : Z;
  encoderAudioStreamIndex0 : Z;
  videoStreamIndex : Z;
  audioStreamIndex : Z;
  videoStreamDuration : double;
  audioFile : list SourcePacket;
  decoderBox_GetFrame : nat -> double -> Z;
  audioDecoder_tail : list Z;
  resample_tail : Z;
  encoder_packets : Pipeline -> list Z -> list AVPacket;
  encoder_tail : Pipeline -> list Z -> list AVPacket;
  encoder_Init : Pipeline -> Z;
  encoder_timebase : Pipeline -> AVRational;
  audioEncoder_frameSize : Z;
  writer_Open : Z;
  writer_WriteHand : Z;
  writer_AddStream : Pipeline -> Z;
  writer_timebase : Z -> AVRational;
  rescale : Z -> AVRational -> AVRational -> Z
}.

(** The members that are fixed once the main loop starts. *)
Record Setup := mkSetup {
  frameCount : Z;
  videoDuration : double;
  decoderVideoStreamIndex : Z;
  decoderAudioStreamIndex : Z;
  encoderVideoStreamIndex : Z;
  encoderAudioStreamIndex : Z
}.

Definition encoderStreamIndex (su : Setup) (who : Pipeline) : Z :=
  match who with
  | Video => encoderVideoStreamIndex su
  | Audio => encoderAudioStreamIndex su
  end.

(** Video side: [frameOffset], the frames sent to [videoEncoder], and the
    number of calls made to [decoderBox.GetFrame]. *)
Record VideoState := mkVideo {
  frameOffset : Z;
  videoSent : list Z;
  boxCalls : nat
}.

(** Audio side: [audioOffset], the samples held by [resample], the frames
    sent to [audioEncoder], and whether [audioDecoder] has been drained. *)
Record AudioState := mkAudio {
  audioOffset : Z;
  resampleBuffered : Z;
  audioSent : list Z;
  audioDecoderDrained : bool
}.

(** [packet.SetStreamIndex(index); packet.RescaleTs(encoder.GetTimebase(),
    writer.GetTimebase(index))]. *)
Definition finalise (w : World) (su : Setup) (who : Pipeline) (p : AVPacket)
    : AVPacket :=
  let index := encoderStreamIndex su who in
  RescaleTs (rescale w) (encoder_timebase w who) (writer_timebase w index)
    (SetStreamIndex index p).

(** The packet loop [while(1){ RecvPacket; if(ret) break; SetStreamIndex;
    RescaleTs; WritePacket }] over the packets the encoder holds ready. *)
Fixpoint DrainEncoder (w : World) (su : Setup) (who : Pipeline)
    (ready : list AVPacket) : list Event :=
  match ready with
  | [] => []
  | p :: rest => Mux who p (finalise w su who p) :: DrainEncoder w su who rest
  end.

(** Modelled from the spec: the resampler class ([resample.GetFrame]) is
    not part of the sources.  It is [Resampler.pull_exact(nb_samples) ->
    Frame | NeedsMore | EndOfStream]: it succeeds when [nb_samples] samples
    are buffered and takes them.  The result is the number of samples that
    stay buffered. *)
Definition resample_GetFrame (buffered nb_samples : Z) : option Z :=
  if nb_samples <=? buffered then Some (buffered - nb_samples) else None.

(** Modelled from the spec: the resampler class ([resample.GetLastFrame])
    is not part of the sources.  It is [Resampler.pull_remainder() -> Frame
    | Empty]: it returns what is left, if anything is. *)
Definition resample_GetLastFrame (buffered : Z) : option Z :=
  if 0 <? buffered then Some 0 else None.

(** [int EyerAVTranscode::EncodeAudio(EyerAVFrame & frame)]. *)
Definition EncodeAudio (w : World) (su : Setup) (a : AudioState) (pts : Z)
    : AudioState * list Event :=
  let sent := audioSent a ++ [pts] in
  ({| audioOffset := audioOffset a; resampleBuffered := resampleBuffered a;
      audioSent := sent; audioDecoderDrained := audioDecoderDrained a |},
   EncoderSendFrame Audio pts
     :: DrainEncoder w su Audio (encoder_packets w Audio sent)).

(** The innermost loop of [TranscodeAudio]: [while(1){ GetFrame; if(ret)
    break; SetPTS(audioOffset); audioOffset += GetFrameSize();
    EncodeAudio }].  [None]: out of fuel. *)
Fixpoint EncodeResampled (fuel : nat) (w : World) (su : Setup)
    (a : AudioState) : option (AudioState * list Event) :=
  match fuel with
  | O => None
  | S fuel' =>
      match resample_GetFrame (resampleBuffered a) (audioEncoder_frameSize w) with
      | None => Some (a, [ResampleGetFrame (-1)])
      | Some remaining =>
          let pts := audioOffset a in
          let a1 := {| audioOffset := audioOffset a + audioEncoder_frameSize w;
                       resampleBuffered := remaining;
                       audioSent := audioSent a;
                       audioDecoderDrained := audioDecoderDrained a |} in
          let '(a2, ev) := EncodeAudio w su a1 pts in
          match EncodeResampled fuel' w su a2 with
          | None => None
          | Some (a3, ev') => Some (a3, ResampleGetFrame 0 :: ev ++ ev')
          end
      end
  end.

(** The loop over the frames [audioDecoder.RecvFrame] returns:
    [resample.PutAVFrame(frame)], then the loop above. *)
Fixpoint ResampleFrames (fuel : nat) (w : World) (su : Setup)
    (frames : list Z) (a : AudioState) : option (AudioState * list Event) :=
  match frames with
  | [] => Some (a, [])
  | samples :: rest =>
      let a1 := {| audioOffset := audioOffset a;
                   resampleBuffered := resampleBuffered a + samples;
                   audioSent := audioSent a;
                   audioDecoderDrained := audioDecoderDrained a |} in
      match EncodeResampled fuel w su a1 with
      | None => None
      | Some (a2, ev) =>
          match ResampleFrames fuel w su rest a2 with
          | None => None
          | Some (a3, ev') => Some (a3, ResamplePutAVFrame samples :: ev ++ ev')
          end
      end
  end.

(** [lastFrameTime]: 0.0 unless a frame was received, else
    [audioOffset * 1.0 / 44100] after the last one. *)
Definition lastFrameTime (frames : list Z) (a : AudioState) : Q :=
  match frames with
  | [] => 0%Q
  | _ => (inject_Z (audioOffset a) / inject_Z 44100)%Q
  end.

Definition drained (a : AudioState) : AudioState :=
  {| audioOffset := audioOffset a; resampleBuffered := resampleBuffered a;
     audioSent := audioSent a; audioDecoderDrained := true |}.

(** [int EyerAVTranscode::TranscodeAudio(double limitTime)], as a
    recursion on the packets [audioReader] has left.  The result is the
    return value, what is left of the file, the audio side and the
    events. *)
Fixpoint TranscodeAudio (fuel : nat) (w : World) (su : Setup) (limitTime : Q)
    (file : list SourcePacket) (a : AudioState)
    : option (Z * list SourcePacket * AudioState * list Event) :=
  match file with
  | [] =>
      let frames := if audioDecoderDrained a then []
                    else audioDecoder_tail w in
      match ResampleFrames fuel w su frames (drained a) with
      | None => None
      | Some (a', ev) => Some (-1, [], a', DecoderSendPacketNull :: ev)
      end
  | packet :: rest =>
      if negb (source_stream packet =? decoderAudioStreamIndex su) then
        TranscodeAudio fuel w su limitTime rest a
      else
        match ResampleFrames fuel w su (decoded packet) a with
        | None => None
        | Some (a', ev) =>
            if Qgtb (lastFrameTime (decoded packet) a') limitTime then
              Some (0, rest, a', ev)
            else
              match TranscodeAudio fuel w su limitTime rest a' with
              | None => None
              | Some (ret, file', a'', ev') => Some (ret, file', a'', ev ++ ev')
              end
        end
  end.

(** The logical time stamp of frame index [i],
    [double pts = frameOffset * 1.0 / params.fps]; [params.fps] is a
    [float], converted to [double] as it is. *)
Definition frameTime (w : World) (i : Z) : double :=
  double_div (double_of_long i) (fps (params w)).

(** The time stamp [SetPTS(pts * 1000)] puts on the frame of index [i]:
    the product in [double], converted to [int64_t]. *)
Definition framePts (w : World) (i : Z) : Z :=
  double_to_long (double_mul (frameTime w i) (double_of_long 1000)).

(** The [while(1)] of [TranscodeVideo]. *)
Fixpoint TranscodeVideo_loop (fuel : nat) (w : World) (su : Setup)
    (limitTime : Q) (v : VideoState) : option (Z * VideoState * list Event) :=
  match fuel with
  | O => None
  | S fuel' =>
      let pts := frameTime w (frameOffset v) in
      let ret := decoderBox_GetFrame w (boxCalls v) pts in
      if negb (ret =? 0) then
        Some (-1,
              {| frameOffset := frameOffset v; videoSent := videoSent v;
                 boxCalls := S (boxCalls v) |},
              [DecoderBoxGetFrame pts ret])
      else
        let framePts := double_to_long (double_mul pts (double_of_long 1000)) in
        let sent := videoSent v ++ [framePts] in
        let ev := DecoderBoxGetFrame pts ret
                  :: EncoderSendFrame Video framePts
                  :: DrainEncoder w su Video (encoder_packets w Video sent) in
        let v1 := {| frameOffset := frameOffset v + 1; videoSent := sent;
                     boxCalls := S (boxCalls v) |} in
        if double_gtb pts limitTime then Some (0, v1, ev)
        else
          match TranscodeVideo_loop fuel' w su limitTime v1 with
          | None => None
          | Some (r, v', ev') => Some (r, v', ev ++ ev')
          end
  end.

(** [int EyerAVTranscode::TranscodeVideo(double limitTime, long &
    frameOffset)]. *)
Definition TranscodeVideo (fuel : nat) (w : World) (su : Setup)
    (limitTime : Q) (v : VideoState) : option (Z * VideoState * list Event) :=
  if frameCount su <=? frameOffset v then Some (-1, v, [])
  else TranscodeVideo_loop fuel w su limitTime v.

(** The interleaving loop of [Transcode]. *)
Fixpoint MainLoop (fuel : nat) (w : World) (su : Setup) (limitTime : Q)
    (v : VideoState) (file : list SourcePacket) (a : AudioState)
    : option (VideoState * list SourcePacket * AudioState * list Event) :=
  match fuel with
  | O => None
  | S fuel' =>
      let limitTime := (limitTime + (1 # 2))%Q in
      match (if careVideo (params w) then TranscodeVideo fuel w su limitTime v
             else Some (-1, v, [])) with
      | None => None
      | Some (retVideo, v', evVideo) =>
          match (if careAudio (params w)
                 then TranscodeAudio fuel w su limitTime file a
                 else Some (-1, file, a, [])) with
          | None => None
          | Some (retAudio, file', a', evAudio) =>
              let ev := evVideo ++ Sleep :: evAudio in
              if negb (retAudio =? 0) && negb (retVideo =? 0) then
                Some (v', file', a', ev)
              else
                match MainLoop fuel' w su limitTime v' file' a' with
                | None => None
                | Some (v'', file'', a'', ev') => Some (v'', file'', a'', ev ++ ev')
                end
          end
      end
  end.

(** The video encoder is flushed: [SendFrameNull], then the packet loop. *)
Definition FlushVideo (w : World) (su : Setup) (v : VideoState) : list Event :=
  if careVideo (params w) then
    if 0 <=? encoderVideoStreamIndex su then
      EncoderSendFrameNull Video
        :: DrainEncoder w su Video (encoder_tail w Video (videoSent v))
    else []
  else [].

(** The loop after [resample.PutAVFrameNULL()]: frames are taken from the
    resampler and dropped ([audioEncoder.SendFrame] is commented out). *)
Fixpoint DropResampled (fuel : nat) (w : World) (buffered : Z)
    : option (Z * list Event) :=
  match fuel with
  | O => None
  | S fuel' =>
      match resample_GetFrame buffered (audioEncoder_frameSize w) with
      | None => Some (buffered, [ResampleGetFrame (-1)])
      | Some remaining =>
          match DropResampled fuel' w remaining with
          | None => None
          | Some (b, ev) => Some (b, ResampleGetFrame 0 :: ev)
          end
      end
  end.

(** The resampler and the audio encoder are flushed. *)
Definition FlushAudio (fuel : nat) (w : World) (su : Setup) (a : AudioState)
    : option (AudioState * list Event) :=
  if careAudio (params w) then
    if 0 <=? encoderAudioStreamIndex su then
      match DropResampled fuel w (resampleBuffered a + resample_tail w) with
      | None => None
      | Some (buffered, evDrop) =>
          let '(buffered', offset', evLast) :=
            match resample_GetLastFrame buffered with
            | Some remaining =>
                (remaining, audioOffset a + audioEncoder_frameSize w,
                 [ResampleGetLastFrame 0; FrameSetPTS (audioOffset a)])
            | None => (buffered, audioOffset a, [ResampleGetLastFrame (-1)])
            end in
          Some ({| audioOffset := offset'; resampleBuffered := buffered';
                   audioSent := audioSent a;
                   audioDecoderDrained := audioDecoderDrained a |},
                ResamplePutAVFrameNULL :: evDrop ++ evLast
                  ++ EncoderSendFrameNull Audio
                  :: DrainEncoder w su Audio (encoder_tail w Audio (audioSent a)))
      end
    else Some (a, [])
  else Some (a, []).

(** [int EyerAVTranscode::InitEncoder(EyerAVWriter & writer)]: the two
    output stream indices and the events. *)
Definition InitEncoder (w : World) : Z * Z * list Event :=
  let '(vIndex, evV) :=
    if (0 <=? videoStreamIndex w) && careVideo (params w)
    then (writer_AddStream w Video,
          [EncoderInit Video (encoder_Init w Video);
           WriterAddStream Video (writer_AddStream w Video)])
    else (encoderVideoStreamIndex0 w, []) in
  let '(aIndex, evA) :=
    if (0 <=? audioStreamIndex w) && careAudio (params w)
    then (writer_AddStream w Audio,
          [EncoderInit Audio (encoder_Init w Audio);
           WriterAddStream Audio (writer_AddStream w Audio)])
    else (encoderAudioStreamIndex0 w, []) in
  (vIndex, aIndex, evV ++ evA).

(** [videoDuration] as [InitDeocder] leaves it: the stream's duration in
    seconds, 0 when that is not positive ([if(videoDuration <= 0)
    videoDuration = 0;], which leaves a NaN as it is). *)
Definition InitDeocder_videoDuration (w : World) : double :=
  if double_leb (videoStreamDuration w) double_zero then double_zero
  else videoStreamDuration w.

(** [frameCount = videoDuration * params.fps; if(frameCount <= 0)
    frameCount = 1;]: the product of the two [double]s, converted to the
    integer member (its declaration is not part of the sources; it is taken
    to be a [long], as the [frameOffset] it is compared with). *)
Definition totalFrames (videoDuration fps : double) : Z :=
  let frameCount := double_to_long (double_mul videoDuration fps) in
  if frameCount <=? 0 then 1 else frameCount.

(** The members when the main loop is entered. *)
Definition prepare (w : World) : Setup * list Event :=
  let '(vIndex, aIndex, evInit) := InitEncoder w in
  let videoDuration := InitDeocder_videoDuration w in
  let decoderVideoStreamIndex := videoStreamIndex w in
  let decoderAudioStreamIndex := audioStreamIndex w in
  ({| frameCount := if 0 <=? decoderVideoStreamIndex
                    then totalFrames videoDuration (fps (params w))
                    else frameCount0 w;
      videoDuration := videoDuration;
      decoderVideoStreamIndex := decoderVideoStreamIndex;
      decoderAudioStreamIndex := decoderAudioStreamIndex;
      encoderVideoStreamIndex := vIndex;
      encoderAudioStreamIndex := aIndex |},
   WriterOpen (writer_Open w) :: evInit
     ++ WriterWriteHand (writer_WriteHand w) :: ReadersOpen
     :: (if 0 <=? decoderAudioStreamIndex then [ResampleInit] else [])).

(** What a completed run leaves. *)
Record Outcome := mkOutcome {
  ret : Z;
  setup : Setup;
  video : VideoState;
  audio : AudioState;
  trace : list Event
}.

(** [int EyerAVTranscode::Transcode()]. *)
Definition Transcode (fuel : nat) (w : World) : option Outcome :=
  let '(su, evPrepare) := prepare w in
  let v0 := {| frameOffset := 0; videoSent := []; boxCalls := O |} in
  let a0 := {| audioOffset := audioOffset0 w; resampleBuffered := 0;
               audioSent := []; audioDecoderDrained := false |} in
  match MainLoop fuel w su 0%Q v0 (audioFile w) a0 with
  | None => None
  | Some (v, file, a, evLoop) =>
      match FlushAudio fuel w su a with
      | None => None
      | Some (a', evAudio) =>
          Some {| ret := 0; setup := su; video := v; audio := a';
                  trace := evPrepare ++ evLoop ++ FlushVideo w su v ++ evAudio
                           ++ [ReadersClose; WriterWriteTrailer; WriterClose] |}
      end
  end.

(** *** Reading a trace *)

(** The calls the writer receives. *)
Inductive WriterCall :=
| CallOpen | CallAddStream | CallWriteHand | CallWritePacket
| CallWriteTrailer | CallClose.

Definition writer_call (e : Event) : list WriterCall :=
  match e with
  | WriterOpen _ => [CallOpen]
  | WriterAddStream _ _ => [CallAddStream]
  | WriterWriteHand _ => [CallWriteHand]
  | Mux _ _ _ => [CallWritePacket]
  | WriterWriteTrailer => [CallWriteTrailer]
  | WriterClose => [CallClose]
  | _ => []
  end.

Definition writer_calls (tr : list Event) : list WriterCall :=
  flat_map writer_call tr.

Definition pipeline_eqb (a b : Pipeline) : bool :=
  match a, b with
  | Video, Video | Audio, Audio => true
  | _, _ => false
  end.

(** The packets encoder [who] returned, and the packets written for it. *)
Definition received (who : Pipeline) (tr : list Event) : list AVPacket :=
  flat_map (fun e => match e with
                     | Mux who' p _ => if pipeline_eqb who who' then [p] else []
                     | _ => []
                     end) tr.

Definition written (who : Pipeline) (tr : list Event) : list AVPacket :=
  flat_map (fun e => match e with
                     | Mux who' _ p => if pipeline_eqb who who' then [p] else []
                     | _ => []
                     end) tr.

(** The time stamps of the frames sent to encoder [who]. *)
Definition sent (who : Pipeline) (tr : list Event) : list Z :=
  flat_map (fun e => match e with
                     | EncoderSendFrame who' pts =>
                         if pipeline_eqb who who' then [pts] else []
                     | _ => []
                     end) tr.

(** The events of the loops and of the flush: no writer call other than
    a packet write, and every packet written is the finalised packet of
    the encoder. *)
Definition body_event (w : World) (su : Setup) (e : Event) : Prop :=
  match e with
  | WriterOpen _ | EncoderInit _ _ | WriterAddStream _ _ | WriterWriteHand _
  | WriterWriteTrailer | WriterClose | ReadersOpen | ReadersClose
  | ResampleInit => False
  | Mux who p p' => p' = finalise w su who p
  | _ => True
  end.

Fixpoint nondecreasing (l : list Z) : Prop :=
  match l with
  | [] => True
  | x :: rest =>
      match rest with
      | [] => True
      | y :: _ => x <= y /\ nondecreasing rest
      end
  end.

(** [lo; lo+1; ...; lo+n-1]. *)
Fixpoint indices (lo : Z) (n : nat) : list Z :=
  match n with
  | O => []
  | S n' => lo :: indices (lo + 1) n'
  end.

(** A computation with fuel that, from some amount of fuel on, returns one
    and the same result. *)
Definition converges {A : Type} (f : nat -> option A) : Prop :=
  exists N r, forall fuel, (N <= fuel)%nat -> f fuel = Some r.

(** Some frame index from [from] on, within the range of [long], has a
    time above [limit]. *)
Definition passes_limit (w : World) (from : Z) (limit : Q) : Prop :=
  exists j, from <= j < 2 ^ 63 /\ double_gtb (frameTime w j) limit = true.

(** A limit the main loop does not pass: every round but the last takes
    the video side a frame further or the audio side a packet further, and
    each round adds 0.5. *)
Definition last_limit (w : World) (su : Setup) : Q :=
  inject_Z (Z.of_nat (S (Z.to_nat (frameCount su) + length (audioFile w))))
  * (1 # 2).

(** The sign of a [double] is [s], unless it is a NaN. *)
Definition sign_or_nan (s : bool) (x : double) : Prop :=
  match x with
  | S754_nan => True
  | S754_zero s' | S754_infinity s' | S754_finite s' _ _ => s' = s
  end.

(** *** The words of the specification, for comparison *)

(** Section 4.3, step 3: a rescaled [dts] that is not above the last muxed
    [dts] of the pipeline is incremented by one time-base unit. *)
Fixpoint spec_enforce_dts (last : option Z) (rescaled : list Z) : list Z :=
  match rescaled with
  | [] => []
  | d :: rest =>
      let d' := match last with
                | Some l => if d <=? l then d + 1 else d
                | None => d
                end in
      d' :: spec_enforce_dts (Some d') rest
  end.

(** Section 4.4: the total is [round(duration * fps)], minimum 1. *)
Definition spec_round (x : Q) : Z := Qfloor (x + (1 # 2))%Q.

Definition spec_totalFrames (duration fps : Q) : Z :=
  Z.max 1 (spec_round (duration * fps)%Q).

(** *** Sample runs *)

Definition no_packets (who : Pipeline) (sent : list Z) : list AVPacket := [].

(** An encoder without delay: one packet per frame, stamped as the frame. *)
Definition packet_per_frame (who : Pipeline) (sent : list Z) : list AVPacket :=
  match rev sent with
  | [] => []
  | pts :: _ => [mkPacket pts pts 0 0]
  end.

(** A short source, video at index 0 (1/8 second long) and audio at index
    1, transcoded at 30 frames per second; the decoder box hands out a frame
    for each of its first 20 calls; the MP3 encoder takes frames of 1152
    samples; the writer keeps 1/1000 for video and 1/44100 for audio. *)
Definition sample_world : World :=
  {| params := mkParams 1280 720 (double_of_long 30) true true;
     frameCount0 := 0; audioOffset0 := 0;
     encoderVideoStreamIndex0 := -1; encoderAudioStreamIndex0 := -1;
     videoStreamIndex := 0; audioStreamIndex := 1;
     videoStreamDuration := double_div (double_of_long 1) (double_of_long 8);
     audioFile := [mkSourcePacket 1 [1024; 1024]; mkSourcePacket 0 [];
                   mkSourcePacket 1 [1024]];
     decoderBox_GetFrame := fun calls _ => if (calls <? 20)%nat then 0 else -1;
     audioDecoder_tail := [];
     resample_tail := 100;
     encoder_packets := packet_per_frame;
     encoder_tail := no_packets;
     encoder_Init := fun _ => 0;
     encoder_timebase := fun who => match who with
                                    | Video => mkRational 1 1000
                                    | Audio => mkRational 1 44100
                                    end;
     audioEncoder_frameSize := 1152;
     writer_Open := 0; writer_WriteHand := 0;
     writer_AddStream := fun who => match who with Video => 0 | Audio => 1 end;
     writer_timebase := fun i => if i =? 0 then mkRational 1 1000
                                 else mkRational 1 44100;
     rescale := av_rescale_q |}.

Definition with_params (p : EyerAVTranscodeParams) (w : World) : World :=
  mkWorld p (frameCount0 w) (audioOffset0 w) (encoderVideoStreamIndex0 w)
    (encoderAudioStreamIndex0 w) (videoStreamIndex w) (audioStreamIndex w)
    (videoStreamDuration w) (audioFile w) (decoderBox_GetFrame w)
    (audioDecoder_tail w) (resample_tail w) (encoder_packets w)
    (encoder_tail w) (encoder_Init w) (encoder_timebase w)
    (audioEncoder_frameSize w) (writer_Open w) (writer_WriteHand w)
    (writer_AddStream w) (writer_timebase w) (rescale w).

Definition with_decoderBox (box : nat -> double -> Z) (w : World) : World :=
  mkWorld (params w) (frameCount0 w) (audioOffset0 w)
    (encoderVideoStreamIndex0 w) (encoderAudioStreamIndex0 w)
    (videoStreamIndex w) (audioStreamIndex w) (videoStreamDuration w)
    (audioFile w) box (audioDecoder_tail w) (resample_tail w)
    (encoder_packets w) (encoder_tail w) (encoder_Init w) (encoder_timebase w)
    (audioEncoder_frameSize w) (writer_Open w) (writer_WriteHand w)
    (writer_AddStream w) (writer_timebase w) (rescale w).

Definition with_writer_timebase (tb : Z -> AVRational) (w : World) : World :=
  mkWorld (params w) (frameCount0 w) (audioOffset0 w)
    (encoderVideoStreamIndex0 w) (encoderAudioStreamIndex0 w)
    (videoStreamIndex w) (audioStreamIndex w) (videoStreamDuration w)
    (audioFile w) (decoderBox_GetFrame w) (audioDecoder_tail w)
    (resample_tail w) (encoder_packets w) (encoder_tail w) (encoder_Init w)
    (encoder_timebase w) (audioEncoder_frameSize w) (writer_Open w)
    (writer_WriteHand w) (writer_AddStream w) tb (rescale w).

(** Video only at 50 frames per second, three frames available, into a
    stream whose time base the writer has set to 1/25. *)
Definition coarse_writer_world : World :=
  with_writer_timebase (fun _ => mkRational 1 25)
    (with_decoderBox (fun calls _ => if (calls <? 3)%nat then 0 else -1)
       (with_params (mkParams 1280 720 (double_of_long 50) true false)
          sample_world)).

(** The sample source asked for -30 frames per second, with a decoder box
    that hands out a frame at every call. *)
Definition backwards_world : World :=
  with_decoderBox (fun _ _ => 0)
    (with_params (mkParams 1280 720 (double_of_long (-30)) true true)
       sample_world).

(** The sample source with an audio encoder that could not be opened:
    [Init] answers -1 and the frame size stays 0. *)
Definition unopened_audio_world : World :=
  mkWorld (params sample_world) (frameCount0 sample_world)
    (audioOffset0 sample_world) (encoderVideoStreamIndex0 sample_world)
    (encoderAudioStreamIndex0 sample_world) (videoStreamIndex sample_world)
    (audioStreamIndex sample_world) (videoStreamDuration sample_world)
    (audioFile sample_world) (decoderBox_GetFrame sample_world)
    (audioDecoder_tail sample_world) (resample_tail sample_world)
    (encoder_packets sample_world) (encoder_tail sample_world)
    (fun who => match who with Video => 0 | Audio => -1 end)
    (encoder_timebase sample_world) 0 (writer_Open sample_world)
    (writer_WriteHand sample_world) (writer_AddStream sample_world)
    (writer_timebase sample_world) (rescale sample_world).

(** The sample source at 0 frames per second. *)
Definition still_world : World :=
  with_params (mkParams 1280 720 double_zero true true) sample_world.

(** The sample source at 25 frames per second. *)
Definition pal_world : World :=
  with_params (mkParams 1280 720 (double_of_long 25) true true) sample_world.

(** *** More readings of a trace *)

(** [start; start+step; ...], [n] terms. *)
Fixpoint progression (start step : Z) (n : nat) : list Z :=
  match n with
  | O => []
  | S n' => start :: progression (start + step) step n'
  end.

(** The samples handed to [resample.PutAVFrame], summed up. *)
Fixpoint samples_put (tr : list Event) : Z :=
  match tr with
  | [] => 0
  | ResamplePutAVFrame samples :: rest => samples + samples_put rest
  | _ :: rest => samples_put rest
  end.

(** The number of [SendFrameNull] calls encoder [who] receives. *)
Fixpoint nulls (who : Pipeline) (tr : list Event) : nat :=
  match tr with
  | [] => O
  | EncoderSendFrameNull who' :: rest =>
      if pipeline_eqb who who' then S (nulls who rest) else nulls who rest
  | _ :: rest => nulls who rest
  end.

(** The events [TranscodeVideo] can emit. *)
Definition video_event (w : World) (su : Setup) (e : Event) : Prop :=
  match e with
  | DecoderBoxGetFrame _ _ | EncoderSendFrame Video _ => True
  | Mux Video p p' => p' = finalise w su Video p
  | _ => False
  end.

(** The events [TranscodeAudio] can emit. *)
Definition audio_event (w : World) (su : Setup) (e : Event) : Prop :=
  match e with
  | EncoderSendFrame Audio _ | DecoderSendPacketNull | ResamplePutAVFrame _
  | ResampleGetFrame _ => True
  | Mux Audio p p' => p' = finalise w su Audio p
  | _ => False
  end.

(** The events of the main loop: the sleep, video events when video is
    transcoded, audio events when audio is. *)
Definition loop_event (w : World) (su : Setup) (e : Event) : Prop :=
  e = Sleep \/
  (careVideo (params w) = true /\ video_event w su e) \/
  (careAudio (params w) = true /\ audio_event w su e).

(** Whether an event is a call on the decoder box, decoder, resampler or
    encoder of pipeline [who], or a packet written for it.  The calls of the
    preparation that do not depend on the [care] flags ([Open] of the
    readers, [resample.Init]) and the writer's own calls are left out. *)
Definition touches (who : Pipeline) (e : Event) : bool :=
  match e with
  | EncoderInit who' _ | WriterAddStream who' _ | Mux who' _ _
  | EncoderSendFrame who' _ | EncoderSendFrameNull who' => pipeline_eqb who who'
  | DecoderBoxGetFrame _ _ => pipeline_eqb who Video
  | DecoderSendPacketNull | ResamplePutAVFrame _ | ResamplePutAVFrameNULL
  | ResampleGetFrame _ | ResampleGetLastFrame _ | FrameSetPTS _ =>
      pipeline_eqb who Audio
  | _ => false
  end.

(** The state of the two sides when [Transcode] enters its main loop. *)
Definition video_start : VideoState :=
  {| frameOffset := 0; videoSent := []; boxCalls := O |}.

Definition audio_start (w : World) : AudioState :=
  {| audioOffset := audioOffset0 w; resampleBuffered := 0;
     audioSent := []; audioDecoderDrained := false |}.

(** The sample source with the video side switched off. *)
Definition audio_only_world : World :=
  with_params (mkParams 1280 720 (double_of_long 30) false true) sample_world.

(** A trace cut at the first [SendFrameNull] of encoder [who]. *)
Definition is_null (who : Pipeline) (e : Event) : bool :=
  match e with
  | EncoderSendFrameNull who' => pipeline_eqb who who'
  | _ => false
  end.

Fixpoint cut_at_null (who : Pipeline) (tr : list Event)
    : option (list Event * list Event) :=
  match tr with
  | [] => None
  | e :: rest =>
      if is_null who e then Some ([], rest)
      else match cut_at_null who rest with
           | Some (l1, l2) => Some (e :: l1, l2)
           | None => None
           end
  end.

(** The packets encoder [who] hands out while the frames [l] are sent to
    it one by one, the frames [base] having been sent before. *)
Fixpoint packets_while_sending (w : World) (who : Pipeline)
    (base l : list Z) : list AVPacket :=
  match l with
  | [] => []
  | pts :: rest =>
      encoder_packets w who (base ++ [pts])
        ++ packets_while_sending w who (base ++ [pts]) rest
  end.

(** Whether the run flushes encoder [who]. *)
Definition flushed (w : World) (su : Setup) (who : Pipeline) : bool :=
  match who with
  | Video => careVideo (params w) && (0 <=? encoderVideoStreamIndex su)
  | Audio => careAudio (params w) && (0 <=? encoderAudioStreamIndex su)
  end.

End Transcode.

(** ** YouTranscoderParams: the configuration as JSON *)

Module Params.

Local Open Scope string_scope.
Local Open Scope Z_scope.

(** [QJsonValue], as far as the conversions below look at it.  A number
    is a [double]. *)
Inductive QJsonValue :=
| JNull
| JBool (b : bool)
| JDouble (d : Q)
| JString (s : string)
| JArray
| JObject.

(** [QJsonValue(int)]. *)
Definition of_int (n : Z) : QJsonValue := JDouble (inject_Z n).

(** [int QJsonValue::toInt(int defaultValue)], as the class documents it:
    the value when it is a number, whole and within [int]; the default
    otherwise. *)
Definition toInt (v : QJsonValue) (defaultValue : Z) : Z :=
  match v with
  | JDouble d =>
      if Qeq_bool d (inject_Z (Qfloor d))
         && (- 2 ^ 31 <=? Qfloor d) && (Qfloor d <? 2 ^ 31)
      then Qfloor d
      else defaultValue
  | _ => defaultValue
  end.

(** [QString QJsonValue::toString()]: the string, or a null string. *)
Definition toString (v : QJsonValue) : string :=
  match v with
  | JString s => s
  | _ => ""
  end.

Definition isString (v : QJsonValue) : bool :=
  match v with
  | JString _ => true
  | _ => false
  end.

(** [QJsonObject]: keys with their values; [insert] replaces the value of
    a key that is present. *)
Definition QJsonObject := list (string * QJsonValue).

Definition insert (key : string) (v : QJsonValue) (o : QJsonObject)
    : QJsonObject :=
  (key, v) :: filter (fun kv => negb (String.eqb key (fst kv))) o.

Definition contains (o : QJsonObject) (key : string) : bool :=
  existsb (fun kv => String.eqb key (fst kv)) o.

(** [QJsonObject::value]: the value of the key, [Null] (here for
    [Undefined]) when the key is not there. *)
Definition value (o : QJsonObject) (key : string) : QJsonValue :=
  match find (fun kv => String.eqb key (fst kv)) o with
  | Some kv => snd kv
  | None => JNull
  end.

(** What [QJsonDocument::fromJson] made of the text: nothing (a parse
    error), an array, or an object. *)
Inductive QJsonDocument :=
| DocNull
| DocArray
| DocObject (o : QJsonObject).

(** The members [YouTranscoderParams] adds to its base class, with the
    initial values of the class declaration. *)
Record YouTranscoderParams := mkYouParams {
  filenamePrefix : string;
  outputDir : string;
  transNumSametime : Z
}.

Definition default_params : YouTranscoderParams :=
  {| filenamePrefix :=
       "${origin_file_name}_${output_video_codec}_${video_pixelfmt}_${output_audio_codec}";
     outputDir := "";
     transNumSametime := 2 |}.

Definition SetFilenamePrefix (s : string) (p : YouTranscoderParams) :=
  {| filenamePrefix := s; outputDir := outputDir p;
     transNumSametime := transNumSametime p |}.

Definition SetTransNumSametime (num : Z) (p : YouTranscoderParams) :=
  {| filenamePrefix := filenamePrefix p; outputDir := outputDir p;
     transNumSametime := num |}.

Definition SetOutputDir (dir : string) (p : YouTranscoderParams) :=
  {| filenamePrefix := filenamePrefix p; outputDir := dir;
     transNumSametime := transNumSametime p |}.

(** The setters of the base class [EyerAVTranscoderParams] (whose source
    is not available) as calls: the name and the integer handed over; for
    the enumerations, the id that goes through [GetAVFileFmtById],
    [GetCodecIdById] or [GetById]. *)
Inductive BaseCall :=
| SetOutputFileFmt (id : Z)
| SetVideoCodecId (id : Z)
| SetVideoPixelFormat (id : Z)
| SetCRF (crf : Z)
| SetAudioCodecId (id : Z)
| SetChannelLayout (id : Z)
| SetSampleRate (sampleRate : Z)
| SetDecodeThreadNum (n : Z)
| SetEncodeThreadNum (n : Z).

(** The ids that serve as defaults: the library's constants. *)
Record DefaultIds := mkDefaultIds {
  MP4_id : Z;
  CODEC_ID_H264_id : Z;
  EYER_YUV420P_id : Z;
  CODEC_ID_MP3_id : Z;
  EYER_AV_CH_LAYOUT_STEREO_id : Z
}.

(** One [if (object.contains(key)) { ... Set...(value.toInt(default)); }]. *)
Definition parse_int (o : QJsonObject) (key : string) (defaultValue : Z)
    (call : Z -> BaseCall) : list BaseCall :=
  if contains o key then [call (toInt (value o key) defaultValue)] else [].

(** [int YouTranscoderParams::ParseJson(const QString & jsonStr)] on the
    document the text parses to: the return value, the members and the
    calls to the setters of the base class, in order.  [currentVersion] is
    [Eyer::EyerVersion::GetEyerLibVersion()]. *)
Definition ParseJson (currentVersion : string) (ids : DefaultIds)
    (doc : QJsonDocument) (p : YouTranscoderParams)
    : Z * YouTranscoderParams * list BaseCall :=
  match doc with
  | DocObject object =>
      if contains object "eyer_lib_version" then
        let v := value object "eyer_lib_version" in
        if isString v then
          if negb (String.eqb (toString v) currentVersion) then (-1, p, [])
          else
            let calls := (
              parse_int object "output_file_fmt" (MP4_id ids) SetOutputFileFmt
              ++ parse_int object "video_codec" (CODEC_ID_H264_id ids)
                   SetVideoCodecId
              ++ parse_int object "pixel_format" (EYER_YUV420P_id ids)
                   SetVideoPixelFormat
              ++ parse_int object "video_crf" 18 SetCRF
              ++ parse_int object "audio_codec" (CODEC_ID_MP3_id ids)
                   SetAudioCodecId
              ++ parse_int object "audio_channel_layout"
                   (EYER_AV_CH_LAYOUT_STEREO_id ids) SetChannelLayout
              ++ parse_int object "audio_sample_rate" 44100 SetSampleRate
              ++ parse_int object "decode_thread_num" 4 SetDecodeThreadNum
              ++ parse_int object "encode_thread_num" 4 SetDecodeThreadNum
              )%list in
            let p1 := if contains object "filename_prefix"
                      then SetFilenamePrefix
                             (toString (value object "filename_prefix")) p
                      else p in
            let p2 := if contains object "trans_num_sametime"
                      then SetTransNumSametime
                             (toInt (value object "trans_num_sametime") 2) p1
                      else p1 in
            let p3 := if contains object "output_dir"
                      then SetOutputDir (toString (value object "output_dir")) p2
                      else p2 in
            (0, p3, calls)
        else (-1, p, [])
      else (-1, p, [])
  | _ => (0, p, [])
  end.

(** What the getters of the base class answer when [ToJson] runs. *)
Record BaseView := mkBaseView {
  outputFileFmt_id : Z;
  outputFileFmt_desc : string;
  videoCodec_id : Z;
  videoCodec_desc : string;
  pixelFormat_id : Z;
  pixelFormat_desc : string;
  crf : Z;
  audioCodec_id : Z;
  audioCodec_desc : string;
  channelLayout_id : Z;
  channelLayout_desc : string;
  sampleRate : Z;
  decodeThreadNum : Z;
  encodeThreadNum : Z
}.

(** [QString YouTranscoderParams::ToJson()]: the object the text is
    written from. *)
Definition ToJson (currentVersion : string) (b : BaseView)
    (p : YouTranscoderParams) : QJsonObject :=
  let jsonObj : QJsonObject := [] in
  let jsonObj := insert "eyer_lib_version" (JString currentVersion) jsonObj in
  let jsonObj := insert "output_file_fmt" (of_int (outputFileFmt_id b)) jsonObj in
  let jsonObj :=
    insert "output_file_fmt_desc" (JString (outputFileFmt_desc b)) jsonObj in
  let jsonObj := insert "video_codec" (of_int (videoCodec_id b)) jsonObj in
  let jsonObj :=
    insert "video_codec_desc" (JString (videoCodec_desc b)) jsonObj in
  let jsonObj := insert "pixel_format" (of_int (pixelFormat_id b)) jsonObj in
  let jsonObj :=
    insert "pixel_format_desc" (JString (pixelFormat_desc b)) jsonObj in
  let jsonObj := insert "video_crf" (of_int (crf b)) jsonObj in
  let jsonObj := insert "audio_codec" (of_int (audioCodec_id b)) jsonObj in
  let jsonObj :=
    insert "audio_codec_desc" (JString (audioCodec_desc b)) jsonObj in
  let jsonObj :=
    insert "audio_channel_layout" (of_int (channelLayout_id b)) jsonObj in
  let jsonObj :=
    insert "audio_channel_layout_desc" (JString (channelLayout_desc b))
      jsonObj in
  let jsonObj := insert "audio_sample_rate" (of_int (sampleRate b)) jsonObj in
  let jsonObj := insert "filename_prefix" (JString (filenamePrefix p)) jsonObj in
  let jsonObj :=
    insert "decode_thread_num" (of_int (decodeThreadNum b)) jsonObj in
  let jsonObj :=
    insert "encode_thread_num" (of_int (encodeThreadNum b)) jsonObj in
  let jsonObj :=
    insert "trans_num_sametime" (of_int (transNumSametime p)) jsonObj in
  let jsonObj :=
    insert "trans_num_sametime" (of_int (transNumSametime p)) jsonObj in
  let jsonObj := insert "output_dir" (JString (outputDir p)) jsonObj in
  jsonObj.

(** A value of type [int]. *)
Definition is_int (n : Z) : Prop := - 2 ^ 31 <= n < 2 ^ 31.

Definition ints_of (b : BaseView) : list Z :=
  [outputFileFmt_id b; videoCodec_id b; pixelFormat_id b; crf b;
   audioCodec_id b; channelLayout_id b; sampleRate b; decodeThreadNum b;
   encodeThreadNum b].

(** A configuration for the examples. *)
Definition sample_view : BaseView :=
  {| outputFileFmt_id := 1; outputFileFmt_desc := "MP4";
     videoCodec_id := 2; videoCodec_desc := "H.264";
     pixelFormat_id := 3; pixelFormat_desc := "yuv420p";
     crf := 23;
     audioCodec_id := 4; audioCodec_desc := "MP3";
     channelLayout_id := 5; channelLayout_desc := "stereo";
     sampleRate := 48000; decodeThreadNum := 2; encodeThreadNum := 8 |}.

Definition sample_ids : DefaultIds := mkDefaultIds 1 2 3 4 5.

End Params.

(** ** EyerTime: milliseconds as a time of day *)

Module EyerTime.

Local Open Scope string_scope.
Local Open Scope Z_scope.

Fixpoint zeros (k : nat) : string :=
  match k with
  | O => ""
  | S k' => String "0" (zeros k')
  end.

(** [ss << std::setw(width) << std::setfill('0') << n] for an [int]: the
    decimal digits, a minus sign first, filled up with zeros on the left
    to [width] characters; a longer number is written in full. *)
Definition put_int (width : nat) (n : Z) : string :=
  let s := NilZero.string_of_int (Z.to_int n) in
  zeros (width - String.length s) ++ s.

(** The four numbers [Milliseconds_to_time] computes: [/] and [%] of
    [int], rounding toward zero. *)
Definition time_fields (milliseconds : Z) : Z * Z * Z * Z :=
  let hours := Z.quot milliseconds (1000 * 60 * 60) in
  let minutes := Z.quot (Z.rem milliseconds (1000 * 60 * 60)) (1000 * 60) in
  let seconds := Z.quot (Z.rem milliseconds (1000 * 60)) 1000 in
  let milliseconds_remainder := Z.rem milliseconds 1000 in
  (hours, minutes, seconds, milliseconds_remainder).

(** [EyerString EyerTime::Milliseconds_to_time(int milliseconds)]. *)
Definition Milliseconds_to_time (milliseconds : Z) : string :=
  let '(hours, minutes, seconds, milliseconds_remainder) :=
    time_fields milliseconds in
  put_int 2 hours ++ ":" ++ put_int 2 minutes ++ ":" ++ put_int 2 seconds
    ++ "," ++ put_int 3 milliseconds_remainder.

(** A decimal digit, and numbers in two and in three digits. *)
Definition digit (d : Z) : ascii := ascii_of_nat (48 + Z.to_nat d).

Definition two_digits (n : Z) : string :=
  String (digit (n / 10)) (String (digit (n mod 10)) "").

Definition three_digits (n : Z) : string :=
  String (digit (n / 100)) (two_digits (n mod 100)).

End EyerTime.

(* ===================================================================== *)
(** * Part II: lemmas and theorems                                        *)
(* ===================================================================== *)

(** ** Reading packets *)

Section ReaderFacts.
Import AV Reader.

(** The pointer variant subtracts the start time without looking at it. *)
Lemma stream_at_unread ss rest i :
  stream_at {| streams := ss; unread := rest |} i
  = if i <? 0 then None else nth_error ss (Z.to_nat i).
Proof. reflexivity. Qed.

Lemma Read_ptr_pts ctx pkt ret ctx' pkt' :
  Read_ptr ctx pkt = Some (ret, ctx', pkt') -> ret = 0 ->
  exists p rest st,
    unread ctx = p :: rest /\
    stream_at ctx (stream_index p) = Some st /\
    pts (packet pkt') = wrap64 (pts p - start_time st).
Proof.
  unfold Read_ptr, av_read_frame. destruct ctx as [ss un]; simpl unread.
  destruct un as [|p rest].
  - intros H ->. inversion H.
  - simpl streams. rewrite !stream_at_unread.
    destruct (if stream_index p <? 0 then None else _) as [st|] eqn:Hst;
      [|discriminate].
    intros H _. injection H as _ _ <-. exists p, rest, st.
    repeat split; auto.
Qed.

(** The reference variant does what section 4.1 asks. *)
Lemma Read_ref_pts ctx pkt ret ctx' pkt' :
  Read_ref ctx pkt = Some (ret, ctx', pkt') -> ret = 0 ->
  exists p rest st,
    unread ctx = p :: rest /\
    stream_at ctx (stream_index p) = Some st /\
    pts (packet pkt') = normalised_pts st (pts p).
Proof.
  unfold Read_ref, av_read_frame, normalised_pts.
  destruct ctx as [ss un]; simpl unread.
  destruct un as [|p rest].
  - intros H ->. inversion H.
  - simpl streams. rewrite !stream_at_unread.
    destruct (if stream_index p <? 0 then None else _) as [st|] eqn:Hst;
      [|discriminate].
    intros H _. injection H as _ _ <-. exists p, rest, st.
    repeat split; auto.
    simpl packet. destruct (start_time st =? AV_NOPTS_VALUE); reflexivity.
Qed.

(** C4, at the failing input: on a stream whose [start_time] is
    [AV_NOPTS_VALUE], the pointer variant of [Read] (and with it the
    smart-pointer variant) returns the packet read with [pts] moved by
    2^63 instead of passing 1000 through, while the reference variant
    returns 1000. *)
Theorem Read_pointer_variant_ignores_undefined_start_time :
  let st := {| start_time := AV_NOPTS_VALUE; time_base := mkRational 1 1000 |} in
  normalised_pts st 1000 = 1000 /\
  option_map (fun r => (fst (fst r), pts (packet (snd r))))
    (Read ByReference file_without_start_time blank_packet) = Some (0, 1000) /\
  option_map (fun r => (fst (fst r), pts (packet (snd r))))
    (Read ByPointer file_without_start_time blank_packet)
    = Some (0, -9223372036854774808) /\
  option_map (fun r => (fst (fst r), pts (packet (snd r))))
    (Read BySmartPtr file_without_start_time blank_packet)
    = Some (0, -9223372036854774808).
Proof. cbv zeta. repeat split; vm_compute; reflexivity. Qed.

End ReaderFacts.

(** ** Opening an encoder *)

Section EncoderFacts.
Import AV Encoder.

Lemma time_base_audio_fields lib param c :
  time_base (audio_fields lib param c) = time_base c.
Proof. reflexivity. Qed.

Lemma time_base_copy_timebase param c :
  time_base (copy_timebase param c) = timebase param.
Proof. destruct param as [? ? ? ? ? [n d] ? ? ? ?]. reflexivity. Qed.

(** The branches for AAC and Opus set the time base to 1/sample_rate. *)
Lemma configure_aac_opus_time_base lib param c :
  codecId param = CODEC_ID_AAC \/ codecId param = CODEC_ID_LIB_OPUS ->
  time_base (configure lib param c) = mkRational 1 (sample_rate param).
Proof. unfold configure. intros [-> | ->]; reflexivity. Qed.

(** The branches for MP3, FLAC and PCM leave the time base as allocated. *)
Lemma configure_mp3_flac_pcm_time_base lib param c :
  In (codecId param)
     [CODEC_ID_MP3; CODEC_ID_FLAC; CODEC_ID_PCM_S16LE; CODEC_ID_PCM_S32LE] ->
  time_base (configure lib param c) = time_base c.
Proof.
  unfold configure. cbn.
  intros [<- | [<- | [<- | [<- | []]]]]; reflexivity.
Qed.

(** The video and subtitle branches copy the time base of the
    parameters, which [InitEncoder] sets to 1/1000. *)
Lemma configure_video_time_base lib fromStream targetWidth targetHeight c :
  In (codecId fromStream)
     [CODEC_ID_H264; CODEC_ID_H265; CODEC_ID_VP8; CODEC_ID_VP9;
      CODEC_ID_MJPEG; CODEC_ID_PNG; CODEC_ID_PRORES] ->
  time_base (configure lib (InitEncoder_videoParams fromStream targetWidth
                              targetHeight) c)
  = mkRational 1 1000.
Proof.
  unfold configure, InitEncoder_videoParams. cbn.
  intros [<- | [<- | [<- | [<- | [<- | [<- | [<- | []]]]]]]]; reflexivity.
Qed.


(** After a call of [Init] with an id that has a branch, a return value
    of 0 means a context is allocated. *)
Lemma Init_success_allocates lib e param ret e' :
  has_branch (codecId param) = true ->
  Init lib e param = Some (ret, e') -> ret = 0 ->
  codecContext e' <> None.
Proof.
  unfold Init. intros ->.
  destruct (codecContext e).
  - intros H ->. inversion H.
  - destruct (avcodec_open2 _ _ _ _) as [r c']. intros H _.
    inversion H; subst. discriminate.
Qed.

Lemma Init_allocated lib e param c :
  codecContext e = Some c -> has_branch (codecId param) = true ->
  Init lib e param = Some (-1, new_encoder).
Proof. unfold Init. intros -> ->. reflexivity. Qed.

(** C9, the claim as stated fails: three calls of [Init] with H.264
    parameters on one encoder return 0, -1 and 0, two successes. *)
Lemma Init_succeeds_twice :
  init_codes plain_library new_encoder
    [h264_params; h264_params; h264_params] = [0; -1; 0] /\
  ~ (forall lib params,
        Forall (fun p => has_branch (codecId p) = true) params ->
        (successes (init_codes lib new_encoder params) <= 1)%nat).
Proof.
  split; [vm_compute; reflexivity|].
  intros H.
  specialize (H plain_library [h264_params; h264_params; h264_params]).
  assert (Hall : Forall (fun p => has_branch (codecId p) = true)
                   [h264_params; h264_params; h264_params])
    by (repeat constructor).
  specialize (H Hall). vm_compute in H. lia.
Qed.

(** C9, amended: [Init] with an id that has a branch, on an encoder whose
    context is allocated, frees the context, returns -1 and leaves the
    encoder as a new one; so a call that directly follows a successful
    call fails, and the call after the failed one runs as on a new
    encoder. *)
Theorem Init_on_allocated_context lib e param c :
  codecContext e = Some c ->
  has_branch (codecId param) = true ->
  Init lib e param = Some (-1, new_encoder) /\
  codecContext new_encoder = None /\
  (forall e0 param0 e1, has_branch (codecId param0) = true ->
     Init lib e0 param0 = Some (0, e1) ->
     Init lib e1 param = Some (-1, new_encoder)) /\
  (forall param', init_codes lib e (param :: param' :: nil)
                  = -1 :: init_codes lib new_encoder (param' :: nil)).
Proof.
intros Hc Hb. pose proof (Init_allocated lib e param c Hc Hb) as Hinit.
split; [exact Hinit|]. split; [reflexivity|]. split.
- intros e0 param0 e1 Hb0 H0.
  pose proof (Init_success_allocates lib e0 param0 0 e1 Hb0 H0 eq_refl) as Hne.
  destruct (codecContext e1) as [c1|] eqn:E1; [|congruence].
  now apply (Init_allocated lib e1 param c1).
- intros param'. cbn [init_codes]. rewrite Hinit. reflexivity.
Qed.

(** The theorem at an encoder that holds the default context. *)
Lemma Init_on_allocated_context_witness :
  Init plain_library {| codecContext := Some default_context |} h264_params
    = Some (-1, new_encoder).
Proof.
  apply (Init_on_allocated_context plain_library
           {| codecContext := Some default_context |} h264_params
           default_context eq_refl eq_refl).
Defined.

End EncoderFacts.

(** ** Starting prepared tasks under a cap *)

Section MainWindowFacts.
Import MainWindow.

Lemma count_status_nonneg st l : 0 <= count_status st l.
Proof.
induction l as [|t l IH]; cbn; [lia|].
destruct (status_eqb (status t) st); lia.
Qed.

Lemma count_status_le_length st l : count_status st l <= Z.of_nat (length l).
Proof.
induction l as [|t l IH]; cbn [count_status length]; [lia|].
destruct (status_eqb (status t) st); lia.
Qed.


Lemma status_eqb_eq a b : status_eqb a b = true <-> a = b.
Proof. destruct a, b; cbn; split; congruence. Qed.

Lemma StartTask_status t : status (StartTask t) = ING \/ status (StartTask t) = FAIL.
Proof. unfold StartTask. destruct (start_checks t) as [|[|] r]; cbn; auto. Qed.



Lemma schedule_pass_Some cap l l' :
  schedule_pass cap l = Some l' ->
  0 < count_status PREPARE l /\ count_status ING l < cap /\
  l' = start_first_prepared l.
Proof.
unfold schedule_pass.
destruct (count_status PREPARE l <=? 0) eqn:Hp; [discriminate|].
destruct (cap <=? count_status ING l) eqn:Hc; [discriminate|].
intros H; injection H as <-. apply Z.leb_gt in Hp, Hc. auto.
Qed.

Lemma schedule_pass_None cap l :
  schedule_pass cap l = None <->
  count_status PREPARE l <= 0 \/ cap <= count_status ING l.
Proof.
unfold schedule_pass.
destruct (count_status PREPARE l <=? 0) eqn:Hp.
- apply Z.leb_le in Hp. tauto.
- destruct (cap <=? count_status ING l) eqn:Hc.
  + apply Z.leb_le in Hc. tauto.
  + apply Z.leb_gt in Hp, Hc. split; [discriminate | lia].
Qed.











End MainWindowFacts.

(** ** The transcode run: what the loops emit *)

Section TranscodeEvents.
Import AV Transcode.

Variable w : World.
Variable su : Setup.

Lemma DrainEncoder_body who ready :
  Forall (body_event w su) (DrainEncoder w su who ready).
Proof.
induction ready as [|p ready IH]; cbn; constructor; auto. reflexivity.
Qed.

Lemma EncodeAudio_body a pts :
  Forall (body_event w su) (snd (EncodeAudio w su a pts)).
Proof. cbn. constructor; [exact I | apply DrainEncoder_body]. Qed.

Lemma EncodeResampled_body fuel : forall a a' ev,
  EncodeResampled fuel w su a = Some (a', ev) -> Forall (body_event w su) ev.
Proof.
induction fuel as [|fuel IH]; intros a a' ev H; [discriminate|].
cbn [EncodeResampled] in H.
destruct (resample_GetFrame _ _) as [remaining|].
- destruct (EncodeAudio w su _ (audioOffset a)) as [a2 ev2] eqn:Ea.
  destruct (EncodeResampled fuel w su a2) as [[a3 ev3]|] eqn:Er; [|discriminate].
  injection H as <- <-. constructor; [exact I|].
  apply Forall_app. split.
  + pose proof (EncodeAudio_body
                  {| audioOffset := audioOffset a + audioEncoder_frameSize w;
                     resampleBuffered := remaining; audioSent := audioSent a;
                     audioDecoderDrained := audioDecoderDrained a |}
                  (audioOffset a)) as Hb.
    rewrite Ea in Hb. exact Hb.
  + eapply IH; eauto.
- injection H as <- <-. repeat constructor.
Qed.

Lemma ResampleFrames_body fuel frames : forall a a' ev,
  ResampleFrames fuel w su frames a = Some (a', ev) ->
  Forall (body_event w su) ev.
Proof.
induction frames as [|n frames IH]; intros a a' ev H; cbn [ResampleFrames] in H.
- injection H as <- <-. constructor.
- destruct (EncodeResampled fuel w su _) as [[a2 ev2]|] eqn:E1; [|discriminate].
  destruct (ResampleFrames fuel w su frames a2) as [[a3 ev3]|] eqn:E2;
    [|discriminate].
  injection H as <- <-. constructor; [exact I|].
  apply Forall_app. split; [eapply EncodeResampled_body | eapply IH]; eauto.
Qed.

Lemma TranscodeAudio_body fuel limitTime file : forall a r file' a' ev,
  TranscodeAudio fuel w su limitTime file a = Some (r, file', a', ev) ->
  Forall (body_event w su) ev.
Proof.
induction file as [|p file IH]; intros a r file' a' ev H;
  cbn [TranscodeAudio] in H.
- destruct (ResampleFrames fuel w su _ (drained a)) as [[a2 ev2]|] eqn:E1;
    [|discriminate].
  injection H as <- <- <- <-. constructor; [exact I|].
  eapply ResampleFrames_body; eauto.
- destruct (negb _); [eapply IH; eauto|].
  destruct (ResampleFrames fuel w su (decoded p) a) as [[a2 ev2]|] eqn:E1;
    [|discriminate].
  pose proof (ResampleFrames_body _ _ _ _ _ E1) as Hb.
  destruct (Qgtb _ _).
  + injection H as <- <- <- <-. exact Hb.
  + destruct (TranscodeAudio fuel w su limitTime file a2)
      as [[[[r3 f3] a3] ev3]|] eqn:E2; [|discriminate].
    injection H as <- <- <- <-. apply Forall_app. split; auto.
    eapply IH; eauto.
Qed.

Lemma TranscodeVideo_loop_body fuel limitTime : forall v r v' ev,
  TranscodeVideo_loop fuel w su limitTime v = Some (r, v', ev) ->
  Forall (body_event w su) ev.
Proof.
induction fuel as [|fuel IH]; intros v r v' ev H; [discriminate|].
cbn [TranscodeVideo_loop] in H.
destruct (negb _).
- injection H as <- <- <-. repeat constructor.
- assert (Hb : forall sent, Forall (body_event w su)
            (DecoderBoxGetFrame (frameTime w (frameOffset v))
               (decoderBox_GetFrame w (boxCalls v) (frameTime w (frameOffset v)))
             :: EncoderSendFrame Video
                  (framePts w (frameOffset v))
             :: DrainEncoder w su Video sent)).
  { intros sent. constructor; [exact I|]. constructor; [exact I|].
    apply DrainEncoder_body. }
  destruct (double_gtb _ _).
  + injection H as <- <- <-. apply Hb.
  + destruct (TranscodeVideo_loop fuel w su limitTime _)
      as [[[r3 v3] ev3]|] eqn:E2; [|discriminate].
    injection H as <- <- <-. change (?a :: ?b :: ?c ++ ev3) with ((a :: b :: c) ++ ev3).
    apply Forall_app. split; [apply Hb | eapply IH; eauto].
Qed.

Lemma TranscodeVideo_body fuel limitTime v r v' ev :
  TranscodeVideo fuel w su limitTime v = Some (r, v', ev) ->
  Forall (body_event w su) ev.
Proof.
unfold TranscodeVideo. destruct (_ <=? _).
- intros H. injection H as <- <- <-. constructor.
- apply TranscodeVideo_loop_body.
Qed.

Lemma MainLoop_body fuel : forall limitTime v file a v' file' a' ev,
  MainLoop fuel w su limitTime v file a = Some (v', file', a', ev) ->
  Forall (body_event w su) ev.
Proof.
induction fuel as [|fuel IH]; intros limitTime v file a v' file' a' ev H;
  [discriminate|].
cbn [MainLoop] in H.
destruct (if careVideo (params w) then _ else _) as [[[rv v1] ev1]|] eqn:Ev;
  [|discriminate].
destruct (if careAudio (params w) then _ else _) as [[[[ra f1] a1] ev2]|] eqn:Ea;
  [|discriminate].
assert (H1 : Forall (body_event w su) ev1).
{ destruct (careVideo (params w)).
  - eapply TranscodeVideo_body; eauto.
  - injection Ev as <- <- <-. constructor. }
assert (H2 : Forall (body_event w su) ev2).
{ destruct (careAudio (params w)).
  - eapply TranscodeAudio_body; eauto.
  - injection Ea as <- <- <- <-. constructor. }
assert (H12 : Forall (body_event w su) (ev1 ++ Sleep :: ev2)).
{ apply Forall_app. split; auto. constructor; [exact I | auto]. }
destruct (_ && _).
- injection H as <- <- <- <-. exact H12.
- destruct (MainLoop fuel w su _ v1 f1 a1) as [[[[v3 f3] a3] ev3]|] eqn:E3;
    [|discriminate].
  injection H as <- <- <- <-. apply Forall_app. split; auto.
  eapply IH; eauto.
Qed.

Lemma FlushVideo_body v : Forall (body_event w su) (FlushVideo w su v).
Proof.
unfold FlushVideo. destruct (careVideo _); [|constructor].
destruct (_ <=? _); [|constructor].
constructor; [exact I | apply DrainEncoder_body].
Qed.

(** The loop that drops resampled frames: its events and what it leaves. *)
Lemma DropResampled_shape fuel : forall buffered b ev,
  DropResampled fuel w buffered = Some (b, ev) ->
  exists k, ev = repeat (ResampleGetFrame 0) k ++ [ResampleGetFrame (-1)] /\
            b = buffered - Z.of_nat k * audioEncoder_frameSize w /\
            b < audioEncoder_frameSize w.
Proof.
induction fuel as [|fuel IH]; intros buffered b ev H; [discriminate|].
cbn [DropResampled] in H. unfold resample_GetFrame in H.
destruct (audioEncoder_frameSize w <=? buffered) eqn:Hle.
- destruct (DropResampled fuel w _) as [[b' ev']|] eqn:E; [|discriminate].
  injection H as <- <-. apply IH in E as (k & -> & -> & Hlt).
  exists (S k). repeat split; auto. lia.
- injection H as <- <-. exists O. apply Z.leb_gt in Hle.
  repeat split; auto. cbn. lia.
Qed.

Lemma FlushAudio_body fuel a a' ev :
  FlushAudio fuel w su a = Some (a', ev) -> Forall (body_event w su) ev.
Proof.
unfold FlushAudio. destruct (careAudio _); [|intros H; injection H as <- <-; constructor].
destruct (_ <=? _); [|intros H; injection H as <- <-; constructor].
destruct (DropResampled fuel w _) as [[b evd]|] eqn:E; [|discriminate].
apply DropResampled_shape in E as (k & -> & _ & _).
intros H.
assert (Hrep : Forall (body_event w su)
                 (repeat (ResampleGetFrame 0) k ++ [ResampleGetFrame (-1)])).
{ apply Forall_app. split; [|repeat constructor].
  apply Forall_forall. intros e He. apply repeat_spec in He. subst. exact I. }
destruct (resample_GetLastFrame b); injection H as <- <-;
  (constructor; [exact I|]);
  (apply Forall_app; split; [exact Hrep|]);
  repeat (constructor; [exact I|]); apply DrainEncoder_body.
Qed.

End TranscodeEvents.

(** ** The video burst *)

Section VideoBurst.
Import AV Transcode.

Variable w : World.
Variable su : Setup.

Lemma Qgtb_true_iff a b : Qgtb a b = true <-> (b < a)%Q.
Proof.
unfold Qgtb. rewrite negb_true_iff. split.
- intros H. apply Qnot_le_lt. intros Hle. apply Qle_bool_iff in Hle. congruence.
- intros H. destruct (Qle_bool a b) eqn:E; auto.
  apply Qle_bool_iff in E. exfalso. revert E. now apply Qlt_not_le.
Qed.

Lemma Qgtb_false_iff a b : Qgtb a b = false <-> (a <= b)%Q.
Proof.
unfold Qgtb. rewrite negb_false_iff. apply Qle_bool_iff.
Qed.

Lemma sent_app who l1 l2 : sent who (l1 ++ l2) = sent who l1 ++ sent who l2.
Proof. apply flat_map_app. Qed.

Lemma sent_DrainEncoder who who' ready :
  sent who (DrainEncoder w su who' ready) = [].
Proof. induction ready as [|p ready IH]; cbn; auto. Qed.

Lemma indices_snoc lo n :
  indices lo (S n) = indices lo n ++ [lo + Z.of_nat n].
Proof.
revert lo. induction n as [|n IH]; intros lo.
- cbn. f_equal. lia.
- change (indices lo (S (S n))) with (lo :: indices (lo + 1) (S n)).
  rewrite IH. cbn. do 3 f_equal. lia.
Qed.

Lemma sent_video_step pts r f ready rest :
  sent Video (DecoderBoxGetFrame pts r :: EncoderSendFrame Video f
              :: DrainEncoder w su Video ready ++ rest)
  = f :: sent Video rest.
Proof.
change (sent Video ([DecoderBoxGetFrame pts r; EncoderSendFrame Video f]
                    ++ DrainEncoder w su Video ready ++ rest)
        = f :: sent Video rest).
rewrite !sent_app, sent_DrainEncoder. reflexivity.
Qed.

(** What a completed pass through the loop of [TranscodeVideo] has done:
    it has sent the frames of the indices from the old to the new
    [frameOffset]; every index but the last stayed within the limit; it
    returned 0 after the first index over the limit, or -1 at an index
    whose frame could not be fetched. *)
Lemma TranscodeVideo_loop_spec fuel limitTime : forall v r v' ev,
  TranscodeVideo_loop fuel w su limitTime v = Some (r, v', ev) ->
  frameOffset v <= frameOffset v' /\
  sent Video ev
    = map (framePts w) (indices (frameOffset v)
                          (Z.to_nat (frameOffset v' - frameOffset v))) /\
  (r = 0 /\ frameOffset v < frameOffset v' /\
   double_gtb (frameTime w (frameOffset v' - 1)) limitTime = true /\
   (forall i, frameOffset v <= i < frameOffset v' - 1 ->
              double_gtb (frameTime w i) limitTime = false)
   \/
   r = -1 /\
   (forall i, frameOffset v <= i < frameOffset v' ->
              double_gtb (frameTime w i) limitTime = false) /\
   decoderBox_GetFrame w (pred (boxCalls v')) (frameTime w (frameOffset v')) <> 0).
Proof.
induction fuel as [|fuel IH]; intros v r v' ev H; [discriminate|].
cbn [TranscodeVideo_loop] in H.
destruct (negb _) eqn:Hret.
- injection H as <- <- <-. cbn [frameOffset boxCalls pred].
  rewrite Z.sub_diag. cbn. repeat split; [lia|]. right.
  repeat split; [intros i Hi; lia|].
  apply negb_true_iff in Hret. now apply Z.eqb_neq in Hret.
- destruct (double_gtb _ _) eqn:Hgt.
  + injection H as <- <- <-. cbn [frameOffset].
    replace (frameOffset v + 1 - frameOffset v) with 1 by lia.
    rewrite <- (app_nil_r (DrainEncoder _ _ _ _)), sent_video_step.
    split; [lia|]. split; [reflexivity|]. left.
    replace (frameOffset v + 1 - 1) with (frameOffset v) by lia.
    repeat split; [lia | exact Hgt | intros i Hi; lia].
  + destruct (TranscodeVideo_loop fuel w su limitTime _)
      as [[[r3 v3] ev3]|] eqn:E; [|discriminate].
    injection H as <- <- <-.
    apply IH in E as (Hle & Hsent & Hcase). cbn [frameOffset] in *.
    split; [lia|]. split.
    * change (sent Video ((?a :: ?b :: ?c) ++ ev3))
        with (sent Video (a :: b :: c ++ ev3)).
      rewrite sent_video_step, Hsent.
      replace (Z.to_nat (frameOffset v3 - frameOffset v))
        with (S (Z.to_nat (frameOffset v3 - (frameOffset v + 1)))) by lia.
      reflexivity.
    * destruct Hcase as [(-> & Hlt & Hover & Hin) | (-> & Hin & Hfail)].
      -- left. repeat split; auto; [lia|].
         intros i Hi. destruct (Z.eq_dec i (frameOffset v)) as [->|Hne]; auto.
         apply Hin. lia.
      -- right. repeat split; auto.
         intros i Hi. destruct (Z.eq_dec i (frameOffset v)) as [->|Hne]; auto.
         apply Hin. lia.
Qed.

(** A call of [TranscodeVideo] returns 0 or -1; it returns 0 only when
    entered below [frameCount], and then [frameOffset] has grown. *)
Lemma TranscodeVideo_progress fuel limitTime v r v' ev :
  TranscodeVideo fuel w su limitTime v = Some (r, v', ev) ->
  frameOffset v <= frameOffset v' /\
  (r = -1 \/ r = 0 /\ frameOffset v < frameCount su
             /\ frameOffset v < frameOffset v').
Proof.
unfold TranscodeVideo. destruct (_ <=? _) eqn:Hdone.
- intros H. injection H as <- <- <-. split; [lia | auto].
- intros H. apply Z.leb_gt in Hdone.
  apply TranscodeVideo_loop_spec in H as (Hle & _ & Hcase).
  split; auto. destruct Hcase as [(-> & Hlt & _) | (-> & _)]; auto.
Qed.

(** A time above a limit is above every smaller limit. *)
Lemma double_gtb_antitone x limit limit' :
  (limit' <= limit)%Q ->
  double_gtb x limit = true -> double_gtb x limit' = true.
Proof.
intros Hle. unfold double_gtb.
destruct x; auto; rewrite !Qgtb_true_iff; intros H;
  eapply Qle_lt_trans; eauto.
Qed.

(** The loop ends at the latest with the first index whose time is above
    the limit. *)
Lemma TranscodeVideo_loop_converges limitTime v :
  passes_limit w (frameOffset v) limitTime ->
  converges (fun fuel => TranscodeVideo_loop fuel w su limitTime v).
Proof.
intros (j & Hj & Hover).
assert (Hind : forall n v,
  frameOffset v <= j -> (Z.to_nat (j - frameOffset v) <= n)%nat ->
  converges (fun fuel => TranscodeVideo_loop fuel w su limitTime v)).
{ clear v Hj. induction n as [|n IH]; intros v Hle Hn.
  all: destruct (negb (decoderBox_GetFrame w (boxCalls v)
                         (frameTime w (frameOffset v)) =? 0)) eqn:Hret;
    [exists 1%nat; eexists; intros [|fuel] Hf; [lia|];
     cbn [TranscodeVideo_loop]; rewrite Hret; reflexivity|].
  all: destruct (double_gtb (frameTime w (frameOffset v)) limitTime) eqn:Hgt;
    [exists 1%nat; eexists; intros [|fuel] Hf; [lia|];
     cbn [TranscodeVideo_loop]; rewrite Hret, Hgt; reflexivity|].
  all: assert (Hne : frameOffset v <> j) by (intros E; congruence).
  - lia.
  - destruct (IH {| frameOffset := frameOffset v + 1;
                    videoSent := videoSent v ++ [framePts w (frameOffset v)];
                    boxCalls := S (boxCalls v) |})
      as (N & [[r3 v3] ev3] & HN); [cbn [frameOffset]; lia ..|].
    exists (S N). eexists. intros [|fuel] Hf; [lia|].
    cbn [TranscodeVideo_loop]. rewrite Hret, Hgt.
    change (double_to_long
              (double_mul (frameTime w (frameOffset v)) (double_of_long 1000)))
      with (framePts w (frameOffset v)).
    rewrite HN by lia. reflexivity. }
eapply Hind; [apply Hj | apply Nat.le_refl].
Qed.

Lemma TranscodeVideo_converges limitTime v :
  (frameOffset v < frameCount su -> passes_limit w (frameOffset v) limitTime) ->
  converges (fun fuel => TranscodeVideo fuel w su limitTime v).
Proof.
intros Hp. unfold TranscodeVideo.
destruct (frameCount su <=? frameOffset v) eqn:E.
- exists O. eexists. reflexivity.
- apply Z.leb_gt in E. now apply TranscodeVideo_loop_converges, Hp.
Qed.

End VideoBurst.

(** ** The audio burst, the main loop and the flush: termination *)

Section Termination.
Import AV Transcode.

Variable w : World.
Variable su : Setup.

Lemma converges_bind {A B : Type} (f : nat -> option A)
    (g : nat -> A -> option B) :
  converges f -> (forall x, converges (fun fuel => g fuel x)) ->
  converges (fun fuel => match f fuel with
                         | Some x => g fuel x
                         | None => None
                         end).
Proof.
intros (N1 & x & H1) Hg. destruct (Hg x) as (N2 & y & H2).
exists (Nat.max N1 N2), y. intros fuel Hf.
rewrite H1 by lia. apply H2. lia.
Qed.

Lemma converges_ext {A : Type} (f g : nat -> option A) :
  (forall fuel, f fuel = g fuel) -> converges f -> converges g.
Proof.
intros Hfg (N & r & H). exists N, r. intros fuel Hf. rewrite <- Hfg. now apply H.
Qed.

Lemma converges_const {A : Type} (r : A) : converges (fun _ => Some r).
Proof. exists O, r. reflexivity. Qed.

Lemma EncodeResampled_converges :
  0 < audioEncoder_frameSize w ->
  forall a, converges (fun fuel => EncodeResampled fuel w su a).
Proof.
intros Hfs.
assert (Hind : forall n a, (Z.to_nat (resampleBuffered a) <= n)%nat ->
                 converges (fun fuel => EncodeResampled fuel w su a)).
{ induction n as [|n IH]; intros a Hn.
  - exists 1%nat. eexists. intros [|fuel] Hf; [lia|]. cbn [EncodeResampled].
    unfold resample_GetFrame.
    destruct (audioEncoder_frameSize w <=? resampleBuffered a) eqn:Hle;
      [apply Z.leb_le in Hle; lia | reflexivity].
  - destruct (audioEncoder_frameSize w <=? resampleBuffered a) eqn:Hle.
    + apply Z.leb_le in Hle.
      destruct (IH {| audioOffset := audioOffset a + audioEncoder_frameSize w;
                      resampleBuffered := resampleBuffered a - audioEncoder_frameSize w;
                      audioSent := audioSent a ++ [audioOffset a];
                      audioDecoderDrained := audioDecoderDrained a |})
        as (N & [a3 ev3] & HN); [cbn [resampleBuffered]; lia|].
      exists (S N). eexists. intros [|fuel] Hf; [lia|]. cbn [EncodeResampled].
      unfold resample_GetFrame. apply Z.leb_le in Hle. rewrite Hle.
      cbn [EncodeAudio audioSent audioOffset resampleBuffered audioDecoderDrained].
      rewrite HN by lia. reflexivity.
    + exists 1%nat. eexists. intros [|fuel] Hf; [lia|]. cbn [EncodeResampled].
      unfold resample_GetFrame. rewrite Hle. reflexivity. }
intros a. eapply Hind. apply Nat.le_refl.
Qed.

Lemma ResampleFrames_converges :
  0 < audioEncoder_frameSize w ->
  forall frames a, converges (fun fuel => ResampleFrames fuel w su frames a).
Proof.
intros Hfs. induction frames as [|n frames IH]; intros a.
- apply converges_const.
- cbn [ResampleFrames].
  apply (converges_bind
           (fun fuel => EncodeResampled fuel w su _)
           (fun fuel x => let '(a2, ev) := x in
                          match ResampleFrames fuel w su frames a2 with
                          | Some (a3, ev') =>
                              Some (a3, ResamplePutAVFrame n :: ev ++ ev')
                          | None => None
                          end)).
  + now apply EncodeResampled_converges.
  + intros [a2 ev].
    apply (converges_bind (fun fuel => ResampleFrames fuel w su frames a2)
             (fun _ x => let '(a3, ev') := x in
                         Some (a3, ResamplePutAVFrame n :: ev ++ ev'))).
    * apply IH.
    * intros [a3 ev']. apply converges_const.
Qed.

Lemma TranscodeAudio_converges limitTime :
  0 < audioEncoder_frameSize w ->
  forall file a,
    converges (fun fuel => TranscodeAudio fuel w su limitTime file a).
Proof.
intros Hfs. induction file as [|p file IH]; intros a; cbn [TranscodeAudio].
- apply (converges_bind (fun fuel => ResampleFrames fuel w su _ (drained a))
           (fun _ x => let '(a', ev) := x in
                       Some (-1, [], a', DecoderSendPacketNull :: ev))).
  + now apply ResampleFrames_converges.
  + intros [a' ev]. apply converges_const.
- destruct (negb _); [apply IH|].
  apply (converges_bind (fun fuel => ResampleFrames fuel w su (decoded p) a)
           (fun fuel x =>
              let '(a', ev) := x in
              if Qgtb (lastFrameTime (decoded p) a') limitTime
              then Some (0, file, a', ev)
              else match TranscodeAudio fuel w su limitTime file a' with
                   | Some (ret, file', a'', ev') =>
                       Some (ret, file', a'', ev ++ ev')
                   | None => None
                   end)).
  + now apply ResampleFrames_converges.
  + intros [a' ev]. destruct (Qgtb _ _); [apply converges_const|].
    apply (converges_bind (fun fuel => TranscodeAudio fuel w su limitTime file a')
             (fun _ x => let '(ret, file', a'', ev') := x in
                         Some (ret, file', a'', ev ++ ev'))).
    * apply IH.
    * intros [[[r f'] a''] ev']. apply converges_const.
Qed.

(** A call of [TranscodeAudio] returns 0 or -1, and never hands back more
    of the file than it was given; when it returns 0 it has read at least
    one packet. *)
Lemma TranscodeAudio_progress fuel limitTime : forall file a r file' a' ev,
  TranscodeAudio fuel w su limitTime file a = Some (r, file', a', ev) ->
  (length file' <= length file)%nat /\
  (r = -1 \/ r = 0 /\ (length file' < length file)%nat).
Proof.
induction file as [|p file IH]; intros a r file' a' ev H;
  cbn [TranscodeAudio] in H.
- destruct (ResampleFrames fuel w su _ (drained a)) as [[a2 ev2]|];
    [|discriminate].
  injection H as <- <- <- <-. cbn. auto.
- destruct (negb _).
  + apply IH in H as (Hle & Hr). cbn [length]. split; [lia|].
    destruct Hr as [-> | [-> Hlt]];
      [left; reflexivity | right; split; [reflexivity | lia]].
  + destruct (ResampleFrames fuel w su (decoded p) a) as [[a2 ev2]|];
      [|discriminate].
    destruct (Qgtb _ _).
    * injection H as <- <- <- <-. cbn [length]. split; [lia|]. right.
      split; [reflexivity | lia].
    * destruct (TranscodeAudio fuel w su limitTime file a2)
        as [[[[r3 f3] a3] ev3]|] eqn:E; [|discriminate].
      injection H as <- <- <- <-. apply IH in E as (Hle & Hr).
      cbn [length]. split; [lia|].
      destruct Hr as [-> | [-> Hlt]];
      [left; reflexivity | right; split; [reflexivity | lia]].
Qed.

(** The loop comes to an end under two conditions: some frame index at or
    after the last frame has a time above a limit that bounds those of all
    rounds (when video is transcoded), and the audio encoder asks for frames
    of a positive size (when audio is). *)
Variable lastLimit : Q.
Hypothesis video_clock :
  careVideo (params w) = true -> passes_limit w (frameCount su - 1) lastLimit.
Hypothesis audio_frame :
  careAudio (params w) = true -> 0 < audioEncoder_frameSize w.

Lemma rounds_positive n : (1 <= inject_Z (Z.of_nat (S n)))%Q.
Proof. change 1%Q with (inject_Z 1). rewrite <- Zle_Qle. lia. Qed.

Lemma rounds_step n :
  (inject_Z (Z.of_nat (S (S n))) == inject_Z (Z.of_nat (S n)) + 1)%Q.
Proof.
rewrite (Nat2Z.inj_succ (S n)). unfold Z.succ. rewrite inject_Z_plus.
reflexivity.
Qed.

Lemma MainLoop_converges : forall limitTime v file a,
  (limitTime
   + inject_Z (Z.of_nat (S (Z.to_nat (frameCount su - frameOffset v)
                            + length file))) * (1 # 2) <= lastLimit)%Q ->
  converges (fun fuel => MainLoop fuel w su limitTime v file a).
Proof.
assert (Hind : forall n limitTime v file a,
  (Z.to_nat (frameCount su - frameOffset v) + length file <= n)%nat ->
  (limitTime + inject_Z (Z.of_nat (S n)) * (1 # 2) <= lastLimit)%Q ->
  converges (fun fuel => MainLoop fuel w su limitTime v file a)).
{ induction n as [|n IH]; intros limitTime v file a Hn Hlim.
  all: set (limit' := (limitTime + (1 # 2))%Q).
  all: assert (Hlim' : (limit' <= lastLimit)%Q)
    by (unfold limit';
        match type of Hlim with
        | (_ + inject_Z (Z.of_nat (S ?k)) * _ <= _)%Q =>
            pose proof (rounds_positive k)
        end; lra).
  all: assert (Hv : converges (fun fuel =>
         if careVideo (params w) then TranscodeVideo fuel w su limit' v
         else Some (-1, v, [])))
    by (destruct (careVideo (params w)) eqn:Cv;
        [apply TranscodeVideo_converges; intros Hlt;
         destruct (video_clock eq_refl) as (J & HJ & Hgt);
         exists J; split; [lia|];
         now apply double_gtb_antitone with lastLimit
        | apply converges_const]).
  all: assert (Ha : converges (fun fuel =>
         if careAudio (params w) then TranscodeAudio fuel w su limit' file a
         else Some (-1, file, a, [])))
    by (destruct (careAudio (params w)) eqn:Ca;
        [apply TranscodeAudio_converges; auto | apply converges_const]).
  all: destruct Hv as (N1 & [[rv v1] ev1] & HN1).
  all: destruct Ha as (N2 & [[[ra f1] a1] ev2] & HN2).
  all: assert (Pv : frameOffset v <= frameOffset v1 /\
                    (rv = -1 \/ rv = 0 /\ frameOffset v < frameCount su
                                /\ frameOffset v < frameOffset v1)).
  1,3: specialize (HN1 N1 (Nat.le_refl _));
       destruct (careVideo (params w));
       [eapply TranscodeVideo_progress; eauto
       | injection HN1 as <- <- <-; split; [lia | auto]].
  all: assert (Pa : (length f1 <= length file)%nat /\
                    (ra = -1 \/ ra = 0 /\ (length f1 < length file)%nat)).
  1,3: specialize (HN2 N2 (Nat.le_refl _));
       destruct (careAudio (params w));
       [eapply TranscodeAudio_progress; eauto
       | injection HN2 as <- <- <- <-; split; [lia | auto]].
  - exists (S (Nat.max N1 N2)). eexists. intros [|fuel] Hf; [lia|].
    cbn [MainLoop]. fold limit'. rewrite HN1, HN2 by lia.
    destruct Pv as (_ & [-> | (_ & Hlt & _)]); [|lia].
    destruct Pa as (_ & [-> | (_ & Hlt)]); [|lia].
    reflexivity.
  - destruct (negb (ra =? 0) && negb (rv =? 0)) eqn:Hexit.
    + exists (S (Nat.max N1 N2)). eexists. intros [|fuel] Hf; [lia|].
      cbn [MainLoop]. fold limit'. rewrite HN1, HN2 by lia.
      rewrite Hexit. reflexivity.
    + destruct (IH limit' v1 f1 a1) as (N3 & [[[v3 f3] a3] ev3] & HN3).
      { destruct Pv as (Hv1 & [-> | (-> & Hv2 & Hv3)]);
          destruct Pa as (Ha1 & [-> | (-> & Ha2)]);
          try (cbn in Hexit; discriminate); lia. }
      { unfold limit'. pose proof (rounds_step n) as Hs.
        rewrite Hs in Hlim. lra. }
      exists (S (Nat.max (Nat.max N1 N2) N3)). eexists.
      intros [|fuel] Hf; [lia|].
      cbn [MainLoop]. fold limit'. rewrite HN1, HN2 by lia.
      rewrite Hexit, HN3 by lia. reflexivity. }
intros limitTime v file a Hlim. eapply Hind; [apply Nat.le_refl | exact Hlim].
Qed.

Lemma DropResampled_converges buffered :
  0 < audioEncoder_frameSize w ->
  converges (fun fuel => DropResampled fuel w buffered).
Proof.
intros Hfs.
assert (Hind : forall n b, (Z.to_nat b <= n)%nat ->
                 converges (fun fuel => DropResampled fuel w b)).
{ induction n as [|n IH]; intros b Hn.
  - exists 1%nat. eexists. intros [|fuel] Hf; [lia|]. cbn [DropResampled].
    unfold resample_GetFrame.
    destruct (audioEncoder_frameSize w <=? b) eqn:Hle;
      [apply Z.leb_le in Hle; lia | reflexivity].
  - destruct (audioEncoder_frameSize w <=? b) eqn:Hle.
    + pose proof Hle as Hle'. apply Z.leb_le in Hle'.
      destruct (IH (b - audioEncoder_frameSize w)) as (N & [b3 ev3] & HN);
        [lia|].
      exists (S N). eexists. intros [|fuel] Hf; [lia|]. cbn [DropResampled].
      unfold resample_GetFrame. rewrite Hle, HN by lia. reflexivity.
    + exists 1%nat. eexists. intros [|fuel] Hf; [lia|]. cbn [DropResampled].
      unfold resample_GetFrame. rewrite Hle. reflexivity. }
eapply Hind. apply Nat.le_refl.
Qed.

Lemma FlushAudio_converges a :
  converges (fun fuel => FlushAudio fuel w su a).
Proof.
unfold FlushAudio. destruct (careAudio (params w)) eqn:Ca;
  [|apply converges_const].
destruct (_ <=? _); [|apply converges_const].
destruct (DropResampled_converges (resampleBuffered a + resample_tail w))
  as (N & [b ev] & HN); auto.
destruct (resample_GetLastFrame b) eqn:El;
  (exists N; eexists; intros fuel Hf; rewrite HN by lia; rewrite El;
   reflexivity).
Qed.

End Termination.

(** ** The transcode run as a whole *)

Section WholeRun.
Import AV Transcode.

Lemma writer_calls_app l1 l2 :
  writer_calls (l1 ++ l2) = writer_calls l1 ++ writer_calls l2.
Proof. apply flat_map_app. Qed.

Lemma received_app who l1 l2 :
  received who (l1 ++ l2) = received who l1 ++ received who l2.
Proof. apply flat_map_app. Qed.

Lemma written_app who l1 l2 :
  written who (l1 ++ l2) = written who l1 ++ written who l2.
Proof. apply flat_map_app. Qed.

(** Events of the loops and the flush reach the writer as packet writes
    only. *)
Lemma body_writer_calls w su ev :
  Forall (body_event w su) ev ->
  exists n, writer_calls ev = repeat CallWritePacket n.
Proof.
induction 1 as [|e ev He _ [n IH]]; [exists O; reflexivity|].
unfold writer_calls in *. cbn [flat_map]. rewrite IH.
destruct e; cbn in He; try contradiction;
  first [exists n; reflexivity | exists (S n); reflexivity].
Qed.

(** In events of the loops and the flush, what is written for a pipeline is
    what its encoder returned, finalised, packet by packet. *)
Lemma body_written w su who ev :
  Forall (body_event w su) ev ->
  written who ev = map (finalise w su who) (received who ev).
Proof.
induction 1 as [|e ev He _ IH]; [reflexivity|].
unfold written, received in *. cbn [flat_map]. rewrite IH, map_app.
f_equal. destruct e; cbn in He; try contradiction; try reflexivity.
destruct who, who0; cbn; try reflexivity; now rewrite He.
Qed.

(** The events before the main loop: [Open], up to two [AddStream],
    [WriteHand]; no packet. *)
Lemma prepare_events w :
  exists k,
    writer_calls (snd (prepare w))
      = CallOpen :: repeat CallAddStream k ++ [CallWriteHand] /\
    forall who, received who (snd (prepare w)) = [] /\
                written who (snd (prepare w)) = [].
Proof.
unfold prepare, InitEncoder.
destruct ((0 <=? videoStreamIndex w) && careVideo (params w));
  destruct ((0 <=? audioStreamIndex w) && careAudio (params w));
  destruct (0 <=? audioStreamIndex w);
  [exists 2%nat | exists 2%nat | exists 1%nat | exists 1%nat
  | exists 1%nat | exists 1%nat | exists 0%nat | exists 0%nat];
  (split; [reflexivity | intros who; split; reflexivity]).
Qed.

(** A completed run: its result is 0, its members are those of [prepare],
    and its trace is the preparation, then events of the loops and the
    flush, then [Close] of the readers, [WriteTrailer], [Close]. *)
Lemma Transcode_trace fuel w o :
  Transcode fuel w = Some o ->
  ret o = 0 /\ setup o = fst (prepare w) /\
  exists body,
    trace o = snd (prepare w) ++ body
              ++ [ReadersClose; WriterWriteTrailer; WriterClose] /\
    Forall (body_event w (setup o)) body.
Proof.
unfold Transcode. destruct (prepare w) as [su evp].
destruct (MainLoop fuel w su 0 _ (audioFile w) _)
  as [[[[v f] a] evl]|] eqn:El; [|discriminate].
destruct (FlushAudio fuel w su a) as [[a' eva]|] eqn:Ef; [|discriminate].
intros H. injection H as <-. cbn [ret setup trace fst snd].
repeat split.
exists (evl ++ FlushVideo w su v ++ eva). split.
- now rewrite <- !app_assoc.
- apply Forall_app. split; [eapply MainLoop_body; eauto|].
  apply Forall_app. split; [apply FlushVideo_body | eapply FlushAudio_body; eauto].
Qed.

(** The run ends when some frame index at or after the last frame has a
    time above the limit of the last round the loop can need (when video is
    transcoded) and the encoder frame size is positive (when audio is). *)
Lemma Transcode_converges w :
  (careVideo (params w) = true ->
   passes_limit w (frameCount (fst (prepare w)) - 1)
     (last_limit w (fst (prepare w)))) ->
  (careAudio (params w) = true -> 0 < audioEncoder_frameSize w) ->
  converges (fun fuel => Transcode fuel w).
Proof.
intros Hv Ha. unfold Transcode. destruct (prepare w) as [su evp].
cbn [fst] in Hv.
destruct (MainLoop_converges w su (last_limit w su) Hv Ha 0%Q
            {| frameOffset := 0; videoSent := []; boxCalls := 0 |}
            (audioFile w)
            {| audioOffset := audioOffset0 w; resampleBuffered := 0;
               audioSent := []; audioDecoderDrained := false |})
  as (N1 & [[[v f] a] evl] & H1).
{ cbn [frameOffset]. unfold last_limit. rewrite Z.sub_0_r, Qplus_0_l.
  apply Qle_refl. }
destruct (FlushAudio_converges w su Ha a) as (N2 & [a' eva] & H2).
exists (Nat.max N1 N2). eexists. intros fuel Hf.
rewrite H1, H2 by lia. reflexivity.
Qed.

End WholeRun.

(** ** Runs that do not return *)

Section Divergence.
Import AV Transcode.

Lemma binary_round_aux_sign sx mx ex lx :
  sign_or_nan sx (binary_round_aux prec emax sx mx ex lx).
Proof.
unfold binary_round_aux.
destruct (shr_fexp prec emax mx ex lx) as [mrs' e'].
destruct (shr_fexp prec emax _ e' loc_Exact) as [mrs'' e''].
destruct (shr_m mrs''); cbn; auto.
destruct (Z.leb _ _); cbn; auto.
Qed.

(** The [double] of a [long] that is not negative has no negative sign. *)
Lemma double_of_long_sign i : 0 <= i -> sign_or_nan false (double_of_long i).
Proof.
intros Hi. unfold double_of_long, binary_normalize.
destruct i as [|m|m]; [reflexivity| |lia].
unfold binary_round. destruct (shl_align _ _ _) as [mz ez].
apply binary_round_aux_sign.
Qed.

(** The sign of a quotient is that of its operands taken together. *)
Lemma double_div_sign sx sy x y :
  sign_or_nan sx x -> sign_or_nan sy y ->
  sign_or_nan (xorb sx sy) (double_div x y).
Proof.
unfold double_div.
destruct x as [s|s| |s m e], y as [s'|s'| |s' m' e']; cbn;
  intros Hx Hy; subst; auto.
destruct (SFdiv_core_binary _ _ _ _ _ _) as [[mz ez] lz].
apply binary_round_aux_sign.
Qed.

(** A [double] with a negative sign is above no limit that is not
    negative. *)
Lemma double_gtb_negative x limit :
  sign_or_nan true x -> (0 <= limit)%Q -> double_gtb x limit = false.
Proof.
intros Hx Hl. destruct x as [s|s| |s m e]; cbn in Hx; subst; cbn; auto.
- apply Qgtb_false_iff. exact Hl.
- apply Qgtb_false_iff.
  assert (Hp : (0 < inject_Z (Z.pos m) * Qpower 2 e)%Q).
  { apply Qmult_lt_0_compat; [reflexivity|].
    apply Qpower_0_lt. reflexivity. }
  lra.
Qed.

(** A burst whose decoder box hands out a frame at every call, and whose
    frame times from [frameOffset] on are all within the limit, never
    returns. *)
Lemma TranscodeVideo_loop_never w su limitTime :
  (forall calls pts, decoderBox_GetFrame w calls pts = 0) ->
  forall fuel v,
    (forall i, frameOffset v <= i ->
               double_gtb (frameTime w i) limitTime = false) ->
    TranscodeVideo_loop fuel w su limitTime v = None.
Proof.
intros Hbox. induction fuel as [|fuel IH]; intros v Hv; [reflexivity|].
cbn [TranscodeVideo_loop]. rewrite Hbox. cbn [Z.eqb negb].
rewrite (Hv (frameOffset v)) by lia.
rewrite IH; [reflexivity|]. cbn [frameOffset]. intros i Hi. apply Hv. lia.
Qed.

(** With a frame size of 0 the loop that takes frames from the resampler
    never ends: a request for 0 samples is always met. *)
Lemma EncodeResampled_never w su :
  audioEncoder_frameSize w = 0 ->
  forall fuel a, 0 <= resampleBuffered a ->
                 EncodeResampled fuel w su a = None.
Proof.
intros Hfs. induction fuel as [|fuel IH]; intros a Ha; [reflexivity|].
cbn [EncodeResampled]. unfold resample_GetFrame. rewrite Hfs.
apply Z.leb_le in Ha. rewrite Ha. apply Z.leb_le in Ha.
cbn [EncodeAudio]. rewrite IH; [reflexivity|]. cbn [resampleBuffered]. lia.
Qed.

(** A run that transcodes video at a negative frame rate from a decoder box
    that hands out a frame at every call never returns. *)
Lemma Transcode_never_at_negative_rate w :
  careVideo (params w) = true ->
  sign_or_nan true (fps (params w)) ->
  (forall calls pts, decoderBox_GetFrame w calls pts = 0) ->
  0 < frameCount (fst (prepare w)) ->
  forall fuel, Transcode fuel w = None.
Proof.
intros Cv Hfps Hbox Hcount fuel. unfold Transcode.
destruct (prepare w) as [su evp]. cbn [fst] in Hcount.
destruct fuel as [|fuel]; [reflexivity|].
cbn [MainLoop]. rewrite Cv. unfold TranscodeVideo. cbn [frameOffset].
destruct (frameCount su <=? 0) eqn:E; [apply Z.leb_le in E; lia|].
rewrite (TranscodeVideo_loop_never w su _ Hbox); [reflexivity|].
cbn [frameOffset]. intros i Hi. apply double_gtb_negative.
- unfold frameTime.
  apply (double_div_sign false true); [now apply double_of_long_sign | exact Hfps].
- discriminate.
Qed.

(** A run that transcodes audio with a frame size of 0 never returns when
    the first packet of the source belongs to the audio stream and holds a
    frame. *)
Lemma Transcode_never_at_frame_size_zero w packet rest samples frames :
  careAudio (params w) = true ->
  audioEncoder_frameSize w = 0 ->
  audioFile w = packet :: rest ->
  source_stream packet = audioStreamIndex w ->
  decoded packet = samples :: frames ->
  0 <= samples ->
  forall fuel, Transcode fuel w = None.
Proof.
intros Ca Hfs Hfile Hstream Hdec Hs fuel. unfold Transcode.
destruct (prepare w) as [su evp] eqn:Ep.
assert (Hidx : decoderAudioStreamIndex su = audioStreamIndex w).
{ unfold prepare in Ep. destruct (InitEncoder w) as [[vi ai] evi].
  injection Ep as <- _. reflexivity. }
destruct fuel as [|fuel]; [reflexivity|].
cbn [MainLoop]. rewrite Ca, Hfile.
destruct (if careVideo (params w) then _ else _) as [[[rv v'] evv]|];
  [|reflexivity].
cbn [TranscodeAudio]. rewrite Hstream, Hidx, Z.eqb_refl. cbn [negb].
rewrite Hdec. cbn [ResampleFrames].
rewrite (EncodeResampled_never w su Hfs); [reflexivity|].
cbn [resampleBuffered]. lia.
Qed.

End Divergence.

(** ** Order of the writer calls, and the return value *)

Section WriterOrder.
Import AV Transcode.

(** C7: in every completed run of [Transcode] the writer receives [Open],
    the [AddStream] calls, [WriteHand], then packet writes only, then
    [WriteTrailer] and last [Close]: the header precedes every packet
    write, the trailer precedes the close, and both end every run. *)
Theorem writer_call_order fuel w o :
  Transcode fuel w = Some o ->
  exists k n,
    writer_calls (trace o)
    = CallOpen :: repeat CallAddStream k
      ++ CallWriteHand :: repeat CallWritePacket n
      ++ [CallWriteTrailer; CallClose].
Proof.
intros H. apply Transcode_trace in H as (_ & _ & body & Htr & Hbody).
destruct (prepare_events w) as (k & Hprep & _).
apply body_writer_calls in Hbody as (n & Hn).
exists k, n. rewrite Htr, !writer_calls_app, Hprep, Hn.
cbn [app]. rewrite <- app_assoc. reflexivity.
Qed.

(** The theorem at the sample run. *)
Lemma writer_call_order_witness :
  exists o, Transcode 100 sample_world = Some o /\
  exists k n,
    writer_calls (trace o)
    = CallOpen :: repeat CallAddStream k
      ++ CallWriteHand :: repeat CallWritePacket n
      ++ [CallWriteTrailer; CallClose].
Proof.
destruct (Transcode 100 sample_world) as [o|] eqn:E.
- exists o. split; [reflexivity|].
  exact (writer_call_order 100 sample_world o E).
- vm_compute in E. discriminate E.
Defined.

(** C10, the claim as stated fails: there are inputs for which [Transcode]
    does not return.  When the audio encoder could not be opened its frame
    size is 0, and the loop that takes frames of that size from the
    resampler never ends; at -30 frames per second, with a decoder box that
    hands out a frame at every call, no frame time gets above the limit of
    the first burst.  Neither run returns, whatever the fuel. *)
Lemma Transcode_does_not_always_return :
  encoder_Init unopened_audio_world Audio = -1 /\
  audioEncoder_frameSize unopened_audio_world = 0 /\
  (forall fuel, Transcode fuel unopened_audio_world = None) /\
  (forall fuel, Transcode fuel backwards_world = None) /\
  ~ (forall w, exists fuel o, Transcode fuel w = Some o /\ ret o = 0).
Proof.
assert (H1 : forall fuel, Transcode fuel unopened_audio_world = None).
{ apply (Transcode_never_at_frame_size_zero unopened_audio_world
           (mkSourcePacket 1 [1024; 1024])
           [mkSourcePacket 0 []; mkSourcePacket 1 [1024]] 1024 [1024]);
    try reflexivity. discriminate. }
assert (H2 : forall fuel, Transcode fuel backwards_world = None).
{ apply Transcode_never_at_negative_rate; reflexivity. }
repeat split; auto.
intros H. destruct (H backwards_world) as (fuel & o & Ho & _).
rewrite H2 in Ho. discriminate Ho.
Qed.

(** At 0 frames per second the run does return: the first frame time is
    not a number, the second is infinite and above every limit. *)
Lemma still_world_returns :
  frameTime still_world 0 = S754_nan /\
  frameTime still_world 1 = S754_infinity false /\
  option_map (fun o => (ret o, frameOffset (video o)))
    (Transcode 100 still_world) = Some (0, 2).
Proof. repeat split; vm_compute; reflexivity. Qed.

(** C10, amended: [Transcode] has no return value other than 0, whatever
    the writer, the encoders and the decoders answer; and the run does
    return, with 0, when some frame index at or after the last frame has a
    time above the limit of the last round the loop can need (if video is
    transcoded) and the audio encoder's frame size is positive (if audio
    is). *)
Theorem Transcode_returns_zero w :
  (forall fuel o, Transcode fuel w = Some o -> ret o = 0) /\
  ((careVideo (params w) = true ->
    passes_limit w (frameCount (fst (prepare w)) - 1)
      (last_limit w (fst (prepare w)))) ->
   (careAudio (params w) = true -> 0 < audioEncoder_frameSize w) ->
   exists fuel o, Transcode fuel w = Some o /\ ret o = 0).
Proof.
split.
- intros fuel o H. now apply Transcode_trace in H.
- intros Hv Ha. destruct (Transcode_converges w Hv Ha) as (N & o & HN).
  exists N, o. split; [apply HN; lia|].
  specialize (HN N (Nat.le_refl _)). now apply Transcode_trace in HN.
Qed.

(** The theorem at the sample run: 30 frames per second, where the frame
    of index 106 has a time above the last limit of 3.5 seconds, and audio
    frames of 1152 samples. *)
Lemma Transcode_returns_zero_witness :
  exists fuel o, Transcode fuel sample_world = Some o /\ ret o = 0.
Proof.
apply (Transcode_returns_zero sample_world).
- intros _. exists 106. split; [|vm_compute; reflexivity].
  split; [vm_compute; discriminate | reflexivity].
- intros _. reflexivity.
Defined.

End WriterOrder.

(** ** The total number of frames *)

Section FrameTotal.
Import AV Transcode.

Lemma Qtruncate_nonneg x : (0 <= x)%Q -> Qtruncate x = Qfloor x.
Proof.
destruct x as [n d]. unfold Qle, Qtruncate, Qfloor. cbn.
intros H. apply Z.quot_div_nonneg; lia.
Qed.

Lemma Qtruncate_neg x : (x < 0)%Q -> Qtruncate x <= 0 /\ Qfloor x < 0.
Proof.
destruct x as [n d]. unfold Qlt, Qtruncate, Qfloor. cbn.
intros H. split.
- replace n with (- (- n)) by lia. rewrite Z.quot_opp_l by lia.
  pose proof (Z.quot_pos (- n) (Z.pos d)). lia.
- apply Z.div_lt_upper_bound; lia.
Qed.

(** [totalFrames] is the converted product, at least 1. *)
Lemma totalFrames_max d f :
  totalFrames d f = Z.max 1 (double_to_long (double_mul d f)).
Proof.
unfold totalFrames.
destruct (_ <=? 0) eqn:E; [apply Z.leb_le in E | apply Z.leb_gt in E]; lia.
Qed.

(** Cutting the fraction off and taking at least 1 is taking the floor and
    at least 1. *)
Lemma truncate_max x : Z.max 1 (Qtruncate x) = Z.max 1 (Qfloor x).
Proof.
destruct (Qlt_le_dec x 0) as [Hneg | Hpos].
- apply Qtruncate_neg in Hneg as [Ht Hf]. lia.
- now rewrite (Qtruncate_nonneg _ Hpos).
Qed.

(** The duration kept by [InitDeocder] has no negative sign. *)
Lemma InitDeocder_videoDuration_sign w :
  sign_or_nan false (InitDeocder_videoDuration w).
Proof.
unfold InitDeocder_videoDuration, double_leb, SFleb, double_zero.
destruct (videoStreamDuration w) as [s|[|]| |[|] m e]; cbn; auto.
Qed.

(** Rounding to nearest is the floor or one more. *)
Lemma spec_round_floor x : Qfloor x <= spec_round x <= Qfloor x + 1.
Proof.
unfold spec_round. split.
- apply Qfloor_resp_le. rewrite <- (Qplus_0_r x) at 1.
  apply Qplus_le_r. discriminate.
- assert (H : (x + (1 # 2) <= inject_Z (Qfloor x + 1) + (1 # 2))%Q).
  { apply Qplus_le_l. apply Qlt_le_weak, Qlt_floor. }
  apply Qfloor_resp_le in H.
  assert (H2 : (inject_Z (Qfloor x + 1) + (1 # 2) <= inject_Z (Qfloor x + 1 + 1))%Q).
  { rewrite (inject_Z_plus (Qfloor x + 1) 1). apply Qplus_le_r. discriminate. }
  apply Qfloor_resp_le in H2. rewrite Qfloor_Z in H2.
  destruct (Z_le_gt_dec (Qfloor (x + (1 # 2))) (Qfloor x + 1)) as [Hle | Hgt]; auto.
  exfalso.
  assert (H3 : (inject_Z (Qfloor x + 2) <= x + (1 # 2))%Q).
  { eapply Qle_trans; [|apply Qfloor_le]. rewrite <- Zle_Qle. lia. }
  assert (H4 : (x + (1 # 2) < inject_Z (Qfloor x + 1) + (1 # 2))%Q).
  { apply Qplus_lt_l. apply Qlt_floor. }
  assert (H5 : (inject_Z (Qfloor x + 1) + (1 # 2) < inject_Z (Qfloor x + 2))%Q).
  { replace (Qfloor x + 2) with (Qfloor x + 1 + 1) by lia.
    rewrite (inject_Z_plus (Qfloor x + 1) 1). apply Qplus_lt_r. reflexivity. }
  eapply Qlt_irrefl. eapply Qle_lt_trans; [exact H3|].
  eapply Qlt_trans; eauto.
Qed.

(** C3, the claim as stated fails: for a video stream of 1/8 second at 30
    frames per second the product is 3.75, in [double] as well; the run
    computes 3 frames, rounding gives 4. *)
Lemma frameCount_is_not_rounded :
  (double_value (InitDeocder_videoDuration sample_world) == 1 # 8)%Q /\
  (double_value (fps (params sample_world)) == 30)%Q /\
  (double_value (double_mul (InitDeocder_videoDuration sample_world)
                   (fps (params sample_world))) == 15 # 4)%Q /\
  frameCount (fst (prepare sample_world)) = 3 /\
  spec_totalFrames (1 # 8) 30 = 4.
Proof. repeat split; vm_compute; reflexivity. Qed.

(** The product is the rounded one: 0.3 seconds at 30 frames per second
    make 9 frames, although the [double] next to 0.3 is below it; 4.1
    seconds make 122 frames, the product being rounded to the [double]
    below 123. *)
Lemma totalFrames_of_rounded_products :
  totalFrames (double_div (double_of_long 3) (double_of_long 10))
    (double_of_long 30) = 9 /\
  (double_value (double_div (double_of_long 3) (double_of_long 10)) * 30
     < 9)%Q /\
  totalFrames (double_div (double_of_long 41) (double_of_long 10))
    (double_of_long 30) = 122 /\
  spec_totalFrames (41 # 10) 30 = 123.
Proof. repeat split; vm_compute; reflexivity. Qed.

(** C3, amended: when the source has a video stream, the total computed
    before the main loop is at least 1, and, the product of the duration in
    seconds (taken as 0 when not positive) and the frame rate being formed
    in [double] and within the range of the integer, it is that product
    with its fraction cut off, and 1 when that is not positive; it is that
    product rounded, or one less. *)
Theorem frameCount_is_truncated_product w :
  0 <= videoStreamIndex w ->
  let d := InitDeocder_videoDuration w in
  let p := double_mul d (fps (params w)) in
  let total := frameCount (fst (prepare w)) in
  sign_or_nan false d /\
  1 <= total /\
  (double_fits_long p = true ->
   total = Z.max 1 (Qtruncate (double_value p)) /\
   Z.max 1 (spec_round (double_value p)) - 1 <= total
     <= Z.max 1 (spec_round (double_value p))).
Proof.
intros Hidx d p total. subst d p total.
assert (Htotal : frameCount (fst (prepare w))
                 = totalFrames (InitDeocder_videoDuration w) (fps (params w))).
{ unfold prepare. destruct (InitEncoder w) as [[vi ai] evi]. cbn [fst frameCount].
  apply Z.leb_le in Hidx. now rewrite Hidx. }
rewrite Htotal, totalFrames_max.
split; [apply InitDeocder_videoDuration_sign|]. split; [lia|].
intros Hfits. unfold double_to_long. rewrite Hfits.
split; [reflexivity|]. rewrite truncate_max.
pose proof (spec_round_floor
              (double_value (double_mul (InitDeocder_videoDuration w)
                                        (fps (params w))))).
lia.
Qed.

(** In the sample run the total is 3, and 17 frames are sent to the video
    encoder: a burst looks at the total only when it is entered. *)
Lemma sample_run_sends_more_frames_than_total :
  option_map (fun o => (frameCount (setup o), length (sent Video (trace o))))
    (Transcode 100 sample_world) = Some (3, 17%nat).
Proof. vm_compute. reflexivity. Qed.

(** The theorem at the sample run, whose source has a video stream and
    whose product, 3.75, is within the range. *)
Lemma frameCount_is_truncated_product_witness :
  frameCount (fst (prepare sample_world))
  = Z.max 1 (Qtruncate
               (double_value
                  (double_mul (InitDeocder_videoDuration sample_world)
                              (fps (params sample_world))))).
Proof.
apply (frameCount_is_truncated_product sample_world).
- vm_compute. discriminate.
- vm_compute. reflexivity.
Defined.

End FrameTotal.

(** ** The video burst against its limit *)

Section BurstLimit.
Import AV Transcode.

(** C6, the claim as stated fails: at 30 frames per second the first burst
    (limit 1/2 second) sends the frames of the indices 0 to 16; index 16 has
    a time above the limit (the [double] next to 16/30), yet its frame is
    encoded, with the time stamp 533, and [frameOffset] moves on to 17; and
    the burst returns 0, not done, although [frameOffset] has passed the
    total of 3 frames. *)
Lemma first_burst_passes_limit :
  let su := fst (prepare sample_world) in
  exists v' ev,
    TranscodeVideo 20 sample_world su (1 # 2) (mkVideo 0 [] 0) = Some (0, v', ev) /\
    frameCount su = 3 /\ frameOffset v' = 17 /\
    framePts sample_world 16 = 533 /\
    In (EncoderSendFrame Video (framePts sample_world 16)) ev /\
    double_gtb (frameTime sample_world 16) (1 # 2) = true /\
    ((1 # 2) < double_value (frameTime sample_world 16))%Q /\
    ~ (forall i, 0 <= i < frameOffset v' ->
                 double_gtb (frameTime sample_world i) (1 # 2) = false) /\
    ~ (0 = -1 <-> frameCount su <= frameOffset v').
Proof.
cbv zeta.
destruct (TranscodeVideo 20 sample_world (fst (prepare sample_world)) (1 # 2)
            (mkVideo 0 [] 0)) as [[[r v'] ev]|] eqn:E.
- vm_compute in E. injection E as <- <- <-.
  eexists. eexists. split; [reflexivity|].
  split; [vm_compute; reflexivity|]. split; [reflexivity|].
  split; [vm_compute; reflexivity|].
  split; [vm_compute; tauto|]. split; [vm_compute; reflexivity|].
  split; [vm_compute; reflexivity|]. split.
  + intros H. specialize (H 16 ltac:(cbn; lia)). vm_compute in H.
    discriminate H.
  + intros [_ H]. assert (Hc : 0 = -1) by (apply H; vm_compute; discriminate).
    discriminate Hc.
- vm_compute in E. discriminate E.
Qed.

(** The time stamps are those of the [double] computation: at 25 frames
    per second the frame of index 201 is stamped 8039, not 8040, and at 30
    frames per second the frame of index 969 is stamped 32299, not 32300. *)
Lemma framePts_is_computed_in_double :
  framePts pal_world 201 = 8039 /\
  Qtruncate (201 / 25 * 1000) = 8040 /\
  framePts sample_world 969 = 32299 /\
  Qtruncate (969 / 30 * 1000) = 32300.
Proof. repeat split; vm_compute; reflexivity. Qed.

(** A burst at 25 frames per second with a limit of 8 seconds, from a
    decoder box that hands out a frame at every call: it sends the frames of
    the indices 0 to 201 and stamps the last one 8039. *)
Lemma burst_at_25_frames_per_second :
  let w := with_decoderBox (fun _ _ => 0) pal_world in
  option_map (fun res => (fst (fst res), frameOffset (snd (fst res)),
                          last (sent Video (snd res)) 0))
    (TranscodeVideo 300 w (fst (prepare w)) (8 # 1) (mkVideo 0 [] 0))
  = Some (0, 202, 8039).
Proof. vm_compute. reflexivity. Qed.

(** The limits of the sample run, multiples of 0.5, compare with the frame
    times as the [double]s they are. *)
Lemma limit_comparison_in_double :
  forallb (fun k =>
    forallb (fun i =>
      Bool.eqb (double_gtb (frameTime sample_world i) (inject_Z k * (1 # 2)))
               (SFltb (double_div (double_of_long k) (double_of_long 2))
                      (frameTime sample_world i)))
      (indices 0 200))
    (indices 1 10) = true.
Proof. vm_compute. reflexivity. Qed.

(** C6, amended: a burst sends the frames of consecutive indices, from
    [frameOffset] on entry up to [frameOffset] on return, each stamped with
    its time in milliseconds as computed in [double].  It returns 0 only
    when entered below the total, and then the last index sent is the first
    one whose time is above the limit: that frame is encoded and
    [frameOffset] moves past it, all earlier indices are within the limit.
    It returns -1 when [frameOffset] has reached the total on entry (nothing
    is sent) or when a frame cannot be fetched; all indices sent are then
    within the limit.  The burst does return when some index from
    [frameOffset] on has a time above the limit. *)
Theorem video_burst w su limitTime v :
  (passes_limit w (frameOffset v) limitTime ->
   exists fuel res, TranscodeVideo fuel w su limitTime v = Some res) /\
  (forall fuel r v' ev,
     TranscodeVideo fuel w su limitTime v = Some (r, v', ev) ->
     frameOffset v <= frameOffset v' /\
     sent Video ev
       = map (framePts w) (indices (frameOffset v)
                             (Z.to_nat (frameOffset v' - frameOffset v))) /\
     (r = 0 /\ frameOffset v < frameCount su /\
      frameOffset v < frameOffset v' /\
      double_gtb (frameTime w (frameOffset v' - 1)) limitTime = true /\
      (forall i, frameOffset v <= i < frameOffset v' - 1 ->
                 double_gtb (frameTime w i) limitTime = false)
      \/
      r = -1 /\
      (forall i, frameOffset v <= i < frameOffset v' ->
                 double_gtb (frameTime w i) limitTime = false) /\
      (frameCount su <= frameOffset v /\ v' = v
       \/
       frameOffset v < frameCount su /\
       decoderBox_GetFrame w (pred (boxCalls v'))
         (frameTime w (frameOffset v')) <> 0))).
Proof.
split.
- intros Hpass.
  destruct (TranscodeVideo_converges w su limitTime v (fun _ => Hpass))
    as (N & res & HN).
  exists N, res. apply HN. lia.
- intros fuel r v' ev. unfold TranscodeVideo.
  destruct (frameCount su <=? frameOffset v) eqn:Hdone.
  + intros H. injection H as <- <- <-. apply Z.leb_le in Hdone.
    split; [lia|]. rewrite Z.sub_diag. split; [reflexivity|].
    right. split; [reflexivity|]. split; [intros i Hi; lia|]. left. auto.
  + intros H. apply Z.leb_gt in Hdone.
    apply TranscodeVideo_loop_spec in H as (Hle & Hsent & Hcase).
    split; [exact Hle|]. split; [exact Hsent|].
    destruct Hcase as [(-> & Hlt & Hover & Hin) | (-> & Hin & Hfail)].
    * left. auto.
    * right. split; [reflexivity|]. split; [exact Hin|]. right. auto.
Qed.

(** The theorem at the first burst of the sample run, where the frame of
    index 16 has a time above the limit of 1/2 second. *)
Lemma video_burst_witness :
  exists fuel res,
    TranscodeVideo fuel sample_world (fst (prepare sample_world)) (1 # 2)
      (mkVideo 0 [] 0) = Some res.
Proof.
apply (video_burst sample_world (fst (prepare sample_world)) (1 # 2)
         (mkVideo 0 [] 0)).
exists 16. split; [cbn; lia | vm_compute; reflexivity].
Defined.

End BurstLimit.

(** ** The end-of-stream flush of the audio side *)

Section AudioFlush.
Import AV Transcode.

Lemma sent_repeat_GetFrame who r k : sent who (repeat (ResampleGetFrame r) k) = [].
Proof. induction k as [|k IH]; cbn; auto. Qed.

(** C1, the claim as stated fails: with 200 samples left in the resampler
    (less than a frame of 1152) and [audioOffset] at 1152, [GetLastFrame]
    yields the short frame and it is given [pts] 1152; but [audioOffset] is
    advanced to 2304, and no frame is sent to the audio encoder before
    [SendFrameNull]. *)
Lemma remainder_frame_advances_offset_and_is_dropped :
  let su := fst (prepare sample_world) in
  let a := mkAudio 1152 100 [0] true in
  exists a' ev,
    FlushAudio 5 sample_world su a = Some (a', ev) /\
    In (ResampleGetLastFrame 0) ev /\
    In (FrameSetPTS 1152) ev /\
    audioOffset a' = 2304 /\
    audioOffset a' <> audioOffset a /\
    sent Audio ev = [] /\
    ~ In (EncoderSendFrame Audio 1152) ev.
Proof.
cbv zeta.
destruct (FlushAudio 5 sample_world (fst (prepare sample_world))
            (mkAudio 1152 100 [0] true)) as [[a' ev]|] eqn:E.
- vm_compute in E. injection E as <- <-.
  eexists. eexists. split; [reflexivity|].
  split; [cbn; tauto|]. split; [cbn; tauto|]. split; [reflexivity|].
  split; [cbn; discriminate|]. split; [reflexivity|].
  cbn. intros [H | [H | [H | [H | [H | []]]]]]; discriminate H.
- vm_compute in E. discriminate E.
Qed.

(** C1, amended: when audio is transcoded and has an output stream, the
    flush puts the null frame into the resampler, takes full frames until
    [GetFrame] fails, and calls [GetLastFrame] once.  If that yields a
    frame, the frame is given [pts = audioOffset] and [audioOffset] is
    advanced by the encoder's frame size.  Then the encoder receives
    [SendFrameNull] and its packets are written.  The flush sends no frame
    to the encoder.  (The encoder's frame size is positive, else the
    loop over [GetFrame] has no end.) *)
Theorem audio_flush w su a :
  careAudio (params w) = true ->
  0 <= encoderAudioStreamIndex su ->
  0 < audioEncoder_frameSize w ->
  (exists fuel res, FlushAudio fuel w su a = Some res) /\
  (forall fuel a' ev,
     FlushAudio fuel w su a = Some (a', ev) ->
     exists k last,
       ev = ResamplePutAVFrameNULL
            :: repeat (ResampleGetFrame 0) k
            ++ ResampleGetFrame (-1)
            :: last
            ++ EncoderSendFrameNull Audio
            :: DrainEncoder w su Audio (encoder_tail w Audio (audioSent a)) /\
       (last = [ResampleGetLastFrame 0; FrameSetPTS (audioOffset a)] /\
        audioOffset a' = audioOffset a + audioEncoder_frameSize w
        \/
        last = [ResampleGetLastFrame (-1)] /\ audioOffset a' = audioOffset a) /\
       sent Audio ev = [] /\
       audioSent a' = audioSent a).
Proof.
intros Hcare Hidx Hfs. split.
- destruct (FlushAudio_converges w su (fun _ => Hfs) a) as (N & res & HN).
  exists N, res. apply HN. lia.
- intros fuel a' ev. unfold FlushAudio. rewrite Hcare.
  apply Z.leb_le in Hidx. rewrite Hidx.
  destruct (DropResampled fuel w _) as [[b evd]|] eqn:E; [|discriminate].
  apply DropResampled_shape in E as (k & -> & _ & _).
  assert (Hsent : forall last,
            sent Audio last = [] ->
            sent Audio (ResamplePutAVFrameNULL
                        :: (repeat (ResampleGetFrame 0) k ++ [ResampleGetFrame (-1)])
                        ++ last
                        ++ EncoderSendFrameNull Audio
                        :: DrainEncoder w su Audio
                             (encoder_tail w Audio (audioSent a))) = []).
  { intros last Hl.
    change (sent Audio (ResamplePutAVFrameNULL :: ?l)) with (sent Audio l).
    rewrite !sent_app, sent_repeat_GetFrame, Hl.
    change (sent Audio (EncoderSendFrameNull Audio :: ?l)) with (sent Audio l).
    rewrite sent_DrainEncoder. reflexivity. }
  destruct (resample_GetLastFrame b) as [remaining|]; intros H;
    injection H as <- <-.
  + exists k, [ResampleGetLastFrame 0; FrameSetPTS (audioOffset a)].
    split; [rewrite <- app_assoc; reflexivity|].
    split; [left; split; reflexivity|]. split; [|reflexivity].
    apply (Hsent [ResampleGetLastFrame 0; FrameSetPTS (audioOffset a)]).
    reflexivity.
  + exists k, [ResampleGetLastFrame (-1)].
    split; [rewrite <- app_assoc; reflexivity|].
    split; [right; split; reflexivity|]. split; [|reflexivity].
    apply (Hsent [ResampleGetLastFrame (-1)]). reflexivity.
Qed.

(** The theorem at the sample run with 100 samples left in the resampler. *)
Lemma audio_flush_witness :
  exists fuel res,
    FlushAudio fuel sample_world (fst (prepare sample_world))
      (mkAudio 1152 100 [0] true) = Some res.
Proof.
apply (audio_flush sample_world (fst (prepare sample_world))
         (mkAudio 1152 100 [0] true)).
- reflexivity.
- vm_compute. discriminate.
- reflexivity.
Defined.

End AudioFlush.

(** ** Time stamps of the packets written *)

Section MuxedTimestamps.
Import AV Transcode.

Lemma av_rescale_q_monotone bq cq x y :
  x <= y -> av_rescale_q x bq cq <= av_rescale_q y bq cq.
Proof.
intros Hxy. unfold av_rescale_q.
set (b := num bq * den cq). set (c := num cq * den bq).
destruct (c <=? 0) eqn:Hc; [cbn; lia|].
destruct (b <? 0) eqn:Hb; [cbn; lia|]. cbn [orb].
apply Z.leb_gt in Hc. apply Z.ltb_ge in Hb.
assert (Hh : 0 <= c / 2) by (apply Z.div_pos; lia).
destruct (0 <=? x) eqn:Hx; destruct (0 <=? y) eqn:Hy.
- apply Z.div_le_mono; [lia|]. apply Z.leb_le in Hx. nia.
- apply Z.leb_le in Hx. apply Z.leb_gt in Hy. lia.
- apply Z.leb_gt in Hx. apply Z.leb_le in Hy.
  assert (0 <= (- x * b + c / 2) / c) by (apply Z.div_pos; nia).
  assert (0 <= (y * b + c / 2) / c) by (apply Z.div_pos; nia).
  lia.
- apply Z.leb_gt in Hx, Hy.
  assert ((- y * b + c / 2) / c <= (- x * b + c / 2) / c)
    by (apply Z.div_le_mono; [lia | nia]).
  lia.
Qed.

Lemma nondecreasing_map (f : Z -> Z) l :
  (forall x y, x <= y -> f x <= f y) ->
  nondecreasing l -> nondecreasing (map f l).
Proof.
intros Hf. induction l as [|x [|y l] IH]; cbn [map nondecreasing]; auto.
intros [Hxy Hrest]. split; [now apply Hf | now apply IH].
Qed.

Lemma dts_finalise w su who p :
  dts (finalise w su who p)
  = if dts p =? AV_NOPTS_VALUE then dts p
    else rescale w (dts p) (encoder_timebase w who)
           (writer_timebase w (encoderStreamIndex su who)).
Proof. reflexivity. Qed.

Lemma dts_finalise_set w su who l :
  Forall (fun p => dts p <> AV_NOPTS_VALUE) l ->
  map dts (map (finalise w su who) l)
  = map (fun d => rescale w d (encoder_timebase w who)
                    (writer_timebase w (encoderStreamIndex su who)))
        (map dts l).
Proof.
induction 1 as [|p l Hp _ IH]; [reflexivity|].
cbn [map]. rewrite IH, dts_finalise.
apply Z.eqb_neq in Hp. now rewrite Hp.
Qed.

(** C2, the claim as stated fails: video at 50 frames per second into a
    stream with time base 1/25.  The encoder returns packets with [dts] 0,
    20 and 40 (in 1/1000); rescaled they are 0, 1 and 1.  The third is not
    above the last written one, and it is written as 1, not as 2. *)
Lemma equal_dts_is_written_unchanged :
  exists o,
    Transcode 10 coarse_writer_world = Some o /\
    map dts (received Video (trace o)) = [0; 20; 40] /\
    map dts (written Video (trace o)) = [0; 1; 1] /\
    spec_enforce_dts None
      (map (fun d => av_rescale_q d (mkRational 1 1000) (mkRational 1 25))
           [0; 20; 40]) = [0; 1; 2].
Proof.
destruct (Transcode 10 coarse_writer_world) as [o|] eqn:E.
- vm_compute in E. injection E as <-. eexists. split; [reflexivity|].
  repeat split; vm_compute; reflexivity.
- vm_compute in E. discriminate E.
Qed.

(** C2, amended: in a completed run every packet written for a pipeline is
    the packet its encoder returned, with the stream index of the pipeline
    and with [dts] rescaled from the encoder's time base to the time base of
    the output stream (an unset [dts] stays unset); nothing else is done to
    it, so a [dts] not above the one written before it is written as it is.
    Hence the [dts] written for a pipeline do not decrease as long as those
    of its encoder do not decrease and rescaling keeps the order, which
    [av_rescale_q] does. *)
Theorem muxed_dts_is_rescaled_encoder_dts fuel w o :
  Transcode fuel w = Some o ->
  forall who,
    let su := setup o in
    let tbe := encoder_timebase w who in
    let tbw := writer_timebase w (encoderStreamIndex su who) in
    written who (trace o)
      = map (finalise w su who) (received who (trace o)) /\
    (forall p, stream_index (finalise w su who p) = encoderStreamIndex su who /\
               dts (finalise w su who p)
               = if dts p =? AV_NOPTS_VALUE then dts p
                 else rescale w (dts p) tbe tbw) /\
    ((forall x y, x <= y -> rescale w x tbe tbw <= rescale w y tbe tbw) ->
     Forall (fun p => dts p <> AV_NOPTS_VALUE) (received who (trace o)) ->
     nondecreasing (map dts (received who (trace o))) ->
     nondecreasing (map dts (written who (trace o)))) /\
    (forall x y, x <= y -> av_rescale_q x tbe tbw <= av_rescale_q y tbe tbw).
Proof.
intros H who su tbe tbw. subst su tbe tbw.
apply Transcode_trace in H as (_ & Hsu & body & Htr & Hbody).
destruct (prepare_events w) as (k & _ & Hprep).
destruct (Hprep who) as [Hrec Hwri].
assert (Hw : written who (trace o)
             = map (finalise w (setup o) who) (received who (trace o))).
{ rewrite Htr, !written_app, !received_app, Hrec, Hwri.
  rewrite (body_written w (setup o) who body Hbody).
  cbn [app]. rewrite !app_nil_r. reflexivity. }
split; [exact Hw|]. split; [intros p; split; reflexivity|]. split.
- intros Hmono Hset Hnd. rewrite Hw, dts_finalise_set by exact Hset.
  now apply nondecreasing_map.
- intros x y. apply av_rescale_q_monotone.
Qed.

(** The theorem at the sample run, for the video pipeline. *)
Lemma muxed_dts_is_rescaled_encoder_dts_witness :
  exists o, Transcode 100 sample_world = Some o /\
    written Video (trace o)
    = map (finalise sample_world (setup o) Video) (received Video (trace o)).
Proof.
destruct (Transcode 100 sample_world) as [o|] eqn:E.
- exists o. split; [reflexivity|].
  apply (muxed_dts_is_rescaled_encoder_dts 100 sample_world o E Video).
- vm_compute in E. discriminate E.
Defined.

End MuxedTimestamps.

(** ** The rounds of the main loop *)

Section LoopRounds.
Import AV Transcode.

Variable w : World.
Variable su : Setup.

Lemma samples_put_app l1 l2 :
  samples_put (l1 ++ l2) = samples_put l1 + samples_put l2.
Proof.
induction l1 as [|e l1 IH]; [reflexivity|].
destruct e; cbn [samples_put app]; rewrite ?IH; lia.
Qed.

Lemma nulls_app who l1 l2 :
  nulls who (l1 ++ l2) = (nulls who l1 + nulls who l2)%nat.
Proof.
induction l1 as [|e l1 IH]; [reflexivity|].
destruct e; cbn [nulls app]; rewrite ?IH; try reflexivity.
destruct (pipeline_eqb who who0); cbn; now rewrite ?IH.
Qed.

Lemma progression_app start step n m :
  progression start step (n + m)
  = progression start step n
    ++ progression (start + Z.of_nat n * step) step m.
Proof.
revert start. induction n as [|n IH]; intros start.
- cbn. f_equal. lia.
- cbn [Nat.add progression app]. rewrite IH. do 3 f_equal. lia.
Qed.

Lemma indices_app lo n m :
  indices lo (n + m) = indices lo n ++ indices (lo + Z.of_nat n) m.
Proof.
revert lo. induction n as [|n IH]; intros lo.
- cbn. f_equal. lia.
- cbn [Nat.add indices app]. rewrite IH. do 3 f_equal. lia.
Qed.

(** *** The events of each side *)

Lemma DrainEncoder_video ready :
  Forall (video_event w su) (DrainEncoder w su Video ready).
Proof. induction ready; cbn; constructor; auto. reflexivity. Qed.

Lemma DrainEncoder_audio ready :
  Forall (audio_event w su) (DrainEncoder w su Audio ready).
Proof. induction ready; cbn; constructor; auto. reflexivity. Qed.

Lemma TranscodeVideo_loop_events fuel limitTime : forall v r v' ev,
  TranscodeVideo_loop fuel w su limitTime v = Some (r, v', ev) ->
  Forall (video_event w su) ev.
Proof.
induction fuel as [|fuel IH]; intros v r v' ev H; [discriminate|].
cbn [TranscodeVideo_loop] in H.
destruct (negb _).
- injection H as <- <- <-. repeat constructor.
- destruct (double_gtb _ _).
  + injection H as <- <- <-.
    constructor; [exact I|]. constructor; [exact I|]. apply DrainEncoder_video.
  + destruct (TranscodeVideo_loop fuel w su limitTime _)
      as [[[r3 v3] ev3]|] eqn:E2; [|discriminate].
    injection H as <- <- <-.
    constructor; [exact I|]. constructor; [exact I|].
    apply Forall_app. split; [apply DrainEncoder_video | eapply IH; eauto].
Qed.

Lemma TranscodeVideo_events fuel limitTime v r v' ev :
  TranscodeVideo fuel w su limitTime v = Some (r, v', ev) ->
  Forall (video_event w su) ev.
Proof.
unfold TranscodeVideo. destruct (_ <=? _).
- intros H. injection H as <- <- <-. constructor.
- apply TranscodeVideo_loop_events.
Qed.

Lemma EncodeResampled_events fuel : forall a a' ev,
  EncodeResampled fuel w su a = Some (a', ev) -> Forall (audio_event w su) ev.
Proof.
induction fuel as [|fuel IH]; intros a a' ev H; [discriminate|].
cbn [EncodeResampled] in H.
destruct (resample_GetFrame _ _) as [remaining|].
- unfold EncodeAudio in H. cbv zeta in H.
  destruct (EncodeResampled fuel w su _) as [[a3 ev3]|] eqn:Er; [|discriminate].
  injection H as <- <-. constructor; [exact I|]. constructor; [exact I|].
  apply Forall_app. split; [apply DrainEncoder_audio | eapply IH; eauto].
- injection H as <- <-. repeat constructor.
Qed.

Lemma ResampleFrames_events fuel frames : forall a a' ev,
  ResampleFrames fuel w su frames a = Some (a', ev) ->
  Forall (audio_event w su) ev.
Proof.
induction frames as [|n frames IH]; intros a a' ev H; cbn [ResampleFrames] in H.
- injection H as <- <-. constructor.
- destruct (EncodeResampled fuel w su _) as [[a2 ev2]|] eqn:E1; [|discriminate].
  destruct (ResampleFrames fuel w su frames a2) as [[a3 ev3]|] eqn:E2;
    [|discriminate].
  injection H as <- <-. constructor; [exact I|].
  apply Forall_app. split; [eapply EncodeResampled_events | eapply IH]; eauto.
Qed.

Lemma TranscodeAudio_events fuel limitTime file : forall a r file' a' ev,
  TranscodeAudio fuel w su limitTime file a = Some (r, file', a', ev) ->
  Forall (audio_event w su) ev.
Proof.
induction file as [|p file IH]; intros a r file' a' ev H;
  cbn [TranscodeAudio] in H.
- destruct (ResampleFrames fuel w su _ (drained a)) as [[a2 ev2]|] eqn:E1;
    [|discriminate].
  injection H as <- <- <- <-. constructor; [exact I|].
  eapply ResampleFrames_events; eauto.
- destruct (negb _); [eapply IH; eauto|].
  destruct (ResampleFrames fuel w su (decoded p) a) as [[a2 ev2]|] eqn:E1;
    [|discriminate].
  pose proof (ResampleFrames_events _ _ _ _ _ E1) as Hb.
  destruct (Qgtb _ _).
  + injection H as <- <- <- <-. exact Hb.
  + destruct (TranscodeAudio fuel w su limitTime file a2)
      as [[[[r3 f3] a3] ev3]|] eqn:E2; [|discriminate].
    injection H as <- <- <- <-. apply Forall_app. split; auto.
    eapply IH; eauto.
Qed.

(** What the events of one side say to the readings of the other. *)
Lemma video_event_readings ev :
  Forall (video_event w su) ev ->
  sent Audio ev = [] /\ samples_put ev = 0 /\
  (forall who, nulls who ev = O) /\
  Forall (fun e => touches Audio e = false) ev.
Proof.
induction 1 as [|e ev He _ (IH1 & IH2 & IH3 & IH4)].
- repeat split; constructor.
- destruct e; try destruct who; try contradiction He;
    cbn [sent flat_map pipeline_eqb app samples_put nulls];
    (split; [exact IH1|]); (split; [exact IH2|]);
    (split; [exact IH3|]); constructor; auto.
Qed.

Lemma audio_event_readings ev :
  Forall (audio_event w su) ev ->
  sent Video ev = [] /\ (forall who, nulls who ev = O) /\
  Forall (fun e => touches Video e = false) ev.
Proof.
induction 1 as [|e ev He _ (IH1 & IH3 & IH4)].
- repeat split; constructor.
- destruct e; try destruct who; try contradiction He;
    cbn [sent flat_map pipeline_eqb app nulls];
    (split; [exact IH1|]); (split; [exact IH3|]); constructor; auto.
Qed.

End LoopRounds.

(** ** Sample accounting of the audio side *)

Section AudioAccounting.
Import AV Transcode.

Variable w : World.
Variable su : Setup.

Lemma samples_put_DrainEncoder who ready :
  samples_put (DrainEncoder w su who ready) = 0.
Proof. induction ready; cbn; auto. Qed.

(** The loop that takes full frames out of the resampler: [k] frames are
    sent, stamped [audioOffset], [audioOffset + frameSize], ...; each takes
    [frameSize] samples; less than a frame is left. *)
Lemma EncodeResampled_account fuel : forall a a' ev,
  EncodeResampled fuel w su a = Some (a', ev) ->
  exists k : nat,
    sent Audio ev = progression (audioOffset a) (audioEncoder_frameSize w) k /\
    audioOffset a' = audioOffset a + Z.of_nat k * audioEncoder_frameSize w /\
    resampleBuffered a'
      = resampleBuffered a - Z.of_nat k * audioEncoder_frameSize w /\
    audioSent a' = audioSent a ++ sent Audio ev /\
    audioDecoderDrained a' = audioDecoderDrained a /\
    samples_put ev = 0 /\
    resampleBuffered a' < audioEncoder_frameSize w.
Proof.
induction fuel as [|fuel IH]; intros a a' ev H; [discriminate|].
cbn [EncodeResampled] in H. unfold resample_GetFrame in H.
destruct (audioEncoder_frameSize w <=? resampleBuffered a) eqn:Hle.
- unfold EncodeAudio in H. cbv zeta in H.
  cbn [audioOffset resampleBuffered audioSent audioDecoderDrained] in H.
  destruct (EncodeResampled fuel w su _) as [[a3 ev3]|] eqn:Er; [|discriminate].
  injection H as <- <-.
  apply IH in Er as (k & Hs & Ho & Hb & Hsent & Hd & Hp & Hlt).
  cbn [audioOffset resampleBuffered audioSent audioDecoderDrained] in *.
  assert (Hev : sent Audio
                  (ResampleGetFrame 0
                   :: EncoderSendFrame Audio (audioOffset a)
                   :: DrainEncoder w su Audio
                        (encoder_packets w Audio
                           (audioSent a ++ [audioOffset a])) ++ ev3)
                = audioOffset a :: sent Audio ev3).
  { change (ResampleGetFrame 0 :: ?x :: ?d ++ ev3)
      with ([ResampleGetFrame 0; x] ++ d ++ ev3).
    rewrite !sent_app, sent_DrainEncoder. reflexivity. }
  exists (S k). rewrite Hev. cbn [progression].
  split; [now rewrite Hs|]. split; [lia|]. split; [lia|].
  split; [now rewrite Hsent, <- app_assoc|]. split; [exact Hd|].
  split; [|exact Hlt].
  cbn [samples_put app]. now rewrite samples_put_app, samples_put_DrainEncoder.
- injection H as <- <-. exists O. apply Z.leb_gt in Hle.
  cbn. rewrite app_nil_r. repeat split; lia.
Qed.

Lemma ResampleFrames_account fuel frames : forall a a' ev,
  ResampleFrames fuel w su frames a = Some (a', ev) ->
  exists k : nat,
    sent Audio ev = progression (audioOffset a) (audioEncoder_frameSize w) k /\
    audioOffset a' = audioOffset a + Z.of_nat k * audioEncoder_frameSize w /\
    resampleBuffered a' + Z.of_nat k * audioEncoder_frameSize w
      = resampleBuffered a + samples_put ev /\
    audioSent a' = audioSent a ++ sent Audio ev /\
    audioDecoderDrained a' = audioDecoderDrained a /\
    (resampleBuffered a < audioEncoder_frameSize w ->
     resampleBuffered a' < audioEncoder_frameSize w).
Proof.
induction frames as [|n frames IH]; intros a a' ev H; cbn [ResampleFrames] in H.
- injection H as <- <-. exists O. cbn. rewrite app_nil_r. repeat split; auto; lia.
- destruct (EncodeResampled fuel w su _) as [[a2 ev2]|] eqn:E1; [|discriminate].
  destruct (ResampleFrames fuel w su frames a2) as [[a3 ev3]|] eqn:E2;
    [|discriminate].
  injection H as <- <-.
  apply EncodeResampled_account in E1
    as (k1 & Hs1 & Ho1 & Hb1 & Hsent1 & Hd1 & Hp1 & Hlt1).
  apply IH in E2 as (k2 & Hs2 & Ho2 & Hb2 & Hsent2 & Hd2 & Hlt2).
  cbn [audioOffset resampleBuffered audioSent audioDecoderDrained] in *.
  assert (Hev : sent Audio (ResamplePutAVFrame n :: ev2 ++ ev3)
                = sent Audio ev2 ++ sent Audio ev3).
  { change (ResamplePutAVFrame n :: ev2 ++ ev3)
      with ([ResamplePutAVFrame n] ++ ev2 ++ ev3).
    now rewrite !sent_app. }
  exists (k1 + k2)%nat. rewrite Hev, progression_app, Hs1, Hs2, Ho1.
  split; [reflexivity|]. split; [lia|].
  split; [cbn [samples_put]; rewrite samples_put_app; lia|].
  split; [now rewrite Hsent2, Hsent1, Hs1, Hs2, Ho1, <- app_assoc|].
  split; [congruence|]. intros _. apply Hlt2. exact Hlt1.
Qed.

(** One audio burst: the frames sent are stamped in steps of the frame
    size from [audioOffset] on; every sample put into the resampler is in a
    frame sent or still buffered; the resampler never keeps a full frame. *)
Lemma TranscodeAudio_account fuel limitTime file : forall a r file' a' ev,
  TranscodeAudio fuel w su limitTime file a = Some (r, file', a', ev) ->
  exists k : nat,
    sent Audio ev = progression (audioOffset a) (audioEncoder_frameSize w) k /\
    audioOffset a' = audioOffset a + Z.of_nat k * audioEncoder_frameSize w /\
    resampleBuffered a' + Z.of_nat k * audioEncoder_frameSize w
      = resampleBuffered a + samples_put ev /\
    audioSent a' = audioSent a ++ sent Audio ev /\
    (audioDecoderDrained a = true -> audioDecoderDrained a' = true) /\
    (resampleBuffered a < audioEncoder_frameSize w ->
     resampleBuffered a' < audioEncoder_frameSize w).
Proof.
induction file as [|p file IH]; intros a r file' a' ev H;
  cbn [TranscodeAudio] in H.
- destruct (ResampleFrames fuel w su _ (drained a)) as [[a2 ev2]|] eqn:E1;
    [|discriminate].
  injection H as <- <- <- <-.
  apply ResampleFrames_account in E1 as (k & Hs & Ho & Hb & Hsent & Hd & Hlt).
  cbn [drained audioOffset resampleBuffered audioSent audioDecoderDrained] in *.
  exists k. cbn [sent flat_map app samples_put]. fold (sent Audio ev2).
  repeat split; auto.
- destruct (negb _); [eapply IH; eauto|].
  destruct (ResampleFrames fuel w su (decoded p) a) as [[a2 ev2]|] eqn:E1;
    [|discriminate].
  apply ResampleFrames_account in E1
    as (k1 & Hs1 & Ho1 & Hb1 & Hsent1 & Hd1 & Hlt1).
  destruct (Qgtb _ _).
  + injection H as <- <- <- <-. exists k1. repeat split; auto. congruence.
  + destruct (TranscodeAudio fuel w su limitTime file a2)
      as [[[[r3 f3] a3] ev3]|] eqn:E2; [|discriminate].
    injection H as <- <- <- <-.
    apply IH in E2 as (k2 & Hs2 & Ho2 & Hb2 & Hsent2 & Hd2 & Hlt2).
    exists (k1 + k2)%nat. rewrite sent_app, progression_app, Hs1, Hs2, Ho1.
    split; [reflexivity|]. split; [lia|].
    split; [rewrite samples_put_app; lia|].
    split; [now rewrite Hsent2, Hsent1, Hs1, Hs2, Ho1, <- app_assoc|].
    split; [intros Hd; apply Hd2; congruence|]. auto.
Qed.

(** What the return value of an audio burst says: 0 after a packet whose
    last frame moved [audioOffset / 44100] above the limit (or after any
    audio packet when the limit is negative), -1 at the end of the file,
    with the decoder drained.  The packets read are a prefix of the file. *)
Lemma TranscodeAudio_result fuel limitTime file : forall a r file' a' ev,
  TranscodeAudio fuel w su limitTime file a = Some (r, file', a', ev) ->
  (exists read, file = read ++ file') /\
  (r = 0 /\
   ((limitTime < 0)%Q \/
    (limitTime < inject_Z (audioOffset a') / inject_Z 44100)%Q)
   \/
   r = -1 /\ file' = [] /\ audioDecoderDrained a' = true).
Proof.
induction file as [|p file IH]; intros a r file' a' ev H;
  cbn [TranscodeAudio] in H.
- destruct (ResampleFrames fuel w su _ (drained a)) as [[a2 ev2]|] eqn:E1;
    [|discriminate].
  injection H as <- <- <- <-.
  apply ResampleFrames_account in E1 as (k & _ & _ & _ & _ & Hd & _).
  split; [exists []; reflexivity|]. right. auto.
- destruct (negb _).
  + apply IH in H as ((read & ->) & Hr).
    split; [exists (p :: read); reflexivity | exact Hr].
  + destruct (ResampleFrames fuel w su (decoded p) a) as [[a2 ev2]|] eqn:E1;
      [|discriminate].
    destruct (Qgtb _ _) eqn:Hgt.
    * injection H as <- <- <- <-. split; [exists [p]; reflexivity|]. left.
      split; [reflexivity|]. apply Qgtb_true_iff in Hgt.
      unfold lastFrameTime in Hgt. destruct (decoded p); auto.
    * destruct (TranscodeAudio fuel w su limitTime file a2)
        as [[[[r3 f3] a3] ev3]|] eqn:E2; [|discriminate].
      injection H as <- <- <- <-. apply IH in E2 as ((read & ->) & Hr).
      split; [exists (p :: read); reflexivity | exact Hr].
Qed.

End AudioAccounting.

(** ** The whole loop, and the run around it *)

Section LoopAccounting.
Import AV Transcode.

Variable w : World.
Variable su : Setup.

(** One round of the main loop: a video burst (or nothing), the sleep, an
    audio burst (or nothing); the loop ends with the round in which both
    return non-zero. *)
Lemma MainLoop_round fuel limitTime v file a v' file' a' ev :
  MainLoop (S fuel) w su limitTime v file a = Some (v', file', a', ev) ->
  exists rv v1 ev1 ra f1 a1 ev2,
    (careVideo (params w) = true /\
     TranscodeVideo (S fuel) w su (limitTime + (1 # 2))%Q v = Some (rv, v1, ev1)
     \/ careVideo (params w) = false /\ rv = -1 /\ v1 = v /\ ev1 = []) /\
    (careAudio (params w) = true /\
     TranscodeAudio (S fuel) w su (limitTime + (1 # 2))%Q file a
       = Some (ra, f1, a1, ev2)
     \/ careAudio (params w) = false /\ ra = -1 /\ f1 = file /\ a1 = a
        /\ ev2 = []) /\
    (ra <> 0 /\ rv <> 0 /\ v' = v1 /\ file' = f1 /\ a' = a1 /\
     ev = ev1 ++ Sleep :: ev2
     \/
     exists ev3,
       MainLoop fuel w su (limitTime + (1 # 2))%Q v1 f1 a1
         = Some (v', file', a', ev3) /\
       ev = (ev1 ++ Sleep :: ev2) ++ ev3).
Proof.
intros H. cbn [MainLoop] in H.
destruct (if careVideo (params w) then _ else _) as [[[rv v1] ev1]|] eqn:Ev;
  [|discriminate].
destruct (if careAudio (params w) then _ else _) as [[[[ra f1] a1] ev2]|] eqn:Ea;
  [|discriminate].
exists rv, v1, ev1, ra, f1, a1, ev2.
split.
{ destruct (careVideo (params w)); [left; auto|].
  injection Ev as <- <- <-. right. auto. }
split.
{ destruct (careAudio (params w)); [left; auto|].
  injection Ea as <- <- <- <-. right. auto. }
destruct (negb (ra =? 0) && negb (rv =? 0)) eqn:Hexit.
- injection H as <- <- <- <-. left.
  apply andb_prop in Hexit as [Hra Hrv].
  apply negb_true_iff in Hra, Hrv. apply Z.eqb_neq in Hra, Hrv. auto 10.
- destruct (MainLoop fuel w su _ v1 f1 a1) as [[[[v3 f3] a3] ev3]|] eqn:E3;
    [|discriminate].
  injection H as <- <- <- <-. right. exists ev3. auto.
Qed.

Lemma TranscodeVideo_sent fuel limitTime v r v' ev :
  TranscodeVideo fuel w su limitTime v = Some (r, v', ev) ->
  frameOffset v <= frameOffset v' /\
  sent Video ev
    = map (framePts w) (indices (frameOffset v)
                          (Z.to_nat (frameOffset v' - frameOffset v))) /\
  (r <> 0 ->
   frameCount su <= frameOffset v' \/
   decoderBox_GetFrame w (pred (boxCalls v')) (frameTime w (frameOffset v'))
     <> 0).
Proof.
unfold TranscodeVideo. destruct (frameCount su <=? frameOffset v) eqn:Hdone.
- intros H. injection H as <- <- <-. apply Z.leb_le in Hdone.
  rewrite Z.sub_diag. repeat split; auto; lia.
- intros H. apply TranscodeVideo_loop_spec in H as (Hle & Hsent & Hcase).
  split; [exact Hle|]. split; [exact Hsent|]. intros Hr.
  destruct Hcase as [(-> & _) | (_ & _ & Hfail)]; [now contradiction Hr|].
  right. exact Hfail.
Qed.

(** The video side over the whole loop: consecutive frame indices. *)
Lemma MainLoop_video fuel : forall limitTime v file a v' file' a' ev,
  MainLoop fuel w su limitTime v file a = Some (v', file', a', ev) ->
  frameOffset v <= frameOffset v' /\
  sent Video ev
    = map (framePts w) (indices (frameOffset v)
                          (Z.to_nat (frameOffset v' - frameOffset v))) /\
  (careVideo (params w) = false -> v' = v).
Proof.
induction fuel as [|fuel IH]; intros limitTime v file a v' file' a' ev H;
  [discriminate|].
apply MainLoop_round in H
  as (rv & v1 & ev1 & ra & f1 & a1 & ev2 & Hv & Ha & Hrest).
assert (Hv1 : frameOffset v <= frameOffset v1 /\
              sent Video (ev1 ++ Sleep :: ev2)
              = map (framePts w)
                  (indices (frameOffset v)
                     (Z.to_nat (frameOffset v1 - frameOffset v))) /\
              (careVideo (params w) = false -> v1 = v)).
{ assert (Ha2 : sent Video ev2 = []).
  { destruct Ha as [(_ & Ha) | (_ & _ & _ & _ & ->)]; [|reflexivity].
    apply TranscodeAudio_events in Ha. now apply audio_event_readings in Ha. }
  change (ev1 ++ Sleep :: ev2) with (ev1 ++ [Sleep] ++ ev2).
  rewrite !sent_app, Ha2. cbn [sent flat_map app]. rewrite app_nil_r.
  destruct Hv as [(Cv & Hv) | (Cv & _ & -> & ->)].
  - apply TranscodeVideo_sent in Hv as (Hle & Hs & _).
    split; [exact Hle|]. split; [exact Hs | congruence].
  - rewrite Z.sub_diag. repeat split; auto; lia. }
destruct Hv1 as (Hle1 & Hs1 & Hc1).
destruct Hrest as [(_ & _ & -> & _ & _ & ->) | (ev3 & E3 & ->)]; [auto|].
apply IH in E3 as (Hle3 & Hs3 & Hc3).
split; [lia|]. split; [|intros C; rewrite Hc3, Hc1; auto].
rewrite sent_app, Hs1, Hs3, <- map_app. f_equal.
replace (Z.to_nat (frameOffset v' - frameOffset v))
  with (Z.to_nat (frameOffset v1 - frameOffset v)
        + Z.to_nat (frameOffset v' - frameOffset v1))%nat by lia.
rewrite indices_app. do 2 f_equal. lia.
Qed.

(** The audio side over the whole loop: contiguous frames, and every
    sample accounted for. *)
Lemma MainLoop_audio fuel : forall limitTime v file a v' file' a' ev,
  MainLoop fuel w su limitTime v file a = Some (v', file', a', ev) ->
  exists k : nat,
    sent Audio ev = progression (audioOffset a) (audioEncoder_frameSize w) k /\
    audioOffset a' = audioOffset a + Z.of_nat k * audioEncoder_frameSize w /\
    resampleBuffered a' + Z.of_nat k * audioEncoder_frameSize w
      = resampleBuffered a + samples_put ev /\
    audioSent a' = audioSent a ++ sent Audio ev /\
    (resampleBuffered a < audioEncoder_frameSize w ->
     resampleBuffered a' < audioEncoder_frameSize w) /\
    (careAudio (params w) = false -> a' = a /\ file' = file).
Proof.
induction fuel as [|fuel IH]; intros limitTime v file a v' file' a' ev H;
  [discriminate|].
apply MainLoop_round in H
  as (rv & v1 & ev1 & ra & f1 & a1 & ev2 & Hv & Ha & Hrest).
assert (Ha1 : exists k : nat,
  sent Audio (ev1 ++ Sleep :: ev2)
    = progression (audioOffset a) (audioEncoder_frameSize w) k /\
  audioOffset a1 = audioOffset a + Z.of_nat k * audioEncoder_frameSize w /\
  resampleBuffered a1 + Z.of_nat k * audioEncoder_frameSize w
    = resampleBuffered a + samples_put (ev1 ++ Sleep :: ev2) /\
  audioSent a1 = audioSent a ++ sent Audio (ev1 ++ Sleep :: ev2) /\
  (resampleBuffered a < audioEncoder_frameSize w ->
   resampleBuffered a1 < audioEncoder_frameSize w) /\
  (careAudio (params w) = false -> a1 = a /\ f1 = file)).
{ assert (Hv2 : sent Audio ev1 = [] /\ samples_put ev1 = 0).
  { destruct Hv as [(_ & Hv) | (_ & _ & _ & ->)]; [|split; reflexivity].
    apply TranscodeVideo_events in Hv.
    apply video_event_readings in Hv as (? & ? & _). auto. }
  destruct Hv2 as (Hv2 & Hv3).
  change (ev1 ++ Sleep :: ev2) with (ev1 ++ [Sleep] ++ ev2).
  rewrite !sent_app, !samples_put_app, Hv2, Hv3. cbn [sent flat_map app samples_put].
  destruct Ha as [(Ca & Ha) | (Ca & _ & -> & -> & ->)].
  - apply TranscodeAudio_account in Ha as (k & Hs & Ho & Hb & Hsent & _ & Hlt).
    exists k. repeat split; auto; try lia; congruence.
  - exists O. cbn. rewrite app_nil_r. repeat split; auto; lia. }
destruct Ha1 as (k1 & Hs1 & Ho1 & Hb1 & Hsent1 & Hlt1 & Hc1).
destruct Hrest as [(_ & _ & _ & -> & -> & ->) | (ev3 & E3 & ->)].
- exists k1. auto 10.
- apply IH in E3 as (k3 & Hs3 & Ho3 & Hb3 & Hsent3 & Hlt3 & Hc3).
  exists (k1 + k3)%nat. rewrite sent_app, progression_app, Hs1, Hs3, Ho1.
  split; [reflexivity|]. split; [lia|].
  split; [rewrite samples_put_app; lia|].
  split; [now rewrite Hsent3, Hsent1, Hs1, Hs3, Ho1, <- app_assoc|].
  split; [auto|]. intros C. destruct (Hc3 C) as [-> ->]. auto.
Qed.

(** The events of the loop. *)
Lemma MainLoop_events fuel : forall limitTime v file a v' file' a' ev,
  MainLoop fuel w su limitTime v file a = Some (v', file', a', ev) ->
  Forall (loop_event w su) ev.
Proof.
induction fuel as [|fuel IH]; intros limitTime v file a v' file' a' ev H;
  [discriminate|].
apply MainLoop_round in H
  as (rv & v1 & ev1 & ra & f1 & a1 & ev2 & Hv & Ha & Hrest).
assert (H12 : Forall (loop_event w su) (ev1 ++ Sleep :: ev2)).
{ apply Forall_app. split; [|constructor; [now left|]].
  - destruct Hv as [(Cv & Hv) | (_ & _ & _ & ->)]; [|constructor].
    apply TranscodeVideo_events in Hv.
    eapply Forall_impl; [|exact Hv]. intros e He. right. left. auto.
  - destruct Ha as [(Ca & Ha) | (_ & _ & _ & _ & ->)]; [|constructor].
    apply TranscodeAudio_events in Ha.
    eapply Forall_impl; [|exact Ha]. intros e He. right. right. auto. }
destruct Hrest as [(_ & _ & _ & _ & _ & ->) | (ev3 & E3 & ->)]; [exact H12|].
apply Forall_app. split; [exact H12 | eapply IH; eauto].
Qed.

(** Why the loop ends: on each side that is transcoded, the last burst
    found nothing more to do. *)
Lemma MainLoop_exit fuel : forall limitTime v file a v' file' a' ev,
  MainLoop fuel w su limitTime v file a = Some (v', file', a', ev) ->
  (careVideo (params w) = true ->
   frameCount su <= frameOffset v' \/
   decoderBox_GetFrame w (pred (boxCalls v')) (frameTime w (frameOffset v'))
     <> 0) /\
  (careAudio (params w) = true ->
   file' = [] /\ audioDecoderDrained a' = true).
Proof.
induction fuel as [|fuel IH]; intros limitTime v file a v' file' a' ev H;
  [discriminate|].
apply MainLoop_round in H
  as (rv & v1 & ev1 & ra & f1 & a1 & ev2 & Hv & Ha & Hrest).
destruct Hrest as [(Hra & Hrv & -> & -> & -> & _) | (ev3 & E3 & _)];
  [|eapply IH; eauto].
split.
- intros Cv. destruct Hv as [(_ & Hv) | (Cv' & _)]; [|congruence].
  apply TranscodeVideo_sent in Hv as (_ & _ & Hfail). auto.
- intros Ca. destruct Ha as [(_ & Ha) | (Ca' & _)]; [|congruence].
  apply TranscodeAudio_result in Ha as (_ & [(-> & _) | (_ & ? & ?)]); auto.
  now contradiction Hra.
Qed.

End LoopAccounting.

(** ** Readings of a whole run *)

Section RunReadings.
Import AV Transcode.

Lemma Transcode_parts fuel w o :
  Transcode fuel w = Some o ->
  exists file a evl eva,
    MainLoop fuel w (setup o) 0%Q video_start (audioFile w) (audio_start w)
      = Some (video o, file, a, evl) /\
    FlushAudio fuel w (setup o) a = Some (audio o, eva) /\
    setup o = fst (prepare w) /\
    trace o = (snd (prepare w) ++ evl)
              ++ FlushVideo w (setup o) (video o) ++ eva
              ++ [ReadersClose; WriterWriteTrailer; WriterClose].
Proof.
unfold Transcode, video_start, audio_start. destruct (prepare w) as [su evp].
destruct (MainLoop fuel w su 0 _ (audioFile w) _)
  as [[[[v f] a] evl]|] eqn:El; [|discriminate].
destruct (FlushAudio fuel w su a) as [[a' eva]|] eqn:Ef; [|discriminate].
intros H. injection H as <-. cbn [setup video audio trace fst snd].
exists f, a, evl, eva. rewrite <- app_assoc. auto.
Qed.

(** The preparation sends no frame and flushes no encoder; it initialises
    only the encoders of the sides that are transcoded. *)
Lemma prepare_readings w :
  (forall who, sent who (snd (prepare w)) = [] /\
               nulls who (snd (prepare w)) = O) /\
  (careVideo (params w) = false ->
   Forall (fun e => touches Video e = false) (snd (prepare w))) /\
  (careAudio (params w) = false ->
   Forall (fun e => touches Audio e = false) (snd (prepare w))).
Proof.
unfold prepare, InitEncoder.
destruct (0 <=? videoStreamIndex w), (0 <=? audioStreamIndex w),
  (careVideo (params w)), (careAudio (params w));
  cbn [andb snd app]; (split; [intros []; split; reflexivity|]);
  split; intros C; try discriminate C; repeat constructor.
Qed.

Lemma loop_event_readings w su ev :
  Forall (loop_event w su) ev ->
  (forall who, nulls who ev = O) /\
  (careVideo (params w) = false ->
   Forall (fun e => touches Video e = false) ev) /\
  (careAudio (params w) = false ->
   Forall (fun e => touches Audio e = false) ev).
Proof.
induction 1 as [|e ev He _ (IH1 & IH2 & IH3)].
- repeat split; constructor.
- destruct He as [-> | [(Cv & He) | (Ca & He)]].
  + split; [exact IH1|]. split; intros C; constructor; auto.
  + destruct e; try destruct who; try contradiction He;
      (split; [exact IH1|]); (split; [congruence|]);
      intros C; constructor; auto.
  + destruct e; try destruct who; try contradiction He;
      (split; [exact IH1|]); (split; [|congruence]);
      intros C; constructor; auto.
Qed.

Lemma nulls_DrainEncoder w su who who' ready :
  nulls who (DrainEncoder w su who' ready) = O.
Proof. induction ready; cbn; auto. Qed.

Lemma touches_DrainEncoder w su who who' ready :
  pipeline_eqb who who' = false ->
  Forall (fun e => touches who e = false) (DrainEncoder w su who' ready).
Proof. intros H. induction ready; cbn; constructor; auto. Qed.

(** The video flush: at most the one [SendFrameNull] of the video encoder,
    and its packets. *)
Lemma FlushVideo_readings w su v :
  (forall who, sent who (FlushVideo w su v) = []) /\
  nulls Audio (FlushVideo w su v) = O /\
  (nulls Video (FlushVideo w su v) <= 1)%nat /\
  Forall (fun e => touches Audio e = false) (FlushVideo w su v) /\
  (careVideo (params w) = false -> FlushVideo w su v = []).
Proof.
unfold FlushVideo. destruct (careVideo (params w)).
- destruct (0 <=? encoderVideoStreamIndex su).
  + split; [intros who; apply (sent_DrainEncoder w su who Video)|].
    cbn [nulls pipeline_eqb]. rewrite !nulls_DrainEncoder.
    split; [reflexivity|]. split; [lia|]. split; [|discriminate].
    constructor; [reflexivity|]. now apply touches_DrainEncoder.
  + cbn. repeat split; auto.
- cbn. repeat split; auto.
Qed.

Lemma repeat_GetFrame_readings r k :
  (forall who, nulls who (repeat (ResampleGetFrame r) k) = O) /\
  Forall (fun e => touches Video e = false) (repeat (ResampleGetFrame r) k).
Proof.
induction k as [|k (IH1 & IH2)]; cbn; split; auto.
Qed.

(** The audio flush: no frame is sent; at most the one [SendFrameNull] of
    the audio encoder; [audioOffset] moves by one frame size when a
    remainder frame is taken. *)
Lemma FlushAudio_readings fuel w su a a' ev :
  FlushAudio fuel w su a = Some (a', ev) ->
  (forall who, sent who ev = []) /\
  nulls Video ev = O /\ (nulls Audio ev <= 1)%nat /\
  Forall (fun e => touches Video e = false) ev /\
  audioSent a' = audioSent a /\
  audioDecoderDrained a' = audioDecoderDrained a /\
  (audioOffset a' = audioOffset a \/
   audioOffset a' = audioOffset a + audioEncoder_frameSize w) /\
  (careAudio (params w) = false -> a' = a /\ ev = []).
Proof.
unfold FlushAudio. destruct (careAudio (params w));
  [|intros H; injection H as <- <-; cbn; repeat split; auto].
destruct (0 <=? encoderAudioStreamIndex su);
  [|intros H; injection H as <- <-; cbn; repeat split; auto; discriminate].
destruct (DropResampled fuel w _) as [[b evd]|] eqn:E; [|discriminate].
apply DropResampled_shape in E as (k & -> & _ & _).
destruct (repeat_GetFrame_readings 0 k) as (Hn & Ht).
intros H.
destruct (resample_GetLastFrame b); injection H as <- <-;
  cbn [audioOffset audioSent audioDecoderDrained].
all: split;
  [intros who;
   change (ResamplePutAVFrameNULL :: ?l) with ([ResamplePutAVFrameNULL] ++ l);
   rewrite !sent_app, sent_repeat_GetFrame; cbn [sent flat_map app];
   apply (sent_DrainEncoder w su who Audio)|].
all: split;
  [change (ResamplePutAVFrameNULL :: ?l) with ([ResamplePutAVFrameNULL] ++ l);
   rewrite !nulls_app, Hn; cbn [nulls pipeline_eqb Nat.add];
   apply nulls_DrainEncoder|].
all: split;
  [change (ResamplePutAVFrameNULL :: ?l) with ([ResamplePutAVFrameNULL] ++ l);
   rewrite !nulls_app, Hn; cbn [nulls pipeline_eqb Nat.add];
   rewrite nulls_DrainEncoder; lia|].
all: split;
  [constructor; [reflexivity|];
   apply Forall_app; split;
   [apply Forall_app; split; [exact Ht | repeat constructor]|];
   repeat (constructor; [reflexivity|]); now apply touches_DrainEncoder|].
all: repeat split; auto; discriminate.
Qed.

Lemma tail_readings :
  (forall who, sent who [ReadersClose; WriterWriteTrailer; WriterClose] = [] /\
               nulls who [ReadersClose; WriterWriteTrailer; WriterClose] = O /\
               Forall (fun e => touches who e = false)
                 [ReadersClose; WriterWriteTrailer; WriterClose]).
Proof. intros who. repeat split; repeat constructor. Qed.

Lemma samples_put_prepare w : samples_put (snd (prepare w)) = 0.
Proof.
unfold prepare, InitEncoder.
destruct (0 <=? videoStreamIndex w), (0 <=? audioStreamIndex w),
  (careVideo (params w)), (careAudio (params w)); reflexivity.
Qed.

Lemma samples_put_FlushVideo w su v : samples_put (FlushVideo w su v) = 0.
Proof.
unfold FlushVideo. destruct (careVideo _); [|reflexivity].
destruct (_ <=? _); [|reflexivity]. apply samples_put_DrainEncoder.
Qed.

Lemma samples_put_FlushAudio fuel w su a a' ev :
  FlushAudio fuel w su a = Some (a', ev) -> samples_put ev = 0.
Proof.
unfold FlushAudio. destruct (careAudio (params w));
  [|intros H; injection H as <- <-; reflexivity].
destruct (0 <=? encoderAudioStreamIndex su);
  [|intros H; injection H as <- <-; reflexivity].
destruct (DropResampled fuel w _) as [[b evd]|] eqn:E; [|discriminate].
apply DropResampled_shape in E as (k & -> & _ & _).
assert (Hk : samples_put (repeat (ResampleGetFrame 0) k) = 0)
  by (induction k; cbn; auto).
intros H. destruct (resample_GetLastFrame b); injection H as <- <-;
  cbn [samples_put]; rewrite !samples_put_app, Hk; cbn [samples_put];
  now rewrite samples_put_DrainEncoder.
Qed.

Lemma cut_at_null_spec who tr : forall l1 l2,
  cut_at_null who tr = Some (l1, l2) ->
  tr = l1 ++ EncoderSendFrameNull who :: l2.
Proof.
induction tr as [|e tr IH]; intros l1 l2 H; [discriminate|].
cbn [cut_at_null] in H. destruct (is_null who e) eqn:He.
- injection H as <- <-. destruct e; try discriminate He.
  destruct who, who0; try discriminate He; reflexivity.
- destruct (cut_at_null who tr) as [[l1' l2']|]; [|discriminate].
  injection H as <- <-. cbn [app]. f_equal. now apply IH.
Qed.

End RunReadings.

(** ** The frames of a whole run *)

Section RunFrames.
Import AV Transcode.

(** X1: Over a whole run the video encoder is sent the frames of indices 0, 1,
    ..., [frameOffset - 1] in this order, none twice and none skipped, each
    stamped with its index's time in milliseconds as [double] arithmetic
    gives it ([framePts]); the loop leaves the video
    side only with [frameOffset] at the total or beyond, or at an index the
    decoder box could not deliver.  With video switched off nothing is
    sent. *)
Theorem video_frames_of_a_run fuel w o :
  Transcode fuel w = Some o ->
  0 <= frameOffset (video o) /\
  sent Video (trace o)
    = map (framePts w) (indices 0 (Z.to_nat (frameOffset (video o)))) /\
  (careVideo (params w) = true ->
   frameCount (setup o) <= frameOffset (video o) \/
   decoderBox_GetFrame w (pred (boxCalls (video o)))
     (frameTime w (frameOffset (video o))) <> 0) /\
  (careVideo (params w) = false -> frameOffset (video o) = 0).
Proof.
intros H. apply Transcode_parts in H as (file & a & evl & eva & El & Ef & _ & ->).
destruct (MainLoop_video _ _ _ _ _ _ _ _ _ _ _ El) as (Hle & Hs & Hc).
destruct (MainLoop_exit _ _ _ _ _ _ _ _ _ _ _ El) as (Hexit & _).
destruct (prepare_readings w) as (Hp & _).
destruct (FlushVideo_readings w (setup o) (video o)) as (Hfv & _).
destruct (FlushAudio_readings _ _ _ _ _ _ Ef) as (Hfa & _).
cbn [video_start frameOffset] in Hle, Hs. rewrite Z.sub_0_r in Hs.
split; [exact Hle|]. split.
- rewrite !sent_app, (proj1 (Hp Video)), Hs, Hfv, Hfa. cbn. now rewrite app_nil_r.
- split; [exact Hexit|]. intros C. now rewrite (Hc C).
Qed.

(** The theorem at the sample run. *)
Lemma video_frames_of_a_run_witness :
  exists o, Transcode 100 sample_world = Some o /\
  sent Video (trace o)
    = map (framePts sample_world) (indices 0 (Z.to_nat (frameOffset (video o)))).
Proof.
destruct (Transcode 100 sample_world) as [o|] eqn:E.
- exists o. split; [reflexivity|].
  exact (proj1 (proj2 (video_frames_of_a_run 100 sample_world o E))).
- vm_compute in E. discriminate E.
Defined.

(** X2: Over a whole run the frames sent to the audio encoder are stamped
    [audioOffset], [audioOffset + frameSize], [audioOffset + 2 * frameSize],
    ... from the initial [audioOffset] on, without gap or overlap; at the
    end [audioOffset] stands after the last of them, or one frame further
    when the flush took a remainder frame.  Of the samples put into the
    resampler, all but less than one frame went into the frames sent.  The
    loop leaves the audio side only after the decoder has been drained. *)
Theorem audio_frames_of_a_run fuel w o :
  Transcode fuel w = Some o ->
  exists (k : nat) (unsent : Z),
    sent Audio (trace o)
      = progression (audioOffset0 w) (audioEncoder_frameSize w) k /\
    audioSent (audio o) = sent Audio (trace o) /\
    (audioOffset (audio o)
       = audioOffset0 w + Z.of_nat k * audioEncoder_frameSize w \/
     audioOffset (audio o)
       = audioOffset0 w + Z.of_nat (S k) * audioEncoder_frameSize w) /\
    samples_put (trace o) = Z.of_nat k * audioEncoder_frameSize w + unsent /\
    (0 < audioEncoder_frameSize w -> unsent < audioEncoder_frameSize w) /\
    (careAudio (params w) = true -> audioDecoderDrained (audio o) = true).
Proof.
intros H. apply Transcode_parts in H as (file & a & evl & eva & El & Ef & _ & ->).
destruct (MainLoop_audio _ _ _ _ _ _ _ _ _ _ _ El)
  as (k & Hs & Ho & Hb & Hsent & Hlt & _).
destruct (MainLoop_exit _ _ _ _ _ _ _ _ _ _ _ El) as (_ & Hexit).
destruct (MainLoop_video _ _ _ _ _ _ _ _ _ _ _ El) as (_ & _ & _).
destruct (prepare_readings w) as (Hp & _).
destruct (FlushVideo_readings w (setup o) (video o)) as (Hfv & _).
destruct (FlushAudio_readings _ _ _ _ _ _ Ef)
  as (Hfa & _ & _ & _ & Hsent' & Hd' & Ho' & _).
cbn [audio_start audioOffset resampleBuffered audioSent] in *.
exists k, (resampleBuffered a).
assert (Htr : sent Audio ((snd (prepare w) ++ evl)
                ++ FlushVideo w (setup o) (video o) ++ eva
                ++ [ReadersClose; WriterWriteTrailer; WriterClose])
              = sent Audio evl).
{ rewrite !sent_app, (proj1 (Hp Audio)), Hfv, Hfa. cbn. now rewrite app_nil_r. }
assert (Hput : samples_put ((snd (prepare w) ++ evl)
                 ++ FlushVideo w (setup o) (video o) ++ eva
                 ++ [ReadersClose; WriterWriteTrailer; WriterClose])
               = samples_put evl).
{ rewrite !samples_put_app, samples_put_prepare, samples_put_FlushVideo,
    (samples_put_FlushAudio _ _ _ _ _ _ Ef). cbn [samples_put]. lia. }
rewrite Htr, Hput. split; [exact Hs|]. split; [now rewrite Hsent', Hsent|].
split; [destruct Ho' as [-> | ->]; [left | right]; lia|].
split; [lia|]. split; [intros Hfs; apply Hlt; exact Hfs|].
intros C. rewrite Hd'. now apply Hexit.
Qed.

(** The theorem at the sample run. *)
Lemma audio_frames_of_a_run_witness :
  exists o, Transcode 100 sample_world = Some o /\
  exists (k : nat) (unsent : Z),
    sent Audio (trace o) = progression 0 1152 k /\
    audioSent (audio o) = sent Audio (trace o).
Proof.
destruct (Transcode 100 sample_world) as [o|] eqn:E.
- exists o. split; [reflexivity|].
  destruct (audio_frames_of_a_run 100 sample_world o E)
    as (k & unsent & Hs & Hsent & _).
  exists k, unsent. split; [exact Hs | exact Hsent].
- vm_compute in E. discriminate E.
Defined.

(** X3: An encoder is flushed at most once in a run, and after its
    [SendFrameNull] it is sent no further frame. *)
Theorem encoder_gets_nothing_after_its_flush fuel w o who l1 l2 :
  Transcode fuel w = Some o ->
  trace o = l1 ++ EncoderSendFrameNull who :: l2 ->
  sent who l2 = [] /\ nulls who l1 = O /\ nulls who l2 = O.
Proof.
intros H Htr.
apply Transcode_parts in H as (file & a & evl & eva & El & Ef & _ & Hparts).
rewrite Hparts in Htr. clear Hparts.
apply MainLoop_events, loop_event_readings in El as (Hln & _).
destruct (prepare_readings w) as (Hp & _).
destruct (FlushVideo_readings w (setup o) (video o))
  as (Hfv & Hfv1 & Hfv2 & _).
destruct (FlushAudio_readings _ _ _ _ _ _ Ef) as (Hfa & Hfa1 & Hfa2 & _).
set (A := snd (prepare w) ++ evl) in *.
set (B := FlushVideo w (setup o) (video o) ++ eva
          ++ [ReadersClose; WriterWriteTrailer; WriterClose]) in *.
assert (HA : nulls who A = O).
{ unfold A. rewrite nulls_app, Hln, (proj2 (Hp who)). reflexivity. }
assert (HBs : sent who B = []).
{ unfold B. rewrite !sent_app, Hfv, Hfa. reflexivity. }
assert (HBn : (nulls who B <= 1)%nat).
{ unfold B. rewrite !nulls_app. cbn [nulls].
  destruct who; rewrite ?Hfv1, ?Hfa1; lia. }
assert (Hself : pipeline_eqb who who = true) by (destruct who; reflexivity).
assert (Hcount : (nulls who l1 + S (nulls who l2) <= 1)%nat).
{ assert (Hn : nulls who (A ++ B)
               = nulls who (l1 ++ EncoderSendFrameNull who :: l2))
    by now rewrite Htr.
  rewrite !nulls_app in Hn. cbn [nulls] in Hn. rewrite Hself in Hn. lia. }
split; [|lia].
apply app_eq_app in Htr as (l & [(HA' & Hl) | (_ & HB')]).
- destruct l as [|e l].
  + cbn [app] in Hl. rewrite <- Hl in HBs. exact HBs.
  + cbn [app] in Hl. injection Hl as <- _. rewrite HA' in HA.
    rewrite nulls_app in HA. cbn [nulls] in HA. rewrite Hself in HA. lia.
- rewrite HB', sent_app in HBs. apply app_eq_nil in HBs as (_ & HBs).
  exact HBs.
Qed.

(** The theorem at the flush of the audio encoder in the sample run. *)
Lemma encoder_gets_nothing_after_its_flush_witness :
  exists o l1 l2,
    Transcode 100 sample_world = Some o /\
    trace o = l1 ++ EncoderSendFrameNull Audio :: l2 /\
    sent Audio l2 = [].
Proof.
destruct (Transcode 100 sample_world) as [o|] eqn:E.
- destruct (cut_at_null Audio (trace o)) as [[l1 l2]|] eqn:Ec.
  + apply cut_at_null_spec in Ec. exists o, l1, l2.
    split; [reflexivity|]. split; [exact Ec|].
    exact (proj1 (encoder_gets_nothing_after_its_flush
                    100 sample_world o Audio l1 l2 E Ec)).
  + vm_compute in E. injection E as <-. vm_compute in Ec. discriminate Ec.
- vm_compute in E. discriminate E.
Defined.

(** X4: A side that is switched off is not touched by the run: no call goes
    to its decoder box, decoder, resampler or encoder, no stream is added
    and no packet written for it, and its state stays as at the start. *)
Theorem side_switched_off_is_not_touched fuel w o :
  Transcode fuel w = Some o ->
  (careVideo (params w) = false ->
   Forall (fun e => touches Video e = false) (trace o) /\
   video o = video_start) /\
  (careAudio (params w) = false ->
   Forall (fun e => touches Audio e = false) (trace o) /\
   audio o = audio_start w).
Proof.
intros H. apply Transcode_parts in H as (file & a & evl & eva & El & Ef & _ & ->).
destruct (MainLoop_video _ _ _ _ _ _ _ _ _ _ _ El) as (_ & _ & Hcv).
destruct (MainLoop_audio _ _ _ _ _ _ _ _ _ _ _ El)
  as (k & _ & _ & _ & _ & _ & Hca).
apply MainLoop_events, loop_event_readings in El as (_ & Hlv & Hla).
destruct (prepare_readings w) as (_ & Hpv & Hpa).
destruct (FlushVideo_readings w (setup o) (video o))
  as (_ & _ & _ & Hfva & Hfvv).
destruct (FlushAudio_readings _ _ _ _ _ _ Ef)
  as (_ & _ & _ & Hfav & _ & _ & _ & Hfaa).
split; intros C.
- split; [|auto]. rewrite (Hfvv C).
  repeat (apply Forall_app; split); auto; apply tail_readings.
- destruct (Hca C) as [-> _]. destruct (Hfaa C) as [-> ->].
  split; [|reflexivity].
  repeat (apply Forall_app; split); auto; apply tail_readings.
Qed.

(** The theorem at the sample source with video switched off. *)
Lemma side_switched_off_is_not_touched_witness :
  exists o, Transcode 100 audio_only_world = Some o /\
  Forall (fun e => touches Video e = false) (trace o) /\
  video o = video_start.
Proof.
destruct (Transcode 100 audio_only_world) as [o|] eqn:E.
- exists o. split; [reflexivity|].
  apply (proj1 (side_switched_off_is_not_touched 100 audio_only_world o E)).
  reflexivity.
- vm_compute in E. discriminate E.
Defined.

(** X5: One audio burst.  It reads a prefix of what is left of the file.  The
    frames it sends are stamped in steps of the frame size from [audioOffset]
    on, and [audioOffset] ends after the last.  Every sample put into the
    resampler is in a frame sent or still buffered, and a resampler holding
    less than a frame on entry holds less than a frame on return.  The
    burst returns 0 after an audio packet that moved [audioOffset / 44100]
    above the limit (after any audio packet, when the limit is negative),
    and -1 at the end of the file with the decoder drained.  With a positive
    frame size the burst does return. *)
Theorem audio_burst w su limitTime file a :
  (0 < audioEncoder_frameSize w ->
   exists fuel res, TranscodeAudio fuel w su limitTime file a = Some res) /\
  (forall fuel r file' a' ev,
     TranscodeAudio fuel w su limitTime file a = Some (r, file', a', ev) ->
     (exists read, file = read ++ file') /\
     (exists k : nat,
        sent Audio ev
          = progression (audioOffset a) (audioEncoder_frameSize w) k /\
        audioOffset a'
          = audioOffset a + Z.of_nat k * audioEncoder_frameSize w /\
        resampleBuffered a' + Z.of_nat k * audioEncoder_frameSize w
          = resampleBuffered a + samples_put ev) /\
     (resampleBuffered a < audioEncoder_frameSize w ->
      resampleBuffered a' < audioEncoder_frameSize w) /\
     (r = 0 /\
      ((limitTime < 0)%Q \/
       (limitTime < inject_Z (audioOffset a') / inject_Z 44100)%Q)
      \/
      r = -1 /\ file' = [] /\ audioDecoderDrained a' = true)).
Proof.
split.
- intros Hfs.
  destruct (TranscodeAudio_converges w su limitTime Hfs file a)
    as (N & res & HN).
  exists N, res. apply HN. lia.
- intros fuel r file' a' ev H.
  destruct (TranscodeAudio_result _ _ _ _ _ _ _ _ _ _ H) as (Hread & Hr).
  apply TranscodeAudio_account in H as (k & Hs & Ho & Hb & _ & _ & Hlt).
  split; [exact Hread|]. split; [exists k; auto|]. split; [exact Hlt | exact Hr].
Qed.

(** The theorem at the first audio burst of the sample run. *)
Lemma audio_burst_witness :
  exists fuel res,
    TranscodeAudio fuel sample_world (fst (prepare sample_world)) (1 # 2)
      (audioFile sample_world) (audio_start sample_world) = Some res.
Proof.
apply (audio_burst sample_world (fst (prepare sample_world)) (1 # 2)
         (audioFile sample_world) (audio_start sample_world)).
reflexivity.
Defined.

End RunFrames.

(** ** More on the scheduler of the main window *)

Section SchedulerFacts.
Import MainWindow.

Lemma StartTask_not_prepared t : status (StartTask t) <> PREPARE.
Proof. destruct (StartTask_status t) as [-> | ->]; discriminate. Qed.

Lemma left_or_started_trans t t1 t2 :
  left_or_started t t1 -> left_or_started t1 t2 -> left_or_started t t2.
Proof.
intros [-> | (Hp & ->)] H12; [exact H12|].
destruct H12 as [-> | (Hp' & _)]; [right; auto|].
now apply StartTask_not_prepared in Hp'.
Qed.

Lemma Forall2_left_or_started_refl l : Forall2 left_or_started l l.
Proof. induction l; constructor; auto. now left. Qed.

Lemma Forall2_left_or_started_trans l : forall l1 l2,
  Forall2 left_or_started l l1 -> Forall2 left_or_started l1 l2 ->
  Forall2 left_or_started l l2.
Proof.
induction l as [|t l IH]; intros l1 l2 H1 H2; inversion H1; subst;
  inversion H2; subst; constructor.
- eapply left_or_started_trans; eauto.
- eapply IH; eauto.
Qed.

Lemma start_first_prepared_changes l :
  Forall2 left_or_started l (start_first_prepared l).
Proof.
induction l as [|t l IH]; cbn [start_first_prepared]; [constructor|].
destruct (status_eqb (status t) PREPARE) eqn:E.
- apply status_eqb_eq in E. constructor; [right; auto|].
  apply Forall2_left_or_started_refl.
- constructor; [now left | exact IH].
Qed.

Lemma schedule_changes fuel cap : forall l,
  Forall2 left_or_started l (schedule fuel cap l).
Proof.
induction fuel as [|fuel IH]; intros l; cbn [schedule].
- apply Forall2_left_or_started_refl.
- destruct (schedule_pass cap l) as [l'|] eqn:E;
    [|apply Forall2_left_or_started_refl].
  apply schedule_pass_Some in E as (_ & _ & ->).
  eapply Forall2_left_or_started_trans;
    [apply start_first_prepared_changes | apply IH].
Qed.

(** A pass over a list whose waiting tasks all pass their checks: one task
    goes from waiting to running, nothing else changes. *)
Lemma start_first_prepared_passing l :
  Forall start_will_pass l -> 0 < count_status PREPARE l ->
  count_status ING (start_first_prepared l) = count_status ING l + 1 /\
  count_status PREPARE (start_first_prepared l) = count_status PREPARE l - 1 /\
  count_status SUCC (start_first_prepared l) = count_status SUCC l /\
  count_status FAIL (start_first_prepared l) = count_status FAIL l /\
  Forall start_will_pass (start_first_prepared l).
Proof.
induction l as [|t l IH]; intros Hall Hpos; cbn [count_status] in Hpos; [lia|].
inversion Hall as [|? ? Ht Hl]; subst.
cbn [start_first_prepared].
destruct (status_eqb (status t) PREPARE) eqn:E.
- pose proof E as Ep. apply status_eqb_eq in Ep. specialize (Ht Ep).
  assert (Hs : status (StartTask t) = ING).
  { unfold StartTask. destruct (start_checks t) as [|[] rest];
      try reflexivity. discriminate Ht. }
  cbn [count_status]. rewrite Hs, Ep. cbn [status_eqb].
  repeat split; try lia.
  constructor; [|exact Hl]. intros Hp. rewrite Hs in Hp. discriminate Hp.
- cbn [count_status] in *. rewrite E in *.
  destruct (IH Hl ltac:(lia)) as (H1 & H2 & H3 & H4 & H5).
  rewrite H1, H2, H3, H4. repeat split; try lia. constructor; auto.
Qed.

Lemma schedule_fills fuel cap : forall l,
  Forall start_will_pass l ->
  count_status PREPARE l <= Z.of_nat fuel -> count_status ING l <= cap ->
  count_status ING (schedule fuel cap l)
    = Z.min cap (count_status ING l + count_status PREPARE l) /\
  count_status PREPARE (schedule fuel cap l)
    = count_status ING l + count_status PREPARE l
      - Z.min cap (count_status ING l + count_status PREPARE l) /\
  count_status SUCC (schedule fuel cap l) = count_status SUCC l /\
  count_status FAIL (schedule fuel cap l) = count_status FAIL l.
Proof.
induction fuel as [|fuel IH]; intros l Hall Hfuel Hcap; cbn [schedule].
- pose proof (count_status_nonneg PREPARE l). repeat split; lia.
- destruct (schedule_pass cap l) as [l'|] eqn:E.
  + apply schedule_pass_Some in E as (Hpos & Hlt & ->).
    destruct (start_first_prepared_passing l Hall Hpos)
      as (H1 & H2 & H3 & H4 & H5).
    destruct (IH (start_first_prepared l) H5 ltac:(lia) ltac:(lia))
      as (I1 & I2 & I3 & I4).
    rewrite I1, I2, I3, I4, H1, H2, H3, H4. repeat split; lia.
  + apply schedule_pass_None in E.
    pose proof (count_status_nonneg PREPARE l). repeat split; lia.
Qed.

(** X6: A scheduling run ([StartTranscodeClickListenerInternal]) leaves every
    task at its place; the only thing it does to a task is to start one
    that is waiting.  A task that is running, done or failed is not
    touched: no job is started twice. *)
Theorem scheduler_only_starts_waiting_tasks w :
  Forall2 left_or_started
    (tasks w) (tasks (StartTranscodeClickListenerInternal w)) /\
  length (tasks (StartTranscodeClickListenerInternal w)) = length (tasks w) /\
  transNumSametime (StartTranscodeClickListenerInternal w)
    = transNumSametime w /\
  outputDirEmpty (StartTranscodeClickListenerInternal w) = outputDirEmpty w.
Proof.
assert (H : Forall2 left_or_started
              (tasks w) (tasks (StartTranscodeClickListenerInternal w)) /\
            transNumSametime (StartTranscodeClickListenerInternal w)
              = transNumSametime w /\
            outputDirEmpty (StartTranscodeClickListenerInternal w)
              = outputDirEmpty w).
{ unfold StartTranscodeClickListenerInternal.
  destruct (outputDirEmpty w) eqn:Ed;
    [rewrite Ed; split; [apply Forall2_left_or_started_refl | auto]|].
  destruct (_ <=? 0);
    [rewrite Ed; split; [apply Forall2_left_or_started_refl | auto]|].
  cbn [with_tasks tasks transNumSametime outputDirEmpty].
  split; [apply schedule_changes | auto]. }
destruct H as (H & Hc & Hd). split; [exact H|].
split; [symmetry; eapply Forall2_length; exact H | auto].
Qed.

(** X7: When the output directory is set, at most [cap] tasks are running and
    every waiting task passes its start checks, a scheduling run leaves
    min(cap, running + waiting) tasks running: it fills every free slot as
    long as tasks are waiting, and the tasks done or failed are as many as
    before. *)
Theorem scheduler_fills_free_slots w :
  outputDirEmpty w = false ->
  Forall start_will_pass (tasks w) ->
  count_status ING (tasks w) <= transNumSametime w ->
  let w' := StartTranscodeClickListenerInternal w in
  count_status ING (tasks w')
    = Z.min (transNumSametime w)
        (count_status ING (tasks w) + count_status PREPARE (tasks w)) /\
  count_status PREPARE (tasks w')
    = count_status ING (tasks w) + count_status PREPARE (tasks w)
      - count_status ING (tasks w') /\
  count_status SUCC (tasks w') = count_status SUCC (tasks w) /\
  count_status FAIL (tasks w') = count_status FAIL (tasks w).
Proof.
intros Hd Hall Hcap. cbv zeta. unfold StartTranscodeClickListenerInternal.
rewrite Hd.
pose proof (count_status_nonneg ING (tasks w)) as Hi.
pose proof (count_status_nonneg PREPARE (tasks w)) as Hp.
pose proof (count_status_le_length PREPARE (tasks w)) as Hlen.
destruct (Z.of_nat (length (tasks w)) <=? 0) eqn:E.
- apply Z.leb_le in E. destruct (tasks w) as [|t l]; [|cbn [length] in E; lia].
  cbn [count_status] in *. repeat split; lia.
- cbn [with_tasks tasks].
  destruct (schedule_fills (length (tasks w)) (transNumSametime w) (tasks w)
              Hall Hlen Hcap) as (H1 & H2 & H3 & H4).
  rewrite H1, H2, H3, H4. repeat split; lia.
Qed.

(** The theorem at five waiting tasks and a cap of two: two run, three
    wait. *)
Lemma scheduler_fills_free_slots_witness :
  count_status ING (tasks (StartTranscodeClickListenerInternal five_prepared))
    = 2 /\
  count_status PREPARE
    (tasks (StartTranscodeClickListenerInternal five_prepared)) = 3.
Proof.
destruct (scheduler_fills_free_slots five_prepared) as (H1 & H2 & _).
- reflexivity.
- repeat constructor.
- cbn. lia.
- split; [exact H1|]. rewrite H2, H1. reflexivity.
Defined.

(** X8: A click on the start button while no output directory is set starts
    nothing, but it has already put every failed task back to waiting: no
    task is left in state [FAIL], and the tasks running or done are as
    before. *)
Theorem start_click_without_output_dir w :
  outputDirEmpty w = true ->
  let w' := StartTranscodeClickListener w in
  tasks w' = map reset_failed (tasks w) /\
  count_status FAIL (tasks w') = 0 /\
  count_status PREPARE (tasks w')
    = count_status PREPARE (tasks w) + count_status FAIL (tasks w) /\
  count_status ING (tasks w') = count_status ING (tasks w) /\
  count_status SUCC (tasks w') = count_status SUCC (tasks w).
Proof.
intros Hd. cbv zeta.
unfold StartTranscodeClickListener, StartTranscodeClickListenerInternal.
cbn [with_tasks outputDirEmpty tasks]. rewrite Hd. cbn [tasks].
split; [reflexivity|]. cbn [with_tasks tasks].
generalize (tasks w). intros l.
induction l as [|t l (IH1 & IH2 & IH3 & IH4)]; [cbn; auto|].
cbn [map count_status]. rewrite IH1, IH2, IH3, IH4.
unfold reset_failed.
destruct t as [[] c]; cbn [status status_eqb SetStatus]; repeat split; lia.
Qed.

(** The theorem at a window with one failed, one running, one waiting and
    one finished task. *)
Lemma start_click_without_output_dir_witness :
  count_status FAIL (tasks (StartTranscodeClickListener no_output_dir_window))
    = 0 /\
  count_status PREPARE
    (tasks (StartTranscodeClickListener no_output_dir_window)) = 2.
Proof.
destruct (start_click_without_output_dir no_output_dir_window)
  as (_ & H1 & H2 & _); [reflexivity|].
split; [exact H1 | exact H2].
Defined.

(** X9: The numbers on the status label: succeeded and failed tasks together
    are never more than the tasks shown, and what is missing from the total
    are the tasks waiting or running. *)
Theorem status_label_counts w :
  let '(taskOunt, succCount, failCount) := UpdateSystemLabel w in
  0 <= succCount /\ 0 <= failCount /\
  taskOunt = succCount + failCount
             + count_status ING (tasks w) + count_status PREPARE (tasks w).
Proof.
unfold UpdateSystemLabel. cbv zeta.
split; [apply count_status_nonneg|]. split; [apply count_status_nonneg|].
induction (tasks w) as [|t l IH]; [reflexivity|].
cbn [length count_status]. destruct t as [[] c]; cbn [status status_eqb]; lia.
Qed.

End SchedulerFacts.

(** ** More on opening an encoder *)

Section EncoderParams.
Import AV Encoder.

(** X10: What [Init] does depends only on the codec id and on the fields its
    branch uses: the audio branches take nothing but sample format, sample
    rate and channel layout (not the time base), the video branches nothing
    of the audio fields; [crf] reaches H.264 and H.265 only, [threadnum]
    H.264, H.265 and ProRes only (VP9 runs on 32 threads whatever is asked),
    the pixel format is not taken for MJPEG.  And each field listed does
    make a difference. *)
Theorem Init_uses_only_the_fields_of_its_codec p :
  (forall lib e q,
     codecId q = codecId p ->
     (forall f, codec_uses (codecId p) f = true -> field_equal f p q) ->
     Init lib e q = Init lib e p) /\
  (forall f,
     codec_uses (codecId p) f = true ->
     Init probe_library new_encoder (bump f p)
       <> Init probe_library new_encoder p).
Proof.
split.
- intros lib e q Hid Hf.
  destruct p as [id w h pf tn [tbn tbd] c sf sr cl],
           q as [id' w' h' pf' tn' [tbn' tbd'] c' sf' sr' cl'].
  cbn [codecId] in Hid, Hf. subst id'.
  pose proof (Hf F_width) as Hw. pose proof (Hf F_height) as Hh.
  pose proof (Hf F_pixelFormat) as Hpf. pose proof (Hf F_threadnum) as Htn.
  pose proof (Hf F_timebase) as Htb. pose proof (Hf F_crf) as Hc.
  pose proof (Hf F_sampleFormat) as Hsf. pose proof (Hf F_sample_rate) as Hsr.
  pose proof (Hf F_channelLayout) as Hcl. clear Hf.
  unfold Init, configure, dict_of, video_fields, audio_fields, copy_timebase.
  destruct id; cbn in *;
    repeat match goal with
           | H : true = true -> _ |- _ => specialize (H eq_refl)
           | H : false = true -> _ |- _ => clear H
           | H : mkRational _ _ = mkRational _ _ |- _ =>
               injection H as ? ?
           end; subst; reflexivity.
- intros f Hf.
  destruct p as [id w h pf tn [tbn tbd] c sf sr cl].
  cbn [codecId] in Hf.
  destruct id, f; try discriminate Hf;
    cbn; intros H; injection H; intros; lia.
Qed.

(** The theorem at the H.264 parameters: another sample rate changes
    nothing. *)
Lemma Init_uses_only_the_fields_of_its_codec_witness :
  Init plain_library new_encoder
    (mkParam CODEC_ID_H264 1280 720 0 4 (mkRational 1 1000) 23 0 48000 0)
  = Init plain_library new_encoder h264_params.
Proof.
apply (proj1 (Init_uses_only_the_fields_of_its_codec h264_params)).
- reflexivity.
- intros []; cbn; intros H; try discriminate H; reflexivity.
Defined.

Lemma Init_fresh_allocates lib e param ret e' :
  has_branch (codecId param) = true -> codecContext e = None ->
  Init lib e param = Some (ret, e') -> codecContext e' <> None.
Proof.
unfold Init. intros -> ->.
destruct (avcodec_open2 _ _ _ _) as [r c']. intros H.
injection H as _ <-. discriminate.
Qed.

Lemma init_codes_bound lib params : forall e,
  Forall (fun p => has_branch (codecId p) = true) params ->
  (2 * successes (init_codes lib e params) <= length params + 1)%nat /\
  (codecContext e <> None ->
   2 * successes (init_codes lib e params) <= length params)%nat.
Proof.
induction params as [|p params IH]; intros e Hall.
- cbn. split; intros; lia.
- inversion Hall as [|? ? Hb Hrest]; subst.
  cbn [init_codes length].
  destruct (codecContext e) as [c|] eqn:Ec.
  + rewrite (Init_allocated lib e p c Ec Hb).
    destruct (IH new_encoder Hrest) as (IH1 & _).
    unfold successes in *. cbn [filter Z.eqb length] in *. split; intros; lia.
  + destruct (Init lib e p) as [[ret e']|] eqn:Ei;
      [|cbn; split; intros; [lia | congruence]].
    pose proof (Init_fresh_allocates lib e p ret e' Hb Ec Ei) as Hne.
    destruct (IH e' Hrest) as (_ & IH2). specialize (IH2 Hne).
    split; [|congruence].
    unfold successes in *. cbn [filter]. destruct (ret =? 0); cbn [length]; lia.
Qed.

(** X11: [Init] keeps the context it allocated whatever [avcodec_open2]
    answers, so the call that follows any call on a new encoder returns -1
    without opening anything, also after a failure; of [n] calls in a row
    on one encoder at most every second one can succeed. *)
Theorem Init_calls_alternate lib params :
  Forall (fun p => has_branch (codecId p) = true) params ->
  (forall p ret e' p',
     In p params -> In p' params ->
     Init lib new_encoder p = Some (ret, e') ->
     Init lib e' p' = Some (-1, new_encoder)) /\
  (2 * successes (init_codes lib new_encoder params) <= length params + 1)%nat.
Proof.
intros Hall. split.
- intros p ret e' p' Hp Hp' Hi.
  rewrite Forall_forall in Hall.
  pose proof (Init_fresh_allocates lib new_encoder p ret e' (Hall p Hp)
                eq_refl Hi) as Hne.
  destruct (codecContext e') as [c|] eqn:Ec; [|congruence].
  exact (Init_allocated lib e' p' c Ec (Hall p' Hp')).
- apply init_codes_bound. exact Hall.
Qed.

(** The theorem at a library whose [avcodec_open2] fails: the retry after
    the failure returns -1. *)
Lemma Init_calls_alternate_witness :
  init_codes failing_library new_encoder [h264_params; h264_params]
  = [-22; -1] /\
  (2 * successes (init_codes failing_library new_encoder
                    [h264_params; h264_params]) <= 2 + 1)%nat.
Proof.
split; [reflexivity|].
apply (Init_calls_alternate failing_library [h264_params; h264_params]).
repeat constructor.
Defined.

End EncoderParams.

(** ** More on reading packets *)

Section ReaderLoop.
Import AV Reader.







(** X13: The variants of [Read] differ in their two guards only.  They return
    the same code, leave the reader in the same state and agree on [dts],
    [duration] and stream index of the packet; the smart-pointer variant
    is the pointer variant.  When the stream of the packet has a start time
    and the [pts] less the start time is not the unset value, or when
    nothing is left to read, the three return the same. *)
Theorem Read_variants_differ_in_their_guards ctx pkt :
  Read BySmartPtr ctx pkt = Read ByPointer ctx pkt /\
  match Read ByReference ctx pkt, Read ByPointer ctx pkt with
  | Some (r1, c1, p1), Some (r2, c2, p2) =>
      r1 = r2 /\ c1 = c2 /\
      dts (packet p1) = dts (packet p2) /\
      duration (packet p1) = duration (packet p2) /\
      stream_index (packet p1) = stream_index (packet p2) /\
      (unread ctx = [] -> p1 = p2) /\
      (forall p rest st,
         unread ctx = p :: rest ->
         stream_at ctx (stream_index p) = Some st ->
         start_time st <> AV_NOPTS_VALUE ->
         wrap64 (pts p - start_time st) <> AV_NOPTS_VALUE ->
         p1 = p2)
  | None, None => True
  | _, _ => False
  end.
Proof.
split; [reflexivity|].
destruct ctx as [ss un]. cbn [Read]. unfold Read_ref, Read_ptr, av_read_frame.
cbn [unread streams]. destruct un as [|p rest].
- repeat split; auto; discriminate.
- destruct (stream_at {| streams := ss; unread := rest |} (stream_index p))
    as [st|] eqn:Hst; [|exact I].
  cbv zeta. split; [reflexivity|]. split; [reflexivity|].
  cbn [packet].
  assert (Hsame : forall (b : bool) (f : AVPacket -> Z),
            (forall v q, f (set_pts v q) = f q) ->
            f (if b then set_pts (wrap64 (pts p - start_time st)) p else p)
            = f (set_pts (wrap64 (pts p - start_time st)) p)).
  { intros b f Hf. destruct b; [reflexivity|]. now rewrite Hf. }
  split; [apply Hsame; reflexivity|]. split; [apply Hsame; reflexivity|].
  split; [apply Hsame; reflexivity|]. split; [discriminate|].
  intros p0 rest0 st0 Hun Hst0 Hs Hw. injection Hun as <- <-.
  rewrite stream_at_unread in Hst, Hst0. rewrite Hst in Hst0.
  injection Hst0 as <-.
  apply Z.eqb_neq in Hs. rewrite Hs. cbn [negb set_pts pts].
  apply Z.eqb_neq in Hw. rewrite Hw. reflexivity.
Qed.

(** The theorem at the first packet of the two-stream file. *)
Lemma Read_variants_differ_in_their_guards_witness :
  Read ByReference two_stream_file blank_packet
  = Read ByPointer two_stream_file blank_packet.
Proof.
pose proof (proj2 (Read_variants_differ_in_their_guards
                     two_stream_file blank_packet)) as H.
destruct H as (_ & _ & _ & _ & _ & _ & H).
specialize (H (mkPacket 900 900 40 0)
              [mkPacket 0 0 1024 1; mkPacket 940 940 40 0]
              {| start_time := 900; time_base := mkRational 1 1000 |}
              eq_refl eq_refl ltac:(discriminate) ltac:(discriminate)).
match type of H with
| ?a = ?b =>
    change (Some (0, {| streams := streams two_stream_file;
                        unread := [mkPacket 0 0 1024 1;
                                   mkPacket 940 940 40 0] |}, a)
            = Some (0, {| streams := streams two_stream_file;
                          unread := [mkPacket 0 0 1024 1;
                                     mkPacket 940 940 40 0] |}, b))
end.
rewrite H. reflexivity.
Defined.



(** X15: [GetDuration] reports whole seconds only: the division is one of
    integers, so the fraction of a second is cut off before the value
    becomes a [double], and a file shorter than a second has duration 0. *)
Theorem GetDuration_is_whole_seconds duration :
  0 <= duration ->
  exists n : Z,
    GetDuration duration = inject_Z n /\
    n * AV_TIME_BASE <= duration < (n + 1) * AV_TIME_BASE /\
    (duration < AV_TIME_BASE -> n = 0).
Proof.
intros H. exists (Z.quot duration AV_TIME_BASE). split; [reflexivity|].
unfold AV_TIME_BASE. rewrite Z.quot_div_nonneg by lia.
pose proof (Z.div_mod duration 1000000 ltac:(lia)).
pose proof (Z.mod_pos_bound duration 1000000 ltac:(lia)).
split; [lia|]. intros Hlt. apply Z.div_small. lia.
Qed.

(** The theorem at a file of 2.5 seconds. *)
Lemma GetDuration_is_whole_seconds_witness :
  exists n : Z, GetDuration 2500000 = inject_Z n /\ n * AV_TIME_BASE <= 2500000.
Proof.
destruct (GetDuration_is_whole_seconds 2500000) as (n & Hn & Hb & _);
  [lia|].
exists n. split; [exact Hn | apply Hb].
Defined.

End ReaderLoop.

(** ** The configuration written to and read from JSON *)

Section ParamsJson.
Import Params.

Local Open Scope string_scope.
Local Open Scope Z_scope.

Lemma toInt_of_int n defaultValue :
  is_int n -> toInt (of_int n) defaultValue = n.
Proof.
unfold is_int, toInt, of_int. intros H. rewrite Qfloor_Z.
rewrite (proj2 (Qeq_bool_iff _ _) (Qeq_refl _)).
destruct (- 2 ^ 31 <=? n) eqn:E1; [|apply Z.leb_gt in E1; lia].
destruct (n <? 2 ^ 31) eqn:E2; [|apply Z.ltb_ge in E2; lia].
reflexivity.
Qed.

Lemma value_not_contained o key : contains o key = false -> value o key = JNull.
Proof.
unfold contains, value. induction o as [|kv o IH]; cbn; [reflexivity|].
destruct (String.eqb key (fst kv)); [discriminate | exact IH].
Qed.

Lemma value_is_string o key s :
  value o key = JString s <->
  isString (value o key) = true /\ toString (value o key) = s.
Proof.
destruct (value o key); cbn; split; try (intros [H1 H2]); try discriminate;
  try congruence; intros H; injection H as <-; auto.
Qed.

Lemma In_parse_int o key d call x :
  In x (parse_int o key d call) -> exists n, x = call n.
Proof.
unfold parse_int. destruct (contains o key); cbn; [|tauto].
intros [<- | []]. eauto.
Qed.

(** X16: [ParseJson] returns 0 or -1.  It returns -1 exactly for an object
    whose ["eyer_lib_version"] is not the string of the running version
    (missing, of another type, or another version), and then it has changed
    nothing.  A text that does not parse, or that holds an array, is
    answered with 0, and nothing is changed either. *)
Theorem ParseJson_gives_up_on_another_version v ids doc p :
  let '(ret, p', calls) := ParseJson v ids doc p in
  (ret = 0 \/ ret = -1) /\
  (ret = -1 <->
   exists o, doc = DocObject o /\ value o "eyer_lib_version" <> JString v) /\
  (ret = -1 \/ (forall o, doc <> DocObject o) -> p' = p /\ calls = []).
Proof.
unfold ParseJson. destruct doc as [| |o].
- split; [auto|]. split; [|auto].
  split; [discriminate | intros (o & Ho & _); discriminate].
- split; [auto|]. split; [|auto].
  split; [discriminate | intros (o & Ho & _); discriminate].
- destruct (contains o "eyer_lib_version") eqn:Ec.
  + destruct (isString (value o "eyer_lib_version")) eqn:Es.
    * destruct (String.eqb (toString (value o "eyer_lib_version")) v) eqn:Ev;
        cbn [negb].
      -- apply String.eqb_eq in Ev.
         assert (Hv : value o "eyer_lib_version" = JString v)
           by (apply value_is_string; auto).
         split; [auto|]. split.
         ++ split; [discriminate|]. intros (o' & Ho & Hne).
            injection Ho as <-. contradiction.
         ++ intros [H | H]; [discriminate H | now contradiction (H o)].
      -- apply String.eqb_neq in Ev.
         split; [auto|]. split; [|auto]. split; [|reflexivity].
         intros _. exists o. split; [reflexivity|].
         intros Hv. apply value_is_string in Hv as [_ Hv]. contradiction.
    * split; [auto|]. split; [|auto]. split; [|reflexivity].
      intros _. exists o. split; [reflexivity|].
      intros Hv. apply value_is_string in Hv as [Hv _]. congruence.
  + split; [auto|]. split; [|auto]. split; [|reflexivity].
    intros _. exists o. split; [reflexivity|].
    rewrite (value_not_contained _ _ Ec). discriminate.
Qed.

(** X17: [ParseJson] never sets the number of encoder threads: it calls
    [SetEncodeThreadNum] for no document, and what it finds under
    ["encode_thread_num"] goes, as the last call, to [SetDecodeThreadNum]. *)
Theorem ParseJson_never_sets_the_encoder_threads v ids doc p :
  (forall n, ~ In (SetEncodeThreadNum n) (snd (ParseJson v ids doc p))) /\
  (forall o,
     doc = DocObject o ->
     value o "eyer_lib_version" = JString v ->
     contains o "encode_thread_num" = true ->
     exists front,
       snd (ParseJson v ids doc p)
       = (front
          ++ [SetDecodeThreadNum (toInt (value o "encode_thread_num") 4)])%list).
Proof.
split.
- intros n. unfold ParseJson. destruct doc as [| |o]; cbn [snd]; try tauto.
  destruct (contains o "eyer_lib_version"); cbn [snd]; [|tauto].
  destruct (isString _); cbn [snd]; [|tauto].
  destruct (negb _); cbn [snd]; [tauto|].
  rewrite !in_app_iff.
  intros H; repeat destruct H as [H | H];
    apply In_parse_int in H as (m & H); discriminate H.
- intros o -> Hv Henc. unfold ParseJson.
  destruct (contains o "eyer_lib_version") eqn:Ec;
    [|rewrite (value_not_contained _ _ Ec) in Hv; discriminate Hv].
  apply value_is_string in Hv as [Hs Ht]. rewrite Hs, Ht, String.eqb_refl.
  cbn [negb snd]. unfold parse_int at 9. rewrite Henc.
  eexists. rewrite !app_assoc. reflexivity.
Qed.

(** The theorem at the object that holds the version and 6 encoder
    threads. *)
Lemma ParseJson_never_sets_the_encoder_threads_witness :
  snd (ParseJson "1.0" sample_ids
         (DocObject [("eyer_lib_version", JString "1.0");
                     ("encode_thread_num", of_int 6)]) default_params)
  = [SetDecodeThreadNum 6].
Proof.
destruct (proj2 (ParseJson_never_sets_the_encoder_threads "1.0" sample_ids
                   (DocObject [("eyer_lib_version", JString "1.0");
                               ("encode_thread_num", of_int 6)])
                   default_params)
            [("eyer_lib_version", JString "1.0");
             ("encode_thread_num", of_int 6)]
            eq_refl eq_refl eq_refl) as (front & H).
rewrite H. vm_compute in H.
destruct front as [|c front]; [reflexivity|].
destruct front; discriminate H.
Defined.

(** X18: Reading back what [ToJson] wrote, into any parameters: the members of
    the class come back as written, and the base class is handed the ids,
    the crf and the sample rate as written; but the number of decoder
    threads is set twice, the second time to the number of encoder threads
    written, and the number of encoder threads is not set. *)
Theorem ParseJson_of_ToJson v ids b p q :
  Forall is_int (ints_of b) -> is_int (transNumSametime p) ->
  ParseJson v ids (DocObject (ToJson v b p)) q
  = (0, p,
     [SetOutputFileFmt (outputFileFmt_id b); SetVideoCodecId (videoCodec_id b);
      SetVideoPixelFormat (pixelFormat_id b); SetCRF (crf b);
      SetAudioCodecId (audioCodec_id b); SetChannelLayout (channelLayout_id b);
      SetSampleRate (sampleRate b); SetDecodeThreadNum (decodeThreadNum b);
      SetDecodeThreadNum (encodeThreadNum b)]).
Proof.
intros Hb Hp. unfold ints_of in Hb.
repeat match goal with
       | H : Forall _ (_ :: _) |- _ =>
           let H1 := fresh "Hi" in
           apply Forall_cons_iff in H as [H1 H]
       end.
assert (Hc : contains (ToJson v b p) "eyer_lib_version" = true)
  by reflexivity.
assert (Hv : value (ToJson v b p) "eyer_lib_version" = JString v)
  by reflexivity.
cbv beta iota delta [ParseJson]. rewrite Hc, Hv. clear Hc Hv.
cbn [isString toString]. rewrite String.eqb_refl. cbn [negb].
cbv - [toInt of_int Z.opp Z.pow].
rewrite !toInt_of_int by assumption.
destruct p; reflexivity.
Qed.

(** The theorem at a configuration with 2 decoder and 8 encoder threads:
    read back, the decoder threads are set to 8. *)
Lemma ParseJson_of_ToJson_witness :
  snd (ParseJson "1.0" sample_ids
         (DocObject (ToJson "1.0" sample_view default_params)) default_params)
  = [SetOutputFileFmt 1; SetVideoCodecId 2; SetVideoPixelFormat 3; SetCRF 23;
     SetAudioCodecId 4; SetChannelLayout 5; SetSampleRate 48000;
     SetDecodeThreadNum 2; SetDecodeThreadNum 8].
Proof.
rewrite (ParseJson_of_ToJson "1.0" sample_ids sample_view default_params
           default_params).
- reflexivity.
- repeat constructor; cbn; lia.
- unfold is_int. cbn. lia.
Defined.

End ParamsJson.

(** ** Milliseconds as a time of day *)

Section TimeOfDay.
Import EyerTime.

Local Open Scope string_scope.
Local Open Scope Z_scope.

Lemma put_int_two_digits n : 0 <= n < 100 -> put_int 2 n = two_digits n.
Proof.
intros H.
assert (Hall : forallb (fun k => String.eqb (put_int 2 (Z.of_nat k))
                                   (two_digits (Z.of_nat k)))
                 (seq 0 100) = true) by (vm_compute; reflexivity).
rewrite forallb_forall in Hall.
specialize (Hall (Z.to_nat n)). rewrite Z2Nat.id in Hall by lia.
apply String.eqb_eq, Hall, in_seq. lia.
Qed.

Lemma put_int_three_digits n : 0 <= n < 1000 -> put_int 3 n = three_digits n.
Proof.
intros H.
assert (Hall : forallb (fun k => String.eqb (put_int 3 (Z.of_nat k))
                                   (three_digits (Z.of_nat k)))
                 (seq 0 1000) = true) by (vm_compute; reflexivity).
rewrite forallb_forall in Hall.
specialize (Hall (Z.to_nat n)). rewrite Z2Nat.id in Hall by lia.
apply String.eqb_eq, Hall, in_seq. lia.
Qed.

(** X19: For a time below 100 hours [Milliseconds_to_time] writes hours,
    minutes, seconds and milliseconds in two, two, two and three digits,
    ["HH:MM:SS,mmm"], twelve characters; minutes and seconds are below 60,
    the milliseconds below 1000, and the four numbers make up the time
    again. *)
Theorem Milliseconds_to_time_format ms :
  0 <= ms < 100 * 3600000 ->
  exists h m s r,
    0 <= h < 100 /\ 0 <= m < 60 /\ 0 <= s < 60 /\ 0 <= r < 1000 /\
    ms = ((h * 60 + m) * 60 + s) * 1000 + r /\
    Milliseconds_to_time ms
    = two_digits h ++ ":" ++ two_digits m ++ ":" ++ two_digits s ++ ","
      ++ three_digits r /\
    String.length (Milliseconds_to_time ms) = 12%nat.
Proof.
intros H. unfold Milliseconds_to_time, time_fields.
change (1000 * 60 * 60) with 3600000. change (1000 * 60) with 60000.
rewrite !Z.rem_mod_nonneg by lia.
rewrite !Z.quot_div_nonneg
  by (try lia; apply Z.mod_pos_bound; lia).
set (h := ms / 3600000). set (m := ms mod 3600000 / 60000).
set (s := ms mod 60000 / 1000). set (r := ms mod 1000).
assert (Hh : 0 <= h < 100).
{ unfold h. split; [apply Z.div_pos; lia|].
  apply Z.div_lt_upper_bound; lia. }
assert (Hm : 0 <= m < 60).
{ unfold m. pose proof (Z.mod_pos_bound ms 3600000 ltac:(lia)).
  split; [apply Z.div_pos; lia|]. apply Z.div_lt_upper_bound; lia. }
assert (Hs : 0 <= s < 60).
{ unfold s. pose proof (Z.mod_pos_bound ms 60000 ltac:(lia)).
  split; [apply Z.div_pos; lia|]. apply Z.div_lt_upper_bound; lia. }
assert (Hr : 0 <= r < 1000) by (unfold r; apply Z.mod_pos_bound; lia).
exists h, m, s, r. repeat (split; [assumption|]).
split.
- unfold h, m, s, r.
  pose proof (Z.div_mod ms 3600000 ltac:(lia)).
  pose proof (Z.div_mod (ms mod 3600000) 60000 ltac:(lia)).
  pose proof (Z.div_mod (ms mod 60000) 1000 ltac:(lia)).
  assert (E1 : (ms mod 3600000) mod 60000 = ms mod 60000).
  { replace 3600000 with (60000 * 60) by lia.
    rewrite Z.rem_mul_r by lia. rewrite Z.mul_comm, Z.mod_add by lia.
    apply Z.mod_mod. lia. }
  assert (E2 : (ms mod 60000) mod 1000 = ms mod 1000).
  { replace 60000 with (1000 * 60) by lia.
    rewrite Z.rem_mul_r by lia. rewrite Z.mul_comm, Z.mod_add by lia.
    apply Z.mod_mod. lia. }
  lia.
- rewrite (put_int_two_digits h), (put_int_two_digits m),
    (put_int_two_digits s), (put_int_three_digits r) by lia.
  split; reflexivity.
Qed.

(** The theorem at 3661000 milliseconds, the example of the source. *)
Lemma Milliseconds_to_time_format_witness :
  String.length (Milliseconds_to_time 3661000) = 12%nat.
Proof.
destruct (Milliseconds_to_time_format 3661000) as (h & m & s & r & H);
  [lia|].
apply H.
Defined.

End TimeOfDay.

(** ** The packets of a whole run *)

Section RunPackets.
Import AV Transcode.

Variable w : World.
Variable su : Setup.

Lemma packets_while_sending_app who l1 : forall base l2,
  packets_while_sending w who base (l1 ++ l2)
  = packets_while_sending w who base l1
    ++ packets_while_sending w who (base ++ l1) l2.
Proof.
induction l1 as [|x l1 IH]; intros base l2.
- cbn. now rewrite app_nil_r.
- cbn [app packets_while_sending]. rewrite IH, <- !app_assoc. reflexivity.
Qed.

Lemma received_DrainEncoder who who' ready :
  received who (DrainEncoder w su who' ready)
  = if pipeline_eqb who who' then ready else [].
Proof.
induction ready as [|p ready IH]; cbn [DrainEncoder received flat_map].
- now destruct (pipeline_eqb who who').
- fold (received who (DrainEncoder w su who' ready)). rewrite IH.
  now destruct (pipeline_eqb who who').
Qed.

Lemma video_event_received ev :
  Forall (video_event w su) ev -> received Audio ev = [].
Proof.
induction 1 as [|e ev He _ IH]; [reflexivity|].
destruct e; try destruct who; try contradiction He; exact IH.
Qed.

Lemma audio_event_received ev :
  Forall (audio_event w su) ev -> received Video ev = [].
Proof.
induction 1 as [|e ev He _ IH]; [reflexivity|].
destruct e; try destruct who; try contradiction He; exact IH.
Qed.

Lemma EncodeResampled_received fuel : forall a a' ev,
  EncodeResampled fuel w su a = Some (a', ev) ->
  received Audio ev
  = packets_while_sending w Audio (audioSent a) (sent Audio ev).
Proof.
induction fuel as [|fuel IH]; intros a a' ev H; [discriminate|].
cbn [EncodeResampled] in H.
destruct (resample_GetFrame _ _) as [remaining|].
- unfold EncodeAudio in H. cbv zeta in H.
  cbn [audioOffset resampleBuffered audioSent audioDecoderDrained] in H.
  destruct (EncodeResampled fuel w su _) as [[a3 ev3]|] eqn:Er; [|discriminate].
  injection H as <- <-. apply IH in Er. cbn [audioSent] in Er.
  change (ResampleGetFrame 0 :: ?x :: ?d ++ ev3)
    with ([ResampleGetFrame 0; x] ++ d ++ ev3).
  rewrite !received_app, !sent_app, received_DrainEncoder, sent_DrainEncoder, Er.
  reflexivity.
- injection H as <- <-. reflexivity.
Qed.

Lemma ResampleFrames_received fuel frames : forall a a' ev,
  ResampleFrames fuel w su frames a = Some (a', ev) ->
  received Audio ev
  = packets_while_sending w Audio (audioSent a) (sent Audio ev).
Proof.
induction frames as [|n frames IH]; intros a a' ev H; cbn [ResampleFrames] in H.
- injection H as <- <-. reflexivity.
- destruct (EncodeResampled fuel w su _) as [[a2 ev2]|] eqn:E1; [|discriminate].
  destruct (ResampleFrames fuel w su frames a2) as [[a3 ev3]|] eqn:E2;
    [|discriminate].
  injection H as <- <-.
  pose proof (EncodeResampled_received _ _ _ _ E1) as H1.
  apply EncodeResampled_account in E1 as (_ & _ & _ & _ & Hsent & _).
  apply IH in E2. cbn [audioSent] in *.
  change (ResamplePutAVFrame n :: ev2 ++ ev3)
    with ([ResamplePutAVFrame n] ++ ev2 ++ ev3).
  rewrite !received_app, !sent_app, H1, E2, Hsent.
  cbn [received sent flat_map app]. now rewrite packets_while_sending_app.
Qed.

Lemma TranscodeAudio_received fuel limitTime file : forall a r file' a' ev,
  TranscodeAudio fuel w su limitTime file a = Some (r, file', a', ev) ->
  received Audio ev
  = packets_while_sending w Audio (audioSent a) (sent Audio ev).
Proof.
induction file as [|p file IH]; intros a r file' a' ev H;
  cbn [TranscodeAudio] in H.
- destruct (ResampleFrames fuel w su _ (drained a)) as [[a2 ev2]|] eqn:E1;
    [|discriminate].
  injection H as <- <- <- <-. apply ResampleFrames_received in E1.
  exact E1.
- destruct (negb _); [eapply IH; eauto|].
  destruct (ResampleFrames fuel w su (decoded p) a) as [[a2 ev2]|] eqn:E1;
    [|discriminate].
  pose proof (ResampleFrames_received _ _ _ _ _ E1) as H1.
  apply ResampleFrames_account in E1 as (_ & _ & _ & _ & Hsent & _).
  destruct (Qgtb _ _).
  + injection H as <- <- <- <-. exact H1.
  + destruct (TranscodeAudio fuel w su limitTime file a2)
      as [[[[r3 f3] a3] ev3]|] eqn:E2; [|discriminate].
    injection H as <- <- <- <-. apply IH in E2.
    now rewrite received_app, sent_app, H1, E2, Hsent,
      packets_while_sending_app.
Qed.

Lemma TranscodeVideo_loop_received fuel limitTime : forall v r v' ev,
  TranscodeVideo_loop fuel w su limitTime v = Some (r, v', ev) ->
  received Video ev
    = packets_while_sending w Video (videoSent v) (sent Video ev) /\
  videoSent v' = videoSent v ++ sent Video ev.
Proof.
induction fuel as [|fuel IH]; intros v r v' ev H; [discriminate|].
cbn [TranscodeVideo_loop] in H.
destruct (negb _).
- injection H as <- <- <-. cbn. now rewrite app_nil_r.
- assert (Hstep : forall rest,
    received Video
      (DecoderBoxGetFrame (frameTime w (frameOffset v))
         (decoderBox_GetFrame w (boxCalls v) (frameTime w (frameOffset v)))
       :: EncoderSendFrame Video
            (framePts w (frameOffset v))
       :: DrainEncoder w su Video
            (encoder_packets w Video
               (videoSent v
                ++ [framePts w (frameOffset v)]))
          ++ rest)
    = encoder_packets w Video
        (videoSent v
         ++ [framePts w (frameOffset v)])
      ++ received Video rest).
  { intros rest.
    change (?a :: ?b :: ?d ++ rest) with ([a; b] ++ d ++ rest).
    now rewrite !received_app, received_DrainEncoder. }
  destruct (double_gtb _ _).
  + injection H as <- <- <-. cbn [videoSent].
    rewrite <- (app_nil_r (DrainEncoder _ _ _ _)), Hstep, sent_video_step.
    cbn. now rewrite !app_nil_r.
  + destruct (TranscodeVideo_loop fuel w su limitTime _)
      as [[[r3 v3] ev3]|] eqn:E2; [|discriminate].
    injection H as <- <- <-. apply IH in E2 as (Hr & Hs).
    cbn [videoSent] in Hr, Hs.
    rewrite Hstep, sent_video_step, Hr, Hs. cbn [packets_while_sending].
    split; [reflexivity | now rewrite <- app_assoc].
Qed.

Lemma TranscodeVideo_received fuel limitTime v r v' ev :
  TranscodeVideo fuel w su limitTime v = Some (r, v', ev) ->
  received Video ev
    = packets_while_sending w Video (videoSent v) (sent Video ev) /\
  videoSent v' = videoSent v ++ sent Video ev.
Proof.
unfold TranscodeVideo. destruct (_ <=? _).
- intros H. injection H as <- <- <-. cbn. now rewrite app_nil_r.
- apply TranscodeVideo_loop_received.
Qed.

(** Over the loop every packet an encoder hands out after a frame is
    received (and written), in the order of the frames. *)
Lemma MainLoop_received fuel : forall limitTime v file a v' file' a' ev,
  MainLoop fuel w su limitTime v file a = Some (v', file', a', ev) ->
  received Video ev
    = packets_while_sending w Video (videoSent v) (sent Video ev) /\
  videoSent v' = videoSent v ++ sent Video ev /\
  received Audio ev
    = packets_while_sending w Audio (audioSent a) (sent Audio ev) /\
  audioSent a' = audioSent a ++ sent Audio ev.
Proof.
induction fuel as [|fuel IH]; intros limitTime v file a v' file' a' ev H;
  [discriminate|].
apply MainLoop_round in H
  as (rv & v1 & ev1 & ra & f1 & a1 & ev2 & Hv & Ha & Hrest).
assert (H1 :
  received Video (ev1 ++ Sleep :: ev2)
    = packets_while_sending w Video (videoSent v)
        (sent Video (ev1 ++ Sleep :: ev2)) /\
  videoSent v1 = videoSent v ++ sent Video (ev1 ++ Sleep :: ev2) /\
  received Audio (ev1 ++ Sleep :: ev2)
    = packets_while_sending w Audio (audioSent a)
        (sent Audio (ev1 ++ Sleep :: ev2)) /\
  audioSent a1 = audioSent a ++ sent Audio (ev1 ++ Sleep :: ev2)).
{ assert (Hv2 : received Audio ev1 = [] /\ sent Audio ev1 = []).
  { destruct Hv as [(_ & Hv) | (_ & _ & _ & ->)]; [|split; reflexivity].
    apply TranscodeVideo_events in Hv. split.
    - now apply video_event_received.
    - now apply video_event_readings in Hv. }
  assert (Ha2 : received Video ev2 = [] /\ sent Video ev2 = []).
  { destruct Ha as [(_ & Ha) | (_ & _ & _ & _ & ->)]; [|split; reflexivity].
    apply TranscodeAudio_events in Ha. split.
    - now apply audio_event_received.
    - now apply audio_event_readings in Ha. }
  destruct Hv2 as (Hv2 & Hv3). destruct Ha2 as (Ha2 & Ha3).
  change (ev1 ++ Sleep :: ev2) with (ev1 ++ [Sleep] ++ ev2).
  rewrite !received_app, !sent_app, Hv2, Hv3, Ha2, Ha3.
  cbn [received sent flat_map app]. rewrite !app_nil_r.
  assert (Hvid : received Video ev1
                 = packets_while_sending w Video (videoSent v) (sent Video ev1)
                 /\ videoSent v1 = videoSent v ++ sent Video ev1).
  { destruct Hv as [(_ & Hv) | (_ & _ & -> & ->)].
    - now apply TranscodeVideo_received in Hv.
    - cbn. now rewrite app_nil_r. }
  assert (Haud : received Audio ev2
                 = packets_while_sending w Audio (audioSent a) (sent Audio ev2)
                 /\ audioSent a1 = audioSent a ++ sent Audio ev2).
  { destruct Ha as [(_ & Ha) | (_ & _ & _ & -> & ->)].
    - split; [now apply TranscodeAudio_received in Ha|].
      now apply TranscodeAudio_account in Ha as (_ & _ & _ & _ & ? & _).
    - cbn. now rewrite app_nil_r. }
  tauto. }
destruct H1 as (Hrv & Hsv & Hra & Hsa).
destruct Hrest as [(_ & _ & -> & _ & -> & ->) | (ev3 & E3 & ->)]; [auto|].
apply IH in E3 as (Hrv3 & Hsv3 & Hra3 & Hsa3).
set (ev12 := ev1 ++ Sleep :: ev2) in *.
rewrite !received_app, !sent_app, !packets_while_sending_app.
rewrite Hrv, Hrv3, Hra, Hra3, Hsv3, Hsa3, Hsv, Hsa, <- !app_assoc. auto.
Qed.

End RunPackets.

Section RunPacketsWhole.
Import AV Transcode.

(** X20: in a completed run the packets received from an encoder (each of
    which is written, in this order) are exactly the packets the encoder
    hands out after each frame sent to it, in the order of the frames,
    followed, when the encoder is flushed, by those it hands out after
    [SendFrameNull]: no packet of an encoder is left behind, taken twice or
    out of order. *)
Theorem every_encoder_packet_is_received fuel w o who :
  Transcode fuel w = Some o ->
  received who (trace o)
  = packets_while_sending w who [] (sent who (trace o))
    ++ (if flushed w (setup o) who
        then encoder_tail w who (sent who (trace o))
        else []).
Proof.
intros H. apply Transcode_parts in H as (file & a & evl & eva & El & Ef & _ & ->).
destruct (MainLoop_received _ _ _ _ _ _ _ _ _ _ _ El) as (Hrv & Hsv & Hra & Hsa).
destruct (prepare_events w) as (k & _ & Hprep).
destruct (prepare_readings w) as (Hp & _).
destruct (FlushVideo_readings w (setup o) (video o)) as (Hfv & _).
destruct (FlushAudio_readings _ _ _ _ _ _ Ef) as (Hfa & _).
cbn [video_start audio_start videoSent audioSent app] in Hrv, Hsv, Hra, Hsa.
assert (Hs : sent who ((snd (prepare w) ++ evl)
               ++ FlushVideo w (setup o) (video o) ++ eva
               ++ [ReadersClose; WriterWriteTrailer; WriterClose])
             = sent who evl).
{ rewrite !sent_app, (proj1 (Hp who)), Hfv, Hfa. cbn. now rewrite app_nil_r. }
rewrite Hs, !received_app, (proj1 (Hprep who)). cbn [app].
assert (Hfvr : received who (FlushVideo w (setup o) (video o))
               = match who with
                 | Video => if flushed w (setup o) Video
                            then encoder_tail w Video (sent Video evl) else []
                 | Audio => []
                 end).
{ unfold FlushVideo, flushed. destruct (careVideo (params w));
    [|now destruct who].
  destruct (0 <=? encoderVideoStreamIndex (setup o)); [|now destruct who].
  cbn [andb received flat_map app].
  fold (received who (DrainEncoder w (setup o) Video
                        (encoder_tail w Video (videoSent (video o))))).
  rewrite received_DrainEncoder, Hsv. now destruct who. }
assert (Hfar : received who eva
               = match who with
                 | Audio => if flushed w (setup o) Audio
                            then encoder_tail w Audio (sent Audio evl) else []
                 | Video => []
                 end).
{ revert Ef. unfold FlushAudio, flushed. destruct (careAudio (params w));
    [|intros Ef; injection Ef as _ <-; now destruct who].
  destruct (0 <=? encoderAudioStreamIndex (setup o));
    [|intros Ef; injection Ef as _ <-; now destruct who].
  destruct (DropResampled fuel w _) as [[b evd]|] eqn:E; [|discriminate].
  apply DropResampled_shape in E as (n & -> & _ & _).
  assert (Hrep : received who (repeat (ResampleGetFrame 0) n) = [])
    by (induction n; cbn; auto).
  intros Ef. destruct (resample_GetLastFrame b); injection Ef as _ <-;
    change (ResamplePutAVFrameNULL :: ?l) with ([ResamplePutAVFrameNULL] ++ l);
    rewrite !received_app, Hrep; cbn [andb received flat_map app];
    fold (received who (DrainEncoder w (setup o) Audio
                          (encoder_tail w Audio (audioSent a))));
    rewrite received_DrainEncoder, Hsa; now destruct who. }
rewrite Hfvr, Hfar. cbn [received flat_map app]. rewrite app_nil_r.
destruct who; [rewrite Hrv | rewrite Hra]; now rewrite ?app_nil_r.
Qed.

(** The theorem at the sample run. *)
Lemma every_encoder_packet_is_received_witness :
  exists o, Transcode 100 sample_world = Some o /\
  received Video (trace o)
  = packets_while_sending sample_world Video [] (sent Video (trace o))
    ++ (if flushed sample_world (setup o) Video
        then encoder_tail sample_world Video (sent Video (trace o))
        else []).
Proof.
destruct (Transcode 100 sample_world) as [o|] eqn:E.
- exists o. split; [reflexivity|].
  exact (every_encoder_packet_is_received 100 sample_world o Video E).
- vm_compute in E. discriminate E.
Defined.

End RunPacketsWhole.
